(** * skbold: masked pattern extraction (Mvp, Fsl2mvpWithin, Fsl2mvpBetween)

    A shallow embedding of

      - [skbold/core/mvp.py]                          (class [Mvp])
      - [skbold/data2mvp/fsl2mvp/fsl2mvp_within.py]   (class [Fsl2mvpWithin])
      - [skbold/data2mvp/fsl2mvp/fsl2mvp_between.py]  (class [Fsl2mvpBetween])

    Python objects are records, methods are actions of a small
    reader/state/exception monad that also logs every call to an external
    collaborator (nibabel, glob, os, shutil, cPickle, h5py).  numpy arrays
    are lists in row-major (ravel) order; a floating-point value is held
    as the IEEE binary64 value it equals ([spec_float] at precision 53),
    a loaded volume carries its dtype, and an operation numpy does in
    float32 rounds in float32; uint32 values are [N] with the wrap-around
    written out. *)

From Stdlib Require Import String Ascii ZArith NArith Bool Arith Lia Floats List.
From Stdlib Require Import RelationClasses.
Import ListNotations.

Set Implicit Arguments.

(* ================================================================== *)
(** * float64 *)
(* ================================================================== *)

Definition f64 := spec_float.

Definition f64_prec : Z := 53.
Definition f64_emax : Z := 1024.

Definition f64_add : f64 -> f64 -> f64 := SFadd f64_prec f64_emax.
Definition f64_div : f64 -> f64 -> f64 := SFdiv f64_prec f64_emax.
Definition f64_sqrt : f64 -> f64 := SFsqrt f64_prec f64_emax.

(** [x > y] on floats; false as soon as one side is NaN. *)
Definition f64_gt (x y : f64) : bool := SFltb y x.

(** [np.isnan] *)
Definition f64_isnan (x : f64) : bool :=
  match x with S754_nan => true | _ => false end.

(** [x.astype(bool)]: everything but +0.0 and -0.0 is truthy. *)
Definition f64_astype_bool (x : f64) : bool :=
  match x with S754_zero _ => false | _ => true end.

Definition f64_zero : f64 := S754_zero false.
Definition f64_one : f64 := S754_finite false 4503599627370496 (-52).
Definition f64_inf : f64 := S754_infinity false.

(** A boolean array entering float arithmetic: False is 0.0, True is 1.0. *)
Definition f64_of_bool (b : bool) : f64 := if b then f64_one else f64_zero.

(** Float literals of the examples. *)
Definition lit (x : float) : f64 := Prim2SF x.

Arguments f64_add : simpl never.
Arguments f64_div : simpl never.
Arguments f64_sqrt : simpl never.
Arguments f64_gt : simpl never.

(* ================================================================== *)
(** * float32 *)
(* ================================================================== *)

(** The dtype of a loaded volume: FSL writes float32; float64 stands for
    every dtype whose values numpy handles in double precision. *)
Inductive dtype := Float32 | Float64.

(** [x] rounded to nearest even at another precision. *)
Definition round_to (prec emax : Z) (x : f64) : f64 :=
  match x with
  | S754_finite s m e => binary_normalize prec emax (cond_Zopp s (Zpos m)) e s
  | _ => x
  end.

(** [np.float32(x)], in the format of precision 24. *)
Definition f32_of : f64 -> spec_float := round_to 24 128.

(** A float32 value as the binary64 value it equals (the conversion is
    exact). *)
Definition f64_of : spec_float -> f64 := round_to f64_prec f64_emax.

(** [np.float32(x)], as the binary64 value it equals. *)
Definition f32 (x : f64) : f64 := f64_of (f32_of x).

(** [np.sqrt], [/] and [>] on float32 operands; an operand that is not
    a float32 value enters as [np.float32] gives it. *)
Definition f32_sqrt (x : f64) : f64 := f64_of (SFsqrt 24 128 (f32_of x)).
Definition f32_div (x y : f64) : f64 :=
  f64_of (SFdiv 24 128 (f32_of x) (f32_of y)).
Definition f32_gt (x y : f64) : bool := f64_gt (f32 x) (f32 y).

Arguments f32 : simpl never.
Arguments f32_sqrt : simpl never.
Arguments f32_div : simpl never.
Arguments f32_gt : simpl never.

(* ================================================================== *)
(** * Python exceptions and the method monad *)
(* ================================================================== *)

(** The [ValueError]s raised in the three files, told apart by their
    message, and the ones numpy raises on the way. *)
Inductive value_error :=
| ShapeOfNewIndex      (* mvp.py:91       "Shape of new index ..."           *)
| TrialsVsLabels       (* within.py:147   "The number of trials ..."         *)
| InvalidRefSpace      (* within.py:118, between.py:128                      *)
| SubclassesOnly       (* mvp.py:100                                         *)
| CannotReshape        (* numpy: reshape to a shape of another size          *)
| CannotBroadcast.     (* numpy: operands / assignment of different lengths  *)

Inductive exn :=
| ValueError (why : value_error)
| IndexError
| TypeError
| AttributeError
| UnboundLocalError
| IOError.

Inductive result (A : Type) :=
| Ok (a : A)
| Raise (e : exn).
Arguments Ok {A} a.
Arguments Raise {A} e.

Section MethodMonad.
(** [E]: what the outside world answers; [S]: the object ([self]);
    [V]: the calls made to the outside world, oldest first. *)
Variables E S V : Type.

Definition M (A : Type) : Type := E -> S -> list V -> result A * S * list V.

Definition ret {A} (a : A) : M A := fun _ s t => (Ok a, s, t).

Definition bind {A B} (m : M A) (k : A -> M B) : M B :=
  fun env s t =>
    match m env s t with
    | (Ok a, s', t') => k a env s' t'
    | (Raise e, s', t') => (Raise e, s', t')
    end.

Definition raise {A} (e : exn) : M A := fun _ s t => (Raise e, s, t).

Definition ask : M E := fun env s t => (Ok env, s, t).
Definition get : M S := fun _ s t => (Ok s, s, t).
Definition modify (f : S -> S) : M unit := fun _ s t => (Ok tt, f s, t).
Definition emit (v : V) : M unit := fun _ s t => (Ok tt, s, t ++ [v]).

(** A partial operation of numpy or of a Python list. *)
Definition lift {A} (r : result A) : M A :=
  match r with Ok a => ret a | Raise e => raise e end.

(** A value that is [None] where the next operation needs one: the
    operation raises [e]. *)
Definition some_or {A} (e : exn) (o : option A) : M A :=
  match o with Some a => ret a | None => raise e end.
End MethodMonad.

Arguments ret {E S V A} a.
Arguments bind {E S V A B} m k.
Arguments raise {E S V A} e.
Arguments ask {E S V}.
Arguments get {E S V}.
Arguments modify {E S V} f.
Arguments emit {E S V} v.
Arguments lift {E S V A} r.
Arguments some_or {E S V A} e o.

Declare Scope py_scope.
Delimit Scope py_scope with py.
Notation "x <- m ;; k" := (bind m (fun x => k))
  (at level 100, m at next level, right associativity) : py_scope.
Notation "' pat <- m ;; k" := (bind m (fun x => match x with pat => k end))
  (at level 100, pat pattern, m at next level, right associativity) : py_scope.
Notation "m ;; k" := (bind m (fun _ => k))
  (at level 100, right associativity) : py_scope.
Open Scope py_scope.

(** A method of a base class run on the object of a subclass: [proj]
    reads the base part, [inj] writes it back. *)
Definition zoom {E S T V A} (proj : S -> T) (inj : T -> S -> S)
           (m : M E T V A) : M E S V A :=
  fun env s t =>
    match m env (proj s) t with
    | (r, b, t') => (r, inj b s, t')
    end.

(* ================================================================== *)
(** * numpy on flat arrays *)
(* ================================================================== *)

Module Np.

(** [mask.sum()] of a boolean array. *)
Fixpoint count_true (mask : list bool) : nat :=
  match mask with
  | [] => 0
  | true :: m => S (count_true m)
  | false :: m => count_true m
  end.

(** [np.prod(shape)] *)
Definition prod (shape : list N) : N := fold_right N.mul 1%N shape.

(** [np.prod(shape, dtype=np.uint32)]: every product wraps at 2^32. *)
Definition prod_u32 (shape : list N) : N :=
  fold_right (fun d acc => (d * acc) mod 2 ^ 32)%N 1%N shape.

(** [np.arange(n)] *)
Definition arange (n : N) : list N := map N.of_nat (seq 0 (N.to_nat n)).

(** [np.zeros(n)] *)
Definition zeros (n : nat) : list f64 := repeat f64_zero n.

(** The elements picked by a boolean mask, assuming equal lengths. *)
Fixpoint select {A} (a : list A) (mask : list bool) : list A :=
  match a, mask with
  | x :: a', true :: m => x :: select a' m
  | _ :: a', false :: m => select a' m
  | _, _ => []
  end.

(** [a[mask]]: numpy refuses a boolean index of another length
    ([IndexError]). *)
Definition bool_index {A} (a : list A) (mask : list bool) : result (list A) :=
  if length a =? length mask then Ok (select a mask) else Raise IndexError.

(** [canvas[mask] += vals], once the lengths are known to agree: the
    k-th true position of [mask] receives [canvas + vals[k]]. *)
Fixpoint scatter_add (canvas : list f64) (mask : list bool) (vals : list f64)
  : list f64 :=
  match canvas, mask with
  | c :: cs, true :: m =>
      match vals with
      | v :: vs => f64_add c v :: scatter_add cs m vs
      | [] => c :: scatter_add cs m []
      end
  | c :: cs, false :: m => c :: scatter_add cs m vals
  | _, _ => canvas
  end.

(** The dtype of the result of an operation on two float arrays. *)
Definition result_type (a b : dtype) : dtype :=
  match a, b with
  | Float32, Float32 => Float32
  | _, _ => Float64
  end.

(** One entry of [np.sqrt(a)], [a] of dtype [dt]. *)
Definition sqrt (dt : dtype) (x : f64) : f64 :=
  match dt with Float32 => f32_sqrt x | Float64 => f64_sqrt x end.

(** One entry of a division done in dtype [dt]. *)
Definition quotient (dt : dtype) (x y : f64) : f64 :=
  match dt with Float32 => f32_div x y | Float64 => f64_div x y end.

(** One entry of [a > t], [a] of dtype [dt] and [t] a Python number:
    numpy compares in the dtype of the array, so [t] is first rounded to
    float32 when the array is. *)
Definition greater (dt : dtype) (x t : f64) : bool :=
  match dt with Float32 => f32_gt x t | Float64 => f64_gt x t end.

(** [np.divide(a, b)], done in dtype [dt] (the [result_type] of the
    operands), with numpy's broadcasting of a length-1 operand. *)
Definition divide (dt : dtype) (a b : list f64) : result (list f64) :=
  if length a =? length b then
    Ok (map (fun p => quotient dt (fst p) (snd p)) (combine a b))
  else
    match a, b with
    | _, [y] => Ok (map (fun x => quotient dt x y) a)
    | [x], _ => Ok (map (fun y => quotient dt x y) b)
    | _, _ => Raise (ValueError CannotBroadcast)
    end.

(** [a[np.isnan(a)] = 0] *)
Definition nan_to_zero (a : list f64) : list f64 :=
  map (fun x => if f64_isnan x then f64_zero else x) a.

(** [a[lo:hi] = vals] on a flat array.  A slice is clipped to the array;
    [vals] must have the slice's length or length 1. *)
Definition set_slice (a : list f64) (lo hi : nat) (vals : list f64)
  : result (list f64) :=
  let lo' := Nat.min lo (length a) in
  let hi' := Nat.max lo' (Nat.min hi (length a)) in
  let n := hi' - lo' in
  if length vals =? n then
    Ok (firstn lo' a ++ vals ++ skipn hi' a)
  else
    match vals with
    | [v] => Ok (firstn lo' a ++ repeat v n ++ skipn hi' a)
    | _ => Raise (ValueError CannotBroadcast)
    end.

(** [m[i, :] = vals] on a matrix with [ncols] columns, kept as the list
    of its rows: [IndexError] past the last row; [vals] must have
    [ncols] elements or one. *)
Definition set_row (ncols : nat) (rows : list (list f64)) (i : nat)
           (vals : list f64) : result (list (list f64)) :=
  if length rows <=? i then Raise IndexError
  else if length vals =? ncols then
    Ok (firstn i rows ++ vals :: skipn (S i) rows)
  else
    match vals with
    | [v] => Ok (firstn i rows ++ repeat v ncols :: skipn (S i) rows)
    | _ => Raise (ValueError CannotBroadcast)
    end.

(** [m[i, :]] *)
Definition get_row (rows : list (list f64)) (i : nat) : result (list f64) :=
  match nth_error rows i with
  | Some r => Ok r
  | None => Raise IndexError
  end.

(** [np.unique] of an array of strings: sorted, without duplicates. *)
Fixpoint insert_unique (x : string) (l : list string) : list string :=
  match l with
  | [] => [x]
  | h :: t =>
      match String.compare x h with
      | Lt => x :: l
      | Eq => l
      | Gt => h :: insert_unique x t
      end
  end.

Definition unique (l : list string) : list string :=
  fold_right insert_unique [] l.

(** [cl == cls], elementwise. *)
Definition eq_elementwise (cl : list string) (cls : string) : list bool :=
  map (fun c => String.eqb c cls) cl.

(** [np.where(mask)[0]] *)
Fixpoint where_from (i : nat) (mask : list bool) : list nat :=
  match mask with
  | [] => []
  | true :: m => i :: where_from (S i) m
  | false :: m => where_from (S i) m
  end.
Definition where_ (mask : list bool) : list nat := where_from 0 mask.

End Np.

(** [sklearn.preprocessing.LabelEncoder().fit_transform(cl)]: the classes
    are [np.unique(cl)], every label is replaced by its position there. *)
Fixpoint index_of (x : string) (l : list string) : nat :=
  match l with
  | [] => 0
  | h :: t => if String.eqb x h then 0 else S (index_of x t)
  end.

Definition label_encode (cl : list string) : list nat :=
  map (fun c => index_of c (Np.unique cl)) cl.

(* ================================================================== *)
(** * Values shared by the three classes *)
(* ================================================================== *)

Definition path := string.

(** What [nib.load(path)] gives: the geometry, the dtype of the array
    that [get_data()] returns, the data in ravel order, and the header
    and affine, which the code only passes on. *)
Record volume := mkVolume {
  vshape : list N;
  vdtype : dtype;
  vdata : list f64;
  vheader : string;
  vaffine : string
}.

(** [X]: the 2-d matrix of the within design (with the shape it was
    allocated with) or the flat vector of the between design. *)
Inductive ndarray :=
| Mat (nrows ncols : nat) (rows : list (list f64))
| Vec (data : list f64).

(** [y]: the encoded labels (within) or the scalar outcome (between). *)
Inductive yvalue :=
| YCodes (codes : list nat)
| YScalar (v : f64).

(* ================================================================== *)
(** * skbold/core/mvp.py *)
(* ================================================================== *)

Module Mvp.

(** The attributes set by [Mvp.__init__] that the methods read or write
    ([directory], [sub_name], [run_name] and [mask_name] only name
    files). *)
Record t := mk {
  ref_space : string;
  beta2tstat : bool;
  mask_path : option path;
  mask_threshold : f64;
  n_features : option nat;
  mask_index : option (list bool);
  mask_shape : option (list N);
  nifti_header : option string;
  affine : option string;
  X : option ndarray;
  y : option yvalue
}.

(** [Mvp.__init__] (mvp.py:60-86), the directory being there. *)
Definition init (mask_threshold : f64) (beta2tstat : bool)
           (ref_space : string) (mask_path : option path) : t :=
  mk ref_space beta2tstat mask_path mask_threshold
     None None None None None None None.

Definition set_mask_path (v : option path) (s : t) : t :=
  mk (ref_space s) (beta2tstat s) v (mask_threshold s) (n_features s)
     (mask_index s) (mask_shape s) (nifti_header s) (affine s) (X s) (y s).
Definition set_n_features (v : option nat) (s : t) : t :=
  mk (ref_space s) (beta2tstat s) (mask_path s) (mask_threshold s) v
     (mask_index s) (mask_shape s) (nifti_header s) (affine s) (X s) (y s).
Definition set_mask_index (v : option (list bool)) (s : t) : t :=
  mk (ref_space s) (beta2tstat s) (mask_path s) (mask_threshold s)
     (n_features s) v (mask_shape s) (nifti_header s) (affine s) (X s) (y s).
Definition set_mask_shape (v : option (list N)) (s : t) : t :=
  mk (ref_space s) (beta2tstat s) (mask_path s) (mask_threshold s)
     (n_features s) (mask_index s) v (nifti_header s) (affine s) (X s) (y s).
Definition set_nifti_header (v : option string) (s : t) : t :=
  mk (ref_space s) (beta2tstat s) (mask_path s) (mask_threshold s)
     (n_features s) (mask_index s) (mask_shape s) v (affine s) (X s) (y s).
Definition set_affine (v : option string) (s : t) : t :=
  mk (ref_space s) (beta2tstat s) (mask_path s) (mask_threshold s)
     (n_features s) (mask_index s) (mask_shape s) (nifti_header s) v
     (X s) (y s).
Definition set_X (v : option ndarray) (s : t) : t :=
  mk (ref_space s) (beta2tstat s) (mask_path s) (mask_threshold s)
     (n_features s) (mask_index s) (mask_shape s) (nifti_header s)
     (affine s) v (y s).
Definition set_y (v : option yvalue) (s : t) : t :=
  mk (ref_space s) (beta2tstat s) (mask_path s) (mask_threshold s)
     (n_features s) (mask_index s) (mask_shape s) (nifti_header s)
     (affine s) (X s) v.

Section Methods.
Variables E V : Type.
(** Reading an attribute that must not be [None] for the next
    operation; [e] is what Python raises when it is. *)
Definition attr {A} (f : t -> option A) (e : exn) : M E t V A :=
  s <- get ;; some_or e (f s).

(** [Mvp.update_mask] (mvp.py:88-97), [new_idx] a 1-d boolean array.

<<
    if new_idx.size != self.mask_index.sum():
        raise ValueError(msg)
    tmp_idx = np.zeros(self.mask_shape)
    tmp_idx[self.mask_index.reshape(self.mask_shape)] += new_idx
    self.mask_index = tmp_idx.astype(bool).ravel()
>>
    All arrays are kept in ravel order, so [reshape] only checks the
    size.  After the size test the number of true entries of the mask
    is the length of [new_idx], so the in-place addition cannot fail
    to broadcast. *)
Definition update_mask (new_idx : list bool) : M E t V unit :=
  sel <- attr mask_index AttributeError ;;
  if negb (length new_idx =? Np.count_true sel) then
    raise (ValueError ShapeOfNewIndex)
  else
    shape <- attr mask_shape TypeError ;;
    let tmp_idx := Np.zeros (N.to_nat (Np.prod shape)) in
    if negb (N.of_nat (length sel) =? Np.prod shape)%N then
      raise (ValueError CannotReshape)
    else
      let tmp_idx := Np.scatter_add tmp_idx sel (map f64_of_bool new_idx) in
      modify (set_mask_index (Some (map f64_astype_bool tmp_idx))).

(** [Mvp.glm2mvp] (mvp.py:99-101) *)
Definition glm2mvp : M E t V unit := raise (ValueError SubclassesOnly).
End Methods.

End Mvp.

(* ================================================================== *)
(** * The outside world *)
(* ================================================================== *)

(** The two directories of a feat directory that hold statistic volumes
    and the two kinds of volume found there. *)
Inductive subdir := Stats | RegStandard.
Inductive stat_kind := Cope | Varcope.

(** Every call that leaves the interpreter, in the order it is made.
    [NpZeros] is not I/O; it is logged to place the allocation of the data
    matrix among the others. *)
Inductive call :=
| NibLoad (p : path)                      (* nib.load(p)                     *)
| Convert2epi (p : path)                  (* convert2epi(p, reg_dir, ...)    *)
| Convert2mni (ps : list path)            (* convert2mni(ps, reg_dir, ...)   *)
| GlobFeat                                (* glob of the feat directories   *)
| GlobHeader                              (* glob of the header pickles     *)
| ExistsMatDir                            (* op.exists(mat_dir)              *)
| Rmtree                                  (* shutil.rmtree(mat_dir)          *)
| Makedirs                                (* os.makedirs(mat_dir)            *)
| ReadDesign                              (* self._extract_labels()          *)
| OpenOutcome (f : string)                (* open(<subject>/f)               *)
| Print                                   (* print(...)                      *)
| Isdir (d : subdir)                      (* op.isdir(<feat>/d)              *)
| Glob (d : subdir) (k : stat_kind)       (* glob of copes or varcopes in d *)
| NpZeros (shape : list nat)              (* np.zeros(shape)                 *)
| PickleDump (run : nat)                  (* cPickle.dump(self, handle)      *)
| H5Create (run : nat) (data : ndarray).  (* h5f.create_dataset('data', ..)  *)

(** What the collaborators answer.  [sort_numbered_list] (skbold.utils)
    and [convert2mni] (skbold.core) are not among the sources at hand and
    are taken as they come; [env_convert2epi p] is what
    [convert2epi(p, reg_dir, out_dir)[0]] evaluates to, [env_n_feat] and
    [env_n_converted] are the lengths of the two globs of the output
    directory, [env_design] is what label discovery finds (the labels and
    the positions excluded), [env_outcome f] the first line of the
    outcome file [f] read as a float. *)
Record Env := mkEnv {
  env_nib_load : path -> option volume;
  env_convert2epi : path -> path;
  env_convert2mni : list path -> list path;
  sort_numbered_list : list path -> list path;
  env_exists_mat_dir : bool;
  env_n_feat : nat;
  env_n_converted : nat;
  env_design : option (list string * list nat);
  env_outcome : string -> result f64;
  env_isdir : subdir -> bool;
  env_glob : subdir -> stat_kind -> list path
}.

(** Python lists *)
Module Py.

(** [l.pop(idx)], [idx >= 0]: [IndexError] out of range. *)
Fixpoint pop {A} (l : list A) (idx : nat) : result (list A) :=
  match l, idx with
  | [], _ => Raise IndexError
  | _ :: t, 0 => Ok t
  | h :: t, S i =>
      match pop t i with
      | Ok t' => Ok (h :: t')
      | Raise e => Raise e
      end
  end.

(** [_ = [l.pop(idx) for idx in idxs]] *)
Fixpoint pop_each {A} (l : list A) (idxs : list nat) : result (list A) :=
  match idxs with
  | [] => Ok l
  | idx :: rest =>
      match pop l idx with
      | Ok l' => pop_each l' rest
      | Raise e => Raise e
      end
  end.

Fixpoint insert_desc (x : nat) (l : list nat) : list nat :=
  match l with
  | [] => [x]
  | h :: t => if h <=? x then x :: l else h :: insert_desc x t
  end.

(** [sorted(l, reverse=True)] *)
Definition sorted_reverse (l : list nat) : list nat :=
  fold_right insert_desc [] l.

End Py.

(** [91, 109, 91]: the geometry of the MNI152 2mm template. *)
Definition mni_shape : list N := [91; 109; 91]%N.

Definition shape_eqb (a b : list N) : bool :=
  if list_eq_dec N.eq_dec a b then true else false.

(* ================================================================== *)
(** * What the subclasses share *)
(* ================================================================== *)

Module Fsl2mvp.

(** The attributes of the intermediate class [Fsl2mvp] that the two
    subclasses read. *)
Record t := mk {
  mvp : Mvp.t;
  contrast_labels : option (list string);
  remove_idx : option (list nat)
}.

Definition set_mvp (v : Mvp.t) (s : t) : t :=
  mk v (contrast_labels s) (remove_idx s).
Definition set_contrast_labels (v : option (list string)) (s : t) : t :=
  mk (mvp s) v (remove_idx s).
Definition set_remove_idx (v : option (list nat)) (s : t) : t :=
  mk (mvp s) (contrast_labels s) v.

Definition Method := M Env t call.

Definition on_mvp {A} (m : M Env Mvp.t call A) : Method A :=
  zoom mvp set_mvp m.

(** [nib.load(p)] *)
Definition nib_load {S} (p : path) : M Env S call volume :=
  emit (NibLoad p) ;;
  env <- ask ;;
  some_or IOError (env_nib_load env p).

(** Modelled from the spec: [Fsl2mvp._extract_labels] belongs to the
    class [Fsl2mvp], whose file is not among the sources.  Label
    discovery is an outside service that gives the ordered label
    strings, one per retained condition; with them it leaves the
    positions of the excluded conditions in [remove_idx]. *)
Definition _extract_labels : Method unit :=
  emit ReadDesign ;;
  env <- ask ;;
  '(labels, idx) <- some_or IOError (env_design env) ;;
  modify (set_contrast_labels (Some labels)) ;;
  modify (set_remove_idx (Some idx)).

(** "Load mask, create index" (within.py:79-90, between.py:85-95)

<<
      if self.mask_path is not None:
          mask_vol = nib.load(self.mask_path)
          if self.ref_space == 'epi' and mask_vol.shape == (91, 109, 91):
              self.mask_path = convert2epi(self.mask_path, reg_dir, out_dir)[0]
              mask_vol = nib.load(self.mask_path)
          self.mask_shape = mask_vol.shape
          self.mask_index = mask_vol.get_data().ravel() > self.mask_threshold
          self.n_features = self.mask_index.sum()
>>
*)
Definition load_mask : M Env Mvp.t call unit :=
  s <- get ;;
  match Mvp.mask_path s with
  | None => ret tt
  | Some p =>
      mask_vol <- nib_load p ;;
      mask_vol <-
        (if String.eqb (Mvp.ref_space s) "epi"
            && shape_eqb (vshape mask_vol) mni_shape
         then
           emit (Convert2epi p) ;;
           env <- ask ;;
           modify (Mvp.set_mask_path (Some (env_convert2epi env p))) ;;
           nib_load (env_convert2epi env p)
         else ret mask_vol) ;;
      modify (Mvp.set_mask_shape (Some (vshape mask_vol))) ;;
      modify (fun s =>
        Mvp.set_mask_index
          (Some (map (fun v => Np.greater (vdtype mask_vol) v
                                          (Mvp.mask_threshold s))
                     (vdata mask_vol))) s) ;;
      sel <- Mvp.attr Mvp.mask_index AttributeError ;;
      modify (Mvp.set_n_features (Some (Np.count_true sel)))
  end.

(** The reset of the output directory (within.py:92-101,
    between.py:97-107); gives [n_converted].

<<
      n_feat = len(glob(<feat directories of the subject>))
      n_converted = len(glob(<header pickles in mat_dir>))
      if op.exists(mat_dir) and n_feat <= n_converted:
          shutil.rmtree(mat_dir)
          os.makedirs(mat_dir)
          n_converted = 0
      elif not op.exists(mat_dir):
          os.makedirs(mat_dir)
>>
*)
Definition reset_mat_dir {S} : M Env S call nat :=
  env <- ask ;;
  emit GlobFeat ;;
  emit GlobHeader ;;
  emit ExistsMatDir ;;
  if env_exists_mat_dir env && (env_n_feat env <=? env_n_converted env) then
    emit Rmtree ;;
    emit Makedirs ;;
    ret 0
  else
    emit ExistsMatDir ;;
    (if negb (env_exists_mat_dir env) then emit Makedirs else ret tt) ;;
    ret (env_n_converted env).

(** "Specify appropriate stats-directory" (within.py:112-124,
    between.py:122-135); gives [stat_dir] and [transform2mni].

<<
      if self.ref_space == 'epi':
          stat_dir = op.join(sub_path, 'stats')
      elif self.ref_space == 'mni':
          stat_dir = op.join(sub_path, 'reg_standard')
      else:
          raise ValueError('Specify valid reference-space (ref_space)')
      if self.ref_space == 'mni' and not os.path.isdir(stat_dir):
          stat_dir = op.join(sub_path, 'stats')
          transform2mni = True
      else:
          transform2mni = False
>>
*)
Definition stats_directory : M Env Mvp.t call (subdir * bool) :=
  s <- get ;;
  stat_dir <-
    (if String.eqb (Mvp.ref_space s) "epi" then ret Stats
     else if String.eqb (Mvp.ref_space s) "mni" then ret RegStandard
     else raise (ValueError InvalidRefSpace)) ;;
  if String.eqb (Mvp.ref_space s) "mni" then
    emit (Isdir stat_dir) ;;
    env <- ask ;;
    if negb (env_isdir env stat_dir) then ret (Stats, true)
    else ret (stat_dir, false)
  else ret (stat_dir, false).

(** The sorted lists of copes and varcopes (within.py:126-128,
    between.py:137-139). *)
Definition list_stats {S} (stat_dir : subdir)
  : M Env S call (list path * list path) :=
  env <- ask ;;
  emit (Glob stat_dir Cope) ;;
  emit (Glob stat_dir Varcope) ;;
  ret (sort_numbered_list env (env_glob env stat_dir Cope),
       sort_numbered_list env (env_glob env stat_dir Varcope)).

(** The transformation to MNI space of copes and varcopes together
    (within.py:133-138, between.py:148-152).

<<
          copes.extend(varcopes)
          transformed_files = convert2mni(copes, reg_dir, out_dir)
          half = int(len(transformed_files) / 2)
          copes = transformed_files[:half]
          varcopes = transformed_files[half:]
>>
*)
Definition to_mni {S} (copes varcopes : list path)
  : M Env S call (list path * list path) :=
  env <- ask ;;
  emit (Convert2mni (copes ++ varcopes)) ;;
  let transformed_files := env_convert2mni env (copes ++ varcopes) in
  let half := length transformed_files / 2 in
  ret (firstn half transformed_files, skipn half transformed_files).

(** The exclusion by position (within.py:140-143, between.py:142-145).

<<
      _ = [copes.pop(idx) for idx in sorted(self.remove_idx, reverse=True)]
      varcopes = sort_numbered_list(varcopes)
      _ = [varcopes.pop(ix) for ix in sorted(self.remove_idx, reverse=True)]
>>
*)
Definition remove_excluded (copes varcopes : list path)
  : Method (list path * list path) :=
  s <- get ;;
  idx <- some_or TypeError (remove_idx s) ;;
  copes <- lift (Py.pop_each copes (Py.sorted_reverse idx)) ;;
  env <- ask ;;
  varcopes <- lift (Py.pop_each (sort_numbered_list env varcopes)
                                (Py.sorted_reverse idx)) ;;
  ret (copes, varcopes).

(** "We need to 'peek' at the first cope to know the dimensions"
    (within.py:151-156, between.py:154-159).

<<
      if self.mask_path is None:
          tmp = nib.load(copes[0]).get_data()
          self.n_features = tmp.size
          self.mask_index = np.ones(tmp.shape, dtype=bool).ravel()
          self.mask_shape = tmp.shape
>>
    A numpy array has as many entries as its shape says: [tmp.size] and
    the size of [np.ones(tmp.shape)] are both the number of entries of
    the data. *)
Definition peek (copes : list path) : M Env Mvp.t call unit :=
  s <- get ;;
  match Mvp.mask_path s with
  | Some _ => ret tt
  | None =>
      first <- some_or IndexError (nth_error copes 0) ;;
      tmp <- nib_load first ;;
      modify (Mvp.set_n_features (Some (length (vdata tmp)))) ;;
      modify (Mvp.set_mask_index (Some (repeat true (length (vdata tmp))))) ;;
      modify (Mvp.set_mask_shape (Some (vshape tmp)))
  end.

(** The header and affine of the last cope loaded (within.py:166-167,
    between.py:186-187); [cope_img] is unbound when the loop before
    ran no iteration. *)
Definition keep_geometry (cope_img : option volume)
  : M Env Mvp.t call unit :=
  img <- some_or UnboundLocalError cope_img ;;
  modify (Mvp.set_nifti_header (Some (vheader img))) ;;
  modify (Mvp.set_affine (Some (vaffine img))).

(** The two files written and the assignment of [X] (within.py:177-190,
    between.py:190-205).  The writes are taken to go through: [open],
    [cPickle.dump] and [h5py] failing on the file system is not
    modelled, so a run of the model that raises has raised before the
    first write, which need not be so of the code. *)
Definition store (n_converted : nat) (mvp_data : ndarray)
  : M Env Mvp.t call unit :=
  emit (PickleDump (n_converted + 1)) ;;
  emit (H5Create (n_converted + 1) mvp_data) ;;
  modify (Mvp.set_X (Some mvp_data)) ;;
  emit Print.

End Fsl2mvp.

(* ================================================================== *)
(** * skbold/data2mvp/fsl2mvp/fsl2mvp_within.py *)
(* ================================================================== *)

Module Within.

Record t := mk {
  base : Fsl2mvp.t;
  n_class : option nat;
  class_names : option (list string);
  n_trials : option nat;
  n_inst : option (list nat);
  class_idx : option (list (list bool));
  trial_idx : option (list (list nat))
}.

(** [Fsl2mvpWithin.__init__] (within.py:34-52) *)
Definition init (mask_threshold : f64) (beta2tstat : bool)
           (ref_space : string) (mask_path : option path) : t :=
  mk (Fsl2mvp.mk (Mvp.init mask_threshold beta2tstat ref_space mask_path)
                 None None)
     None None None None None None.

Definition set_base (v : Fsl2mvp.t) (s : t) : t :=
  mk v (n_class s) (class_names s) (n_trials s) (n_inst s) (class_idx s)
     (trial_idx s).

Definition mvp (s : t) : Mvp.t := Fsl2mvp.mvp (base s).
Definition set_mvp (v : Mvp.t) (s : t) : t :=
  set_base (Fsl2mvp.set_mvp v (base s)) s.

Definition Method := M Env t call.

Definition super {A} (m : Fsl2mvp.Method A) : Method A :=
  zoom base set_base m.
Definition on_mvp {A} (m : M Env Mvp.t call A) : Method A :=
  zoom mvp set_mvp m.

Definition contrast_labels : Method (list string) :=
  s <- get ;; some_or TypeError (Fsl2mvp.contrast_labels (base s)).

(** [Fsl2mvpWithin._update_metadata] (within.py:54-63), the labels being
    an array of strings.

<<
      cl = self.contrast_labels
      self.y = LabelEncoder().fit_transform(cl)
      self.n_trials = len(cl)
      self.class_names = np.unique(cl)
      self.n_class = len(self.class_names)
      self.n_inst = [np.sum(cls == cl) for cls in cl]
      self.class_idx = [cl == cls for cls in self.class_names]
      self.trial_idx = [np.where(cl == cls)[0] for cls in self.class_names]
>>
*)
Definition _update_metadata : Method unit :=
  cl <- contrast_labels ;;
  on_mvp (modify (Mvp.set_y (Some (YCodes (label_encode cl))))) ;;
  modify (fun s =>
    mk (base s)
       (Some (length (Np.unique cl)))
       (Some (Np.unique cl))
       (Some (length cl))
       (Some (map (fun cls => Np.count_true (Np.eq_elementwise cl cls)) cl))
       (Some (map (fun cls => Np.eq_elementwise cl cls) (Np.unique cl)))
       (Some (map (fun cls => Np.where_ (Np.eq_elementwise cl cls))
                  (Np.unique cl)))).

(** "Load in data (COPEs)" (within.py:162-164)

<<
      for i, path in enumerate(copes):
          cope_img = nib.load(path)
          mvp_data[i, :] = cope_img.get_data().ravel()[self.mask_index]
>>
*)
Fixpoint load_copes (i : nat) (copes : list path) (ncols : nat)
         (mvp_data : list (list f64)) (cope_img : option volume)
  : Method (list (list f64) * option volume) :=
  match copes with
  | [] => ret (mvp_data, cope_img)
  | path :: rest =>
      img <- Fsl2mvp.nib_load path ;;
      sel <- on_mvp (Mvp.attr Mvp.mask_index TypeError) ;;
      row <- lift (Np.bool_index (vdata img) sel) ;;
      mvp_data <- lift (Np.set_row ncols mvp_data i row) ;;
      load_copes (S i) rest ncols mvp_data (Some img)
  end.

(** The division by the standard deviation (within.py:170-173)

<<
          for i_trial, varcope in enumerate(varcopes):
              var = nib.load(varcope).get_data()
              var_sq = np.sqrt(var.ravel()[self.mask_index])
              mvp_data[i_trial, :] = np.divide(mvp_data[i_trial, :], var_sq)
>>
*)
Fixpoint divide_rows (i_trial : nat) (varcopes : list path) (ncols : nat)
         (mvp_data : list (list f64)) : Method (list (list f64)) :=
  match varcopes with
  | [] => ret mvp_data
  | varcope :: rest =>
      var <- Fsl2mvp.nib_load varcope ;;
      sel <- on_mvp (Mvp.attr Mvp.mask_index TypeError) ;;
      var_sel <- lift (Np.bool_index (vdata var) sel) ;;
      let var_sq := map (Np.sqrt (vdtype var)) var_sel in
      row <- lift (Np.get_row mvp_data i_trial) ;;
      quot <- lift (Np.divide Float64 row var_sq) ;;
      mvp_data <- lift (Np.set_row ncols mvp_data i_trial quot) ;;
      divide_rows (S i_trial) rest ncols mvp_data
  end.

(** [Fsl2mvpWithin.glm2mvp] (within.py:65-192), in three parts. *)

(** within.py:79-110: the mask, the output directory, the labels. *)
Definition preamble (extract_labels : bool) : Method nat :=
  (* Load mask, create index *)
  on_mvp Fsl2mvp.load_mask ;;
  n_converted <- Fsl2mvp.reset_mat_dir ;;
  (* Extract class vector (class_labels) *)
  (if extract_labels then
     super Fsl2mvp._extract_labels ;;
     cl <- contrast_labels ;;
     on_mvp (modify (Mvp.set_y (Some (YCodes (label_encode cl))))) ;;
     _update_metadata
   else ret tt) ;;
  emit Print ;;
  ret n_converted.

(** within.py:112-143: the copes and varcopes that are kept. *)
Definition stat_files : Method (list path * list path) :=
  (* Specify appropriate stats-directory *)
  '(stat_dir, transform2mni) <- on_mvp Fsl2mvp.stats_directory ;;
  '(copes, varcopes) <- Fsl2mvp.list_stats stat_dir ;;
  (* Transform (var)copes if ref_space is 'mni' but files are in 'epi'. *)
  '(copes, varcopes) <-
    (if transform2mni then Fsl2mvp.to_mni copes varcopes
     else ret (copes, varcopes)) ;;
  super (Fsl2mvp.remove_excluded copes varcopes).

(** within.py:151-192: the matrix and the files.

<<
        ... peek ...
        mvp_data = np.zeros((n_stat, self.n_features))
        ... load the copes ...
        self.nifti_header = cope_img.header
        self.affine = cope_img.affine
        if self.beta2tstat:
            ... divide by the standard deviations ...
        mvp_data[np.isnan(mvp_data)] = 0
        ... write the files ...
        self.X = mvp_data
>>
*)
Definition fill (n_converted : nat) (copes varcopes : list path)
  : Method unit :=
  let n_stat := length copes in
  (* We need to 'peek' at the first cope to know the dimensions *)
  on_mvp (Fsl2mvp.peek copes) ;;
  (* Pre-allocate *)
  n_features <- on_mvp (Mvp.attr Mvp.n_features TypeError) ;;
  emit (NpZeros [n_stat; n_features]) ;;
  let mvp_data := repeat (Np.zeros n_features) n_stat in
  (* Load in data (COPEs) *)
  '(mvp_data, cope_img) <- load_copes 0 copes n_features mvp_data None ;;
  on_mvp (Fsl2mvp.keep_geometry cope_img) ;;
  s <- get ;;
  mvp_data <-
    (if Mvp.beta2tstat (mvp s)
     then divide_rows 0 varcopes n_features mvp_data
     else ret mvp_data) ;;
  let mvp_data := map Np.nan_to_zero mvp_data in
  on_mvp (Fsl2mvp.store n_converted (Mat n_stat n_features mvp_data)).

(** within.py:145-192: the count check, then the matrix and the files.

<<
        n_stat = len(copes)
        if not n_stat == len(self.contrast_labels):
            msg = 'The number of trials (%i) do not match the number of '
                  'class labels (%i)' % (n_stat, len(self.contrast_labels))
            raise ValueError(msg)
>>
*)
Definition assemble (n_converted : nat) (copes varcopes : list path)
  : Method unit :=
  let n_stat := length copes in
  cl <- contrast_labels ;;
  if negb (n_stat =? length cl) then
    raise (ValueError TrialsVsLabels)
  else
    fill n_converted copes varcopes.

Definition glm2mvp (extract_labels : bool) : Method unit :=
  n_converted <- preamble extract_labels ;;
  '(copes, varcopes) <- stat_files ;;
  assemble n_converted copes varcopes.

End Within.

(* ================================================================== *)
(** * skbold/data2mvp/fsl2mvp/fsl2mvp_between.py *)
(* ================================================================== *)

Module Between.

(** [contrast_id] is a uint8 array to which [np.ones(n, uint8) * i] is
    appended: numpy widens the product when [i] does not fit 8 bits, so
    the values are those of [i].  [voxel_idx] is read at between.py:181
    before this class ever writes it: the attribute comes from the
    class [Fsl2mvp]. *)
Record t := mk {
  base : Fsl2mvp.t;
  output_var_file : option string;
  contrast_id : list N;
  voxel_idx : list N;
  n_contrast : option nat;
  contrast_names : option (list string)
}.

Definition set_base (v : Fsl2mvp.t) (s : t) : t :=
  mk v (output_var_file s) (contrast_id s) (voxel_idx s) (n_contrast s)
     (contrast_names s).
Definition set_contrast_id (v : list N) (s : t) : t :=
  mk (base s) (output_var_file s) v (voxel_idx s) (n_contrast s)
     (contrast_names s).
Definition set_voxel_idx (v : list N) (s : t) : t :=
  mk (base s) (output_var_file s) (contrast_id s) v (n_contrast s)
     (contrast_names s).

Definition mvp (s : t) : Mvp.t := Fsl2mvp.mvp (base s).
Definition set_mvp (v : Mvp.t) (s : t) : t :=
  set_base (Fsl2mvp.set_mvp v (base s)) s.

(** [Fsl2mvpBetween.__init__] (between.py:34-50); [voxel_idx] starts
    empty like [contrast_id], which is what [np.concatenate] at
    between.py:181 needs. *)
Definition init (output_var_file : option string) (mask_threshold : f64)
           (beta2tstat : bool) (ref_space : string)
           (mask_path : option path) : t :=
  mk (Fsl2mvp.mk (Mvp.init mask_threshold beta2tstat ref_space mask_path)
                 None None)
     output_var_file [] [] None None.

Definition Method := M Env t call.

Definition super {A} (m : Fsl2mvp.Method A) : Method A :=
  zoom base set_base m.
Definition on_mvp {A} (m : M Env Mvp.t call A) : Method A :=
  zoom mvp set_mvp m.

Definition contrast_labels : Method (list string) :=
  s <- get ;; some_or TypeError (Fsl2mvp.contrast_labels (base s)).

(** [Fsl2mvpBetween._update_metadata] (between.py:52-55) *)
Definition _update_metadata : Method unit :=
  contrasts <- contrast_labels ;;
  modify (fun s =>
    mk (base s) (output_var_file s) (contrast_id s) (voxel_idx s)
       (Some (length contrasts)) (Some (Np.unique contrasts))).

(** [Fsl2mvpBetween._add_outcome_var] (between.py:63-68): the first
    line of the file, read as a float. *)
Definition _add_outcome_var (filename : string) : Method unit :=
  emit (OpenOutcome filename) ;;
  env <- ask ;;
  y <- lift (env_outcome env filename) ;;
  on_mvp (modify (Mvp.set_y (Some (YScalar y)))).

(** The linear voxel indices under the mask (between.py:172)

<<
          vox_idx = np.arange(np.prod(cope_shape, dtype=np.uint32),
                              dtype=np.uint32).reshape(cope_shape)
                                              .ravel()[self.mask_index]
>>
    The product is taken in uint32; [reshape] fails when it wrapped. *)
Definition voxel_indices (cope_shape : list N) (sel : list bool)
  : result (list N) :=
  let n := Np.prod_u32 cope_shape in
  if (n =? Np.prod cope_shape)%N then Np.bool_index (Np.arange n) sel
  else Raise (ValueError CannotReshape).

(** "Load in data (COPEs)" (between.py:167-181)

<<
      for i, (cope, varcope) in enumerate(zip(copes, varcopes)):
          cope_img = nib.load(cope)
          cope_shape = cope_img.header.get_data_shape()
          copedat = cope_img.get_data().ravel()[self.mask_index]
          vox_idx = ...
          if self.beta2tstat:
              var = nib.load(varcope).get_data()
              var_sq = np.sqrt(var.ravel()[self.mask_index])
              copedat = np.divide(copedat, var_sq)
          mvp_data[(i * self.n_features):(i*self.n_features + self.n_features)] = copedat
          self.contrast_id = np.concatenate((self.contrast_id,
                             np.ones(self.n_features, dtype=np.uint8) * i), axis=0)
          self.voxel_idx = np.concatenate((self.voxel_idx, vox_idx))
>>
*)
Fixpoint load_copes (i : nat) (pairs : list (path * path))
         (mvp_data : list f64) (cope_img : option volume)
  : Method (list f64 * option volume) :=
  match pairs with
  | [] => ret (mvp_data, cope_img)
  | (cope, varcope) :: rest =>
      img <- Fsl2mvp.nib_load cope ;;
      let cope_shape := vshape img in
      sel <- on_mvp (Mvp.attr Mvp.mask_index TypeError) ;;
      copedat <- lift (Np.bool_index (vdata img) sel) ;;
      vox_idx <- lift (voxel_indices cope_shape sel) ;;
      s <- get ;;
      copedat <-
        (if Mvp.beta2tstat (mvp s) then
           var <- Fsl2mvp.nib_load varcope ;;
           var_sel <- lift (Np.bool_index (vdata var) sel) ;;
           let var_sq := map (Np.sqrt (vdtype var)) var_sel in
           lift (Np.divide (Np.result_type (vdtype img) (vdtype var))
                           copedat var_sq)
         else ret copedat) ;;
      n_features <- on_mvp (Mvp.attr Mvp.n_features TypeError) ;;
      mvp_data <- lift (Np.set_slice mvp_data (i * n_features)
                                     (i * n_features + n_features)
                                     copedat) ;;
      modify (fun s =>
        set_contrast_id
          (contrast_id s ++ repeat (N.of_nat i) n_features) s) ;;
      modify (fun s => set_voxel_idx (voxel_idx s ++ vox_idx) s) ;;
      load_copes (S i) rest mvp_data (Some img)
  end.

(** [Fsl2mvpBetween.glm2mvp] (between.py:70-207), in three parts. *)

(** between.py:85-120: the mask, the output directory, the labels, the
    outcome. *)
Definition preamble (extract_labels : bool) : Method nat :=
  (* Load mask, create index *)
  on_mvp Fsl2mvp.load_mask ;;
  n_converted <- Fsl2mvp.reset_mat_dir ;;
  (* Extract class vector (class_labels) *)
  (if extract_labels then super Fsl2mvp._extract_labels else ret tt) ;;
  s <- get ;;
  match output_var_file s with
  | Some f => _add_outcome_var f
  | None => ret tt
  end ;;
  (* Update metadata, excluding X_dict *)
  _update_metadata ;;
  emit Print ;;
  ret n_converted.

(** between.py:122-159: the copes and varcopes that are kept, and the
    mask of the whole volume when none was given. *)
Definition stat_files : Method (list path * list path) :=
  (* Specify appropriate stats-directory *)
  '(stat_dir, transform2mni) <- on_mvp Fsl2mvp.stats_directory ;;
  '(copes, varcopes) <- Fsl2mvp.list_stats stat_dir ;;
  '(copes, varcopes) <- super (Fsl2mvp.remove_excluded copes varcopes) ;;
  '(copes, varcopes) <-
    (if transform2mni then Fsl2mvp.to_mni copes varcopes
     else ret (copes, varcopes)) ;;
  (* We need to 'peek' at the first cope to know the dimensions *)
  on_mvp (Fsl2mvp.peek copes) ;;
  ret (copes, varcopes).

(** between.py:161-207: the flat vector, its two index vectors, the
    files.

<<
      columns = self.n_features * len(self.contrast_labels)
      mvp_data = np.zeros(columns)
      ... load the copes ...
      mvp_data[np.isnan(mvp_data)] = 0
      self.nifti_header = cope_img.header  # pick header from last cope
      self.affine = cope_img.affine
      ... write the files ...
      self.X = mvp_data
>>
*)
Definition assemble (n_converted : nat) (copes varcopes : list path)
  : Method unit :=
  n_features <- on_mvp (Mvp.attr Mvp.n_features TypeError) ;;
  cl <- contrast_labels ;;
  let columns := n_features * length cl in
  (* Pre-allocate *)
  emit (NpZeros [columns]) ;;
  let mvp_data := Np.zeros columns in
  (* Load in data (COPEs) *)
  '(mvp_data, cope_img) <-
    load_copes 0 (combine copes varcopes) mvp_data None ;;
  let mvp_data := Np.nan_to_zero mvp_data in
  on_mvp (Fsl2mvp.keep_geometry cope_img) ;;
  on_mvp (Fsl2mvp.store n_converted (Vec mvp_data)).

Definition glm2mvp (extract_labels : bool) : Method unit :=
  n_converted <- preamble extract_labels ;;
  '(copes, varcopes) <- stat_files ;;
  assemble n_converted copes varcopes.

End Between.

(* ================================================================== *)
(** * Vocabulary of the statements *)
(* ================================================================== *)

Module Spec.

(** The mask of an entity is built: selection, geometry and feature
    count are there, the selection has one entry per voxel and the
    feature count is its number of true entries. *)
Definition mask_built (e : Mvp.t) : Prop :=
  match Mvp.mask_index e, Mvp.mask_shape e, Mvp.n_features e with
  | Some sel, Some shape, Some nf =>
      N.of_nat (length sel) = Np.prod shape /\ nf = Np.count_true sel
  | _, _, _ => False
  end.

(** A selection narrowed by an index over its true entries: the k-th
    selected voxel stays selected when the k-th entry of the index is
    true. *)
Fixpoint narrow (sel new_idx : list bool) : list bool :=
  match sel with
  | [] => []
  | false :: sel' => false :: narrow sel' new_idx
  | true :: sel' =>
      match new_idx with
      | b :: rest => b :: narrow sel' rest
      | [] => false :: narrow sel' []
      end
  end.

(** Every voxel selected by [a] is selected by [b]. *)
Definition subset (a b : list bool) : Prop :=
  forall i, nth_error a i = Some true -> nth_error b i = Some true.

(** The linear positions of the true entries of a selection. *)
Definition true_positions (sel : list bool) : list N :=
  map N.of_nat (Np.where_ sel).

(** A list of numbers that goes up strictly. *)
Fixpoint increasing (l : list N) : Prop :=
  match l with
  | [] => True
  | x :: rest =>
      match rest with
      | [] => True
      | y :: _ => (x < y)%N /\ increasing rest
      end
  end.

(** The part [l[lo:lo+n]] of a list. *)
Definition slice {A} (l : list A) (lo n : nat) : list A :=
  firstn n (skipn lo l).

(** Effect over standard deviation, NaN replaced by 0: what is stored
    for one voxel, the root being taken in the dtype [dv] of the
    variance and the division done in the dtype [dq]. *)
Definition tstat (dq dv : dtype) (effect variance : f64) : f64 :=
  let q := Np.quotient dq effect (Np.sqrt dv variance) in
  if f64_isnan q then f64_zero else q.

(** No call of the log touches a statistic volume of the feat directory:
    none is listed, transformed or allocated for, and no file is
    written. *)
Definition before_stats (c : call) : bool :=
  match c with
  | Glob _ _ | Convert2mni _ | NpZeros _ | PickleDump _ | H5Create _ _ => false
  | _ => true
  end.

(** The calls that are I/O on the mask or on the output directory. *)
Definition touches_disk (c : call) : bool :=
  match c with
  | NibLoad _ | Rmtree | Makedirs => true
  | _ => false
  end.

(** A statistic volume has the geometry of the selection [sel], and few
    enough voxels for their indices to be uint32. *)
Definition fits (sel : list bool) (v : volume) : Prop :=
  length (vdata v) = length sel /\
  Np.prod (vshape v) = N.of_nat (length sel) /\
  (N.of_nat (length sel) < 2 ^ 32)%N.

(** The cope of a pair loads as the first volume and fits; when
    beta-to-t conversion is on, the varcope loads as the second one and
    has as many voxels. *)
Definition pair_loads (env : Env) (b : bool) (sel : list bool)
           (files : path * path) (vols : volume * volume) : Prop :=
  env_nib_load env (fst files) = Some (fst vols) /\
  fits sel (fst vols) /\
  (b = true ->
   env_nib_load env (snd files) = Some (snd vols) /\
   length (vdata (snd vols)) = length (vdata (fst vols))).

(** The dtype of the division of a cope by the root of a varcope in
    the between-run design (between.py:177): that of the two volumes when
    they agree, float64 otherwise. *)
Definition between_dtype (vols : volume * volume) : dtype :=
  Np.result_type (vdtype (fst vols)) (vdtype (snd vols)).

(** The features one condition contributes in the design whose
    division is done in the dtype [dq]: the masked effects, over the
    root of the masked variances when the conversion is on. *)
Definition features (dq : dtype) (b : bool) (sel : list bool)
           (vols : volume * volume) : list f64 :=
  if b then
    map (fun p => Np.quotient dq (fst p) (snd p))
        (combine (Np.select (vdata (fst vols)) sel)
                 (map (Np.sqrt (vdtype (snd vols)))
                      (Np.select (vdata (snd vols)) sel)))
  else Np.select (vdata (fst vols)) sel.

(** Between-run design: the division is done in the dtype of the
    volumes. *)
Definition block (b : bool) (sel : list bool) (vols : volume * volume)
  : list f64 :=
  features (between_dtype vols) b sel vols.

(** Within-run design: the row of the matrix is float64, and so is the
    division (within.py:173). *)
Definition row (b : bool) (sel : list bool) (vols : volume * volume)
  : list f64 :=
  features Float64 b sel vols.

(** [n] copies of [i], one block per condition [i = first, ...]. *)
Definition contrast_blocks (first count n : nat) : list N :=
  concat (map (fun i => repeat (N.of_nat i) n) (seq first count)).

(** The cope image bound after the loop over [vols], [img] being bound
    before. *)
Definition last_cope (img : option volume) (vols : list (volume * volume))
  : option volume :=
  fold_left (fun _ v => Some (fst v)) vols img.

(** The entity after a between-run assembly that went through. *)
Definition between_assembled (s : Between.t) (sel : list bool) (n : nat)
           (x : list f64) (last : volume) : Between.t :=
  Between.mk
    (Fsl2mvp.set_mvp
       (Mvp.set_X (Some (Vec x))
          (Mvp.set_affine (Some (vaffine last))
             (Mvp.set_nifti_header (Some (vheader last)) (Between.mvp s))))
       (Between.base s))
    (Between.output_var_file s)
    (Between.contrast_id s ++ contrast_blocks 0 n (Np.count_true sel))
    (Between.voxel_idx s ++ concat (repeat (true_positions sel) n))
    (Between.n_contrast s) (Between.contrast_names s).

(** A call made before the data matrix exists: it neither allocates it
    nor writes a file. *)
Definition no_matrix_yet (c : call) : bool :=
  match c with
  | NpZeros _ | PickleDump _ | H5Create _ _ => false
  | _ => true
  end.

(** Whatever the world answers, the method logs only calls that pass
    [P], moves the object along [I], and raises only exceptions in
    [R]. *)
Definition respects {S A} (P : call -> bool) (I : S -> S -> Prop)
           (R : exn -> Prop) (m : M Env S call A) : Prop :=
  forall env s t,
  exists r s' new,
    m env s t = (r, s', t ++ new) /\
    forallb P new = true /\
    I s s' /\
    (forall x, r = Raise x -> R x).

(** A relation on a part of the object, as one on the object. *)
Definition on {S T} (proj : S -> T) (Q : T -> T -> Prop) (s s' : S) : Prop :=
  Q (proj s) (proj s').

(** [X] and the reference space are what they were. *)
Definition kept (m m' : Mvp.t) : Prop :=
  Mvp.X m' = Mvp.X m /\ Mvp.ref_space m' = Mvp.ref_space m.

(** An exception that is not the count error of within.py:147. *)
Definition not_count_error (x : exn) : Prop := x <> ValueError TrialsVsLabels.

(** No constraint on the object. *)
Definition any {S} (s s' : S) : Prop := True.

(** The t-statistics of the voxels selected by [sel], from the volumes of
    one condition, the division being done in the dtype [dq]. *)
Definition tstat_block (dq : dtype) (sel : list bool)
           (vols : volume * volume) : list f64 :=
  map (fun p => tstat dq (vdtype (snd vols)) (fst p) (snd p))
      (combine (Np.select (vdata (fst vols)) sel)
               (Np.select (vdata (snd vols)) sel)).

(** Within-run design: the copes load as the first volumes of [vols] with
    the geometry of the selection; when the conversion is on, the
    varcopes load as the second ones. *)
Definition loads_as (env : Env) (sel : list bool) (p : path) (v : volume)
  : Prop :=
  env_nib_load env p = Some v /\ length (vdata v) = length sel.

Definition trials_load (env : Env) (b : bool) (sel : list bool)
           (copes varcopes : list path) (vols : list (volume * volume))
  : Prop :=
  Forall2 (loads_as env sel) copes (map fst vols) /\
  (b = true -> Forall2 (loads_as env sel) varcopes (map snd vols)).

(** The cope image bound after the loop over the copes. *)
Definition last_volume (img : option volume) (vols : list volume)
  : option volume :=
  fold_left (fun _ v => Some v) vols img.

(** The volume of no file, where a list needs a default. *)
Definition no_volume : volume :=
  mkVolume [] Float64 [] EmptyString EmptyString.

(** [narrowed V env e e']: [e'] is [e] after any number of calls of
    [update_mask], whatever their arguments and whatever their
    outcomes. *)
Inductive narrowed {E : Type} (V : Type) (env : E) (e : Mvp.t)
  : Mvp.t -> Prop :=
| narrowed_refl : narrowed V env e e
| narrowed_step (e1 e2 : Mvp.t) (new_idx : list bool) (r : result unit)
                (log log' : list V) :
    narrowed V env e e1 ->
    Mvp.update_mask new_idx env e1 log = (r, e2, log') ->
    narrowed V env e e2.

End Spec.


(* ================================================================== *)
(** * Concrete inputs *)
(* ================================================================== *)

Module Ex.

(** An entity whose mask selects both voxels of a two-voxel volume. *)
Definition two_voxels : Mvp.t :=
  Mvp.mk "epi" true (Some "mask.nii.gz"%string) f64_zero
         (Some 2) (Some [true; true]) (Some [2%N])
         None None None None.

(** The files of a feat directory, by name. *)
Definition lookup (files : list (path * volume)) (p : path) : option volume :=
  match find (fun f => String.eqb (fst f) p) files with
  | Some f => Some (snd f)
  | None => None
  end.

(** A feat directory with its volume files, the labels of its design
    (none excluded) and the copes and varcopes of its stats directory;
    the output directory is not there yet, no transformation renames a
    file, there is no outcome file. *)
Definition feat (files : list (path * volume)) (labels : list string)
           (copes varcopes : list path) : Env :=
  mkEnv (lookup files) (fun p => p) (fun ps => ps) (fun ps => ps)
        false 1 0 (Some (labels, [])) (fun _ => Raise IOError)
        (fun _ => true)
        (fun _ k => match k with Cope => copes | Varcope => varcopes end).

Definition vol (shape : list N) (values : list float) : volume :=
  mkVolume shape Float32 (map lit values) "header" "affine".

(** Between-run design: two conditions, a mask that selects 5 of the 8
    voxels of a 2 x 2 x 2 volume. *)
Definition mask8 : volume := vol [2; 2; 2]%N [1; 0; 1; 1; 0; 1; 1; 0]%float.
Definition cope8a : volume := vol [2; 2; 2]%N [1; 2; 3; 4; 5; 6; 7; 8]%float.
Definition cope8b : volume := vol [2; 2; 2]%N [2; 4; 6; 8; 10; 12; 14; 16]%float.
Definition var8a : volume := vol [2; 2; 2]%N [4; 4; 4; 4; 4; 4; 4; 4]%float.
Definition var8b : volume := vol [2; 2; 2]%N [1; 1; 1; 1; 1; 1; 1; 1]%float.

Definition between_files : list (path * volume) :=
  [("mask.nii.gz", mask8); ("cope1.nii.gz", cope8a);
   ("cope2.nii.gz", cope8b); ("varcope1.nii.gz", var8a);
   ("varcope2.nii.gz", var8b)]%string.

Definition between_env : Env :=
  feat between_files ["task"; "rest"]%string
       ["cope1.nii.gz"; "cope2.nii.gz"]%string
       ["varcope1.nii.gz"; "varcope2.nii.gz"]%string.

Definition between_entity : Between.t :=
  Between.init None f64_zero true "epi" (Some "mask.nii.gz"%string).

Definition between_sel : list bool :=
  [true; false; true; true; false; true; true; false].

(** The entity and the log after between.py:85-120 and after
    between.py:122-159. *)
Definition between_entity_1 : Between.t :=
  Eval vm_compute in
    snd (fst (Between.preamble true between_env between_entity [])).
Definition between_log_1 : list call :=
  Eval vm_compute in
    snd (Between.preamble true between_env between_entity []).
Definition between_entity_2 : Between.t :=
  Eval vm_compute in
    snd (fst (Between.stat_files between_env between_entity_1 between_log_1)).
Definition between_log_2 : list call :=
  Eval vm_compute in
    snd (Between.stat_files between_env between_entity_1 between_log_1).

(** The same design with the second cope and varcope missing from the
    stats directory: one pair of volumes for two labels. *)
Definition fewer_env : Env :=
  feat between_files ["task"; "rest"]%string
       ["cope1.nii.gz"]%string ["varcope1.nii.gz"]%string.

Definition fewer_entity_1 : Between.t :=
  Eval vm_compute in
    snd (fst (Between.preamble true fewer_env between_entity [])).
Definition fewer_log_1 : list call :=
  Eval vm_compute in
    snd (Between.preamble true fewer_env between_entity []).
Definition fewer_entity_2 : Between.t :=
  Eval vm_compute in
    snd (fst (Between.stat_files fewer_env fewer_entity_1 fewer_log_1)).
Definition fewer_log_2 : list call :=
  Eval vm_compute in
    snd (Between.stat_files fewer_env fewer_entity_1 fewer_log_1).

(** The same design with an empty stats directory. *)
Definition no_copes_env : Env :=
  feat between_files ["task"; "rest"]%string [] [].

(** A probabilistic mask of four voxels, two of them exactly at the
    threshold 0.5. *)
Definition half_mask : volume := vol [2; 2; 1]%N [0; 0.5; 1; 0.5]%float.

Definition half_env : Env :=
  feat [("mask.nii.gz"%string, half_mask)] [] [] [].

Definition half_entity : Mvp.t :=
  Mvp.init (lit 0.5) true "mni" (Some "mask.nii.gz"%string).

(** Within-run design: three trials of 10 voxels, a mask that selects
    them all, the labels A, B, A. *)
Definition ten (x : float) : volume := vol [2; 5; 1]%N (repeat x 10).

Definition within_files : list (path * volume) :=
  [("mask.nii.gz", ten 1); ("cope1.nii.gz", ten 1);
   ("cope2.nii.gz", ten 2); ("cope3.nii.gz", ten 3);
   ("varcope1.nii.gz", ten 4); ("varcope2.nii.gz", ten 4);
   ("varcope3.nii.gz", ten 4)]%string.

Definition abc_labels : list string := ["A"; "B"; "A"]%string.

Definition within_env : Env :=
  feat within_files abc_labels
       ["cope1.nii.gz"; "cope2.nii.gz"; "cope3.nii.gz"]%string
       ["varcope1.nii.gz"; "varcope2.nii.gz"; "varcope3.nii.gz"]%string.

Definition within_entity : Within.t :=
  Within.init f64_zero true "epi" (Some "mask.nii.gz"%string).

(** The same directory with the third cope and varcope missing: two
    volumes for three labels. *)
Definition short_env : Env :=
  feat within_files abc_labels
       ["cope1.nii.gz"; "cope2.nii.gz"]%string
       ["varcope1.nii.gz"; "varcope2.nii.gz"]%string.

Definition short_entity_1 : Within.t :=
  Eval vm_compute in
    snd (fst (Within.preamble true short_env within_entity [])).
Definition short_log_1 : list call :=
  Eval vm_compute in
    snd (Within.preamble true short_env within_entity []).
Definition short_entity_2 : Within.t :=
  Eval vm_compute in
    snd (fst (Within.stat_files short_env short_entity_1 short_log_1)).
Definition short_log_2 : list call :=
  Eval vm_compute in
    snd (Within.stat_files short_env short_entity_1 short_log_1).

(** The same two designs asked for in a reference space that is neither
    'epi' nor 'mni'. *)
Definition within_fsaverage : Within.t :=
  Within.init f64_zero true "fsaverage" (Some "mask.nii.gz"%string).
Definition between_fsaverage : Between.t :=
  Between.init None f64_zero true "fsaverage" (Some "mask.nii.gz"%string).

(** The world [env] with an output directory that holds as many
    converted runs as there are feat directories. *)
Definition converted (env : Env) : Env :=
  mkEnv (env_nib_load env) (env_convert2epi env) (env_convert2mni env)
        (sort_numbered_list env) true 1 1 (env_design env)
        (env_outcome env) (env_isdir env) (env_glob env).

(** The world [env] without its mask file. *)
Definition unmasked (env : Env) : Env :=
  mkEnv (fun p => if String.eqb p "mask.nii.gz" then None
                  else env_nib_load env p)
        (env_convert2epi env) (env_convert2mni env)
        (sort_numbered_list env) (env_exists_mat_dir env) (env_n_feat env)
        (env_n_converted env) (env_design env)
        (env_outcome env) (env_isdir env) (env_glob env).

(** One condition, one voxel, no mask: an effect and its variance. *)
Definition one_voxel (effect variance : float) : Env :=
  feat [("cope1.nii.gz", vol [1; 1; 1]%N [effect]);
        ("varcope1.nii.gz", vol [1; 1; 1]%N [variance])]%string
       ["task"]%string ["cope1.nii.gz"]%string ["varcope1.nii.gz"]%string.

Definition within_whole : Within.t := Within.init f64_zero true "epi" None.
Definition between_whole : Between.t :=
  Between.init None f64_zero true "epi" None.

(** What [glm2mvp] returns and the [X] it leaves, in each design. *)
Definition within_X (env : Env) (e : Within.t) : result unit * option ndarray :=
  match Within.glm2mvp true env e [] with
  | (r, e', _) => (r, Mvp.X (Within.mvp e'))
  end.
Definition between_X (env : Env) (e : Between.t) : result unit * option ndarray :=
  match Between.glm2mvp true env e [] with
  | (r, e', _) => (r, Mvp.X (Between.mvp e'))
  end.

(** An entity that selects voxels 0, 2 and 3 of a 2 x 2 volume. *)
Definition three_of_four : Mvp.t :=
  Mvp.mk "mni" true (Some "mask.nii.gz"%string) f64_zero
         (Some 3) (Some [true; false; true; true]) (Some [2%N; 2%N])
         None None None None.

End Ex.

(* ================================================================== *)
(** * posixpath and the string methods the sources use on paths *)
(* ================================================================== *)

Module Posixpath.

Definition sep : ascii := "/"%char.

(** [c in s] *)
Fixpoint contains (c : ascii) (s : string) : bool :=
  match s with
  | EmptyString => false
  | String a r => Ascii.eqb a c || contains c r
  end.

(** [s[s.rfind(c) + 1:]], which is also [s.split(c)[-1]] *)
Fixpoint after_last (c : ascii) (s : string) : string :=
  match s with
  | EmptyString => EmptyString
  | String a r =>
      if contains c r then after_last c r
      else if Ascii.eqb a c then r else s
  end.

(** [s[:s.rfind(c) + 1]] *)
Fixpoint upto_last (c : ascii) (s : string) : string :=
  match s with
  | EmptyString => EmptyString
  | String a r =>
      if contains c r then String a (upto_last c r)
      else if Ascii.eqb a c then String a EmptyString else EmptyString
  end.

(** [s.split(c)[0]] *)
Fixpoint before_first (c : ascii) (s : string) : string :=
  match s with
  | EmptyString => EmptyString
  | String a r => if Ascii.eqb a c then EmptyString
                  else String a (before_first c r)
  end.

(** [s.rstrip(c)] *)
Fixpoint rstrip (c : ascii) (s : string) : string :=
  match s with
  | EmptyString => EmptyString
  | String a r =>
      match rstrip c r with
      | EmptyString => if Ascii.eqb a c then EmptyString
                       else String a EmptyString
      | r' => String a r'
      end
  end.

(** [s == c * len(s)] *)
Fixpoint all_are (c : ascii) (s : string) : bool :=
  match s with
  | EmptyString => true
  | String a r => Ascii.eqb a c && all_are c r
  end.

(** [s.endswith(c)] *)
Fixpoint endswith (c : ascii) (s : string) : bool :=
  match s with
  | EmptyString => false
  | String a EmptyString => Ascii.eqb a c
  | String _ r => endswith c r
  end.

(** [s.startswith(c)] *)
Definition startswith (c : ascii) (s : string) : bool :=
  match s with
  | EmptyString => false
  | String a _ => Ascii.eqb a c
  end.

(** [not s] *)
Definition is_empty (s : string) : bool :=
  match s with EmptyString => true | _ => false end.

(** [posixpath.basename]

<<
      i = p.rfind('/') + 1
      return p[i:]
>>
*)
Definition basename (p : string) : string := after_last sep p.

(** [posixpath.dirname]

<<
      i = p.rfind('/') + 1
      head = p[:i]
      if head and head != '/'*len(head):
          head = head.rstrip('/')
      return head
>>
*)
Definition dirname (p : string) : string :=
  let head := upto_last sep p in
  if negb (is_empty head) && negb (all_are sep head) then rstrip sep head
  else head.

(** [posixpath.join(a, b)]

<<
      path = a
      if b.startswith('/'):
          path = b
      elif path == '' or path.endswith('/'):
          path += b
      else:
          path += '/' + b
      return path
>>
*)
Definition join (a b : string) : string :=
  if startswith sep b then b
  else if is_empty a || endswith sep a then String.append a b
  else String.append a (String sep b).

End Posixpath.

(* ================================================================== *)
(** * skbold/utils/convert2epi.py *)
(* ================================================================== *)

Module Convert2epi.

(** [apply_xfm.inputs] of the nipype interface [fsl.ApplyXfm]. *)
Record inputs := mkInputs {
  in_file : string;
  reference : string;
  in_matrix_file : string;
  out_matrix_file : string;
  out_file : string;
  apply_xfm : bool
}.

(** The interface object: its inputs, and the attribute [interp] that
    convert2epi.py:67 sets on the object itself. *)
Record interface := mkInterface {
  inputs_of : inputs;
  interp : string
}.

(** The calls made to the outside world. *)
Inductive call :=
| Run (i : interface)      (* apply_xfm.run()            *)
| Remove (p : string).     (* os.remove(out_matrix_file) *)

(** Whether FLIRT runs through, and whether a file can be removed. *)
Record world := mkWorld {
  run_ok : interface -> bool;
  remove_ok : string -> bool
}.

Inductive outcome :=
| Returned (out_file : string)
| RunRaised
| RemoveRaised.

(** [convert2epi] (convert2epi.py:13-74) *)
Definition convert2epi (w : world) (f reg_dir : string)
           (out_dir out_name : option string) (interpolation : string)
  : outcome * list call :=
  let out_file :=
    match out_dir with
    | None =>
        let out_dir := Posixpath.dirname f in
        match out_name with
        | None =>
            let out_name :=
              String.append
                (Posixpath.before_first "."%char (Posixpath.basename f))
                "_epi.nii.gz" in
            Posixpath.join out_dir out_name
        | Some out_name =>
            Posixpath.join out_dir (String.append out_name ".nii.gz")
        end
    | Some out_dir =>
        let out_name :=
          match out_name with
          | None =>
              String.append
                (Posixpath.before_first "."%char (Posixpath.basename f))
                "_epi.nii.gz"
          | Some out_name => String.append out_name ".nii.gz"
          end in
        Posixpath.join out_dir out_name
    end in
  let out_matrix_file :=
    Posixpath.join (Posixpath.dirname out_file) "tmp_flirt" in
  let ref_file := Posixpath.join reg_dir "example_func.nii.gz" in
  let matrix_file := Posixpath.join reg_dir "standard2example_func.mat" in
  let apply_xfm :=
    mkInterface
      (mkInputs f ref_file matrix_file out_matrix_file out_file true)
      interpolation in
  if run_ok w apply_xfm then
    if remove_ok w out_matrix_file
    then (Returned out_file, [Run apply_xfm; Remove out_matrix_file])
    else (RemoveRaised, [Run apply_xfm; Remove out_matrix_file])
  else (RunRaised, [Run apply_xfm]).

End Convert2epi.

(* ================================================================== *)
(** * Mvp.__init__ (mvp.py:29-86) *)
(* ================================================================== *)

Module MvpInit.

(** The attributes of [Mvp.__init__] that only name files. *)
Record names := mkNames {
  directory : string;
  sub_name : string;
  run_name : string;
  mask_name : string
}.

(** [Mvp.__init__]; [exists_] is [op.exists]; [None] is the [OSError]
    of mvp.py:62.  The attributes that the methods read are those of
    [Mvp.init]. *)
Definition init (exists_ : string -> bool) (directory : string)
           (mask_threshold : f64) (beta2tstat : bool) (ref_space : string)
           (mask_path : option path) : option (names * Mvp.t) :=
  if negb (exists_ directory) then None
  else
    let sub_name := Posixpath.basename (Posixpath.dirname directory) in
    let run_name :=
      Posixpath.after_last "_"%char
        (Posixpath.before_first "."%char (Posixpath.basename directory)) in
    let mask_name :=
      match mask_path with
      | Some p => Posixpath.basename (Posixpath.dirname p)
      | None => "WholeBrain"%string
      end in
    Some (mkNames directory sub_name run_name mask_name,
          Mvp.init mask_threshold beta2tstat ref_space mask_path).

End MvpInit.

(* ================================================================== *)
(** * Vocabulary of the further statements *)
(* ================================================================== *)

Module Cover.

(** The entries of [l] whose position, counted from [k], is not in
    [idxs]. *)
Fixpoint keep_from {A} (k : nat) (idxs : list nat) (l : list A) : list A :=
  match l with
  | [] => []
  | x :: rest =>
      if existsb (Nat.eqb k) idxs then keep_from (S k) idxs rest
      else x :: keep_from (S k) idxs rest
  end.

(** [l] without the positions [idxs]. *)
Definition without {A} (idxs : list nat) (l : list A) : list A :=
  keep_from 0 idxs l.

(** Strictly descending. *)
Fixpoint desc (l : list nat) : Prop :=
  match l with
  | [] => True
  | h :: t => Forall (fun x => x < h) t /\ desc t
  end.

(** Strictly ascending in the order of [String.compare] (code point by
    code point, a prefix first), the order of [np.unique]. *)
Fixpoint ascending (l : list string) : Prop :=
  match l with
  | [] => True
  | h :: t => Forall (fun x => String.compare h x = Lt) t /\ ascending t
  end.

(** A call that is neither the dump of the header pickle nor the
    creation of the hdf5 data set.  Other calls may write files
    ([Convert2epi], [Convert2mni]) or delete them ([Rmtree]). *)
Definition no_output_file (c : call) : bool :=
  match c with
  | PickleDump _ | H5Create _ _ => false
  | _ => true
  end.

Definition is_rmtree (c : call) : bool :=
  match c with Rmtree => true | _ => false end.

Definition is_makedirs (c : call) : bool :=
  match c with Makedirs => true | _ => false end.

(** A call that writes no output file and does not delete the output
    directory. *)
Definition quiet (c : call) : bool :=
  no_output_file c && negb (is_rmtree c).

(** The output directory is there and holds at least as many converted
    runs as the subject has feat directories. *)
Definition stale (env : Env) : bool :=
  env_exists_mat_dir env && (env_n_feat env <=? env_n_converted env).

(** [n_converted] after the reset of the output directory. *)
Definition n_converted_after (env : Env) : nat :=
  if stale env then 0 else env_n_converted env.

(** The calls of the reset of the output directory. *)
Definition reset_calls (env : Env) : list call :=
  [GlobFeat; GlobHeader; ExistsMatDir]
  ++ (if stale env then [Rmtree; Makedirs]
      else ExistsMatDir :: (if env_exists_mat_dir env then [] else [Makedirs])).

(** A run of [m] that raises has logged only calls that pass [P] and
    has moved the object along [I]. *)
Definition fails_clean {S A} (P : call -> bool) (I : S -> S -> Prop)
           (m : M Env S call A) : Prop :=
  forall env s t x s' t',
    m env s t = (Raise x, s', t') ->
    exists new, t' = t ++ new /\ forallb P new = true /\ I s s'.

(** A run of [m] that returns ends with the two files of run [n + 1]
    written, the data written being the [X] it leaves; the calls before
    pass [P]. *)
Definition commits {S A} (P : call -> bool) (proj : S -> Mvp.t) (n : nat)
           (m : M Env S call A) : Prop :=
  forall env s t a s' t',
    m env s t = (Ok a, s', t') ->
    exists pre x,
      t' = t ++ pre ++ [PickleDump (n + 1); H5Create (n + 1) x; Print] /\
      forallb P pre = true /\
      Mvp.X (proj s') = Some x.

(** A run of [m] that returns, returns [a]. *)
Definition returns_only {S A} (a : A) (m : M Env S call A) : Prop :=
  forall env s t r s' t', m env s t = (Ok r, s', t') -> r = a.

(** The number of the run whose files an extraction writes. *)
Definition run_written (env : Env) : nat := n_converted_after env + 1.

Definition is_convert2mni (c : call) : bool :=
  match c with Convert2mni _ => true | _ => false end.

(** The directory whose copes a call lists, if it lists copes. *)
Definition lists_copes_of (c : call) : option subdir :=
  match c with Glob d Cope => Some d | _ => None end.

(** The statistics are asked for in MNI space and the feat directory
    holds none in that space. *)
Definition needs_transform (env : Env) (m : Mvp.t) : bool :=
  String.eqb (Mvp.ref_space m) "mni" && negb (env_isdir env RegStandard).

(** The entity once the mask volume [v] was thresholded: within.py:88-90,
    between.py:93-95. *)
Definition thresholded (v : volume) (e : Mvp.t) : Mvp.t :=
  let sel := map (fun x => Np.greater (vdtype v) x (Mvp.mask_threshold e))
                 (vdata v) in
  Mvp.set_n_features (Some (Np.count_true sel))
    (Mvp.set_mask_index (Some sel)
       (Mvp.set_mask_shape (Some (vshape v)) e)).

(** [s.endswith(suffix)] *)
Definition has_suffix (suffix s : string) : Prop :=
  exists front, s = String.append front suffix.

(** A path under which the operations of [posixpath] do not strip
    anything more: all slashes, or not ending with a slash. *)
Definition settled (d : string) : Prop :=
  Posixpath.all_are Posixpath.sep d = true \/
  Posixpath.endswith Posixpath.sep d = false.

End Cover.

Module Ex2.

Definition excluding (idx : list nat) : Fsl2mvp.t :=
  Fsl2mvp.mk Ex.three_of_four None (Some idx).

Definition four_paths : list path := ["a"; "b"; "c"; "d"]%string.

(** The between-run entity of [Ex] after one extraction. *)
Definition between_done : Between.t :=
  Eval vm_compute in
    snd (fst (Between.glm2mvp true Ex.between_env Ex.between_entity [])).

(** The statistic files and volumes of the within-run design of [Ex]. *)
Definition within_copes : list path :=
  ["cope1.nii.gz"; "cope2.nii.gz"; "cope3.nii.gz"]%string.
Definition within_varcopes : list path :=
  ["varcope1.nii.gz"; "varcope2.nii.gz"; "varcope3.nii.gz"]%string.
Definition within_vols : list (volume * volume) :=
  [(Ex.ten 1, Ex.ten 4); (Ex.ten 2, Ex.ten 4); (Ex.ten 3, Ex.ten 4)].

(** The within-run directory of [Ex] with no condition at all. *)
Definition empty_env : Env := Ex.feat Ex.within_files [] [] [].

(** A world in which FLIRT runs and files can be removed. *)
Definition fine : Convert2epi.world :=
  Convert2epi.mkWorld (fun _ => true) (fun _ => true).

Definition two_copes : list path := ["c1"; "c2"]%string.
Definition two_varcopes : list path := ["v1"; "v2"]%string.

(** A feat directory whose mask is in MNI space, and the world in which
    its transformation to native space gives a volume of two voxels. *)
Definition mni_mask : volume :=
  mkVolume mni_shape Float32 (map lit [1; 0]%float) "header" "affine".
Definition epi_mask : volume := Ex.vol [2; 1; 1]%N [1; 0]%float.
Definition mni_mask_env : Env :=
  mkEnv (Ex.lookup [("mask.nii.gz", mni_mask);
                    ("mask_epi.nii.gz", epi_mask)]%string)
        (fun _ => "mask_epi.nii.gz"%string) (fun ps => ps) (fun ps => ps)
        false 1 0 (Some ([], [])) (fun _ => Raise IOError)
        (fun _ => true) (fun _ _ => []).
Definition epi_entity : Mvp.t :=
  Mvp.init f64_zero true "epi" (Some "mask.nii.gz"%string).

(** The between-run design of [Ex] with an outcome file. *)
Definition outcome_env : Env :=
  mkEnv (env_nib_load Ex.between_env) (env_convert2epi Ex.between_env)
        (env_convert2mni Ex.between_env) (sort_numbered_list Ex.between_env)
        (env_exists_mat_dir Ex.between_env) (env_n_feat Ex.between_env)
        (env_n_converted Ex.between_env) (env_design Ex.between_env)
        (fun _ => Ok (lit 3)) (env_isdir Ex.between_env)
        (env_glob Ex.between_env).
Definition outcome_entity : Between.t :=
  Between.init (Some "zraven.txt"%string) f64_zero true "epi"
               (Some "mask.nii.gz"%string).

(** The between-run directory of [Ex] without a reg_standard directory,
    and two entities that ask for MNI space, the second excluding the
    first condition. *)
Definition native_env : Env :=
  mkEnv (env_nib_load Ex.between_env) (env_convert2epi Ex.between_env)
        (env_convert2mni Ex.between_env) (sort_numbered_list Ex.between_env)
        (env_exists_mat_dir Ex.between_env) (env_n_feat Ex.between_env)
        (env_n_converted Ex.between_env) (env_design Ex.between_env)
        (env_outcome Ex.between_env) (fun _ => false)
        (env_glob Ex.between_env).
Definition mni_within : Within.t := Within.init f64_zero true "mni" None.
Definition mni_between : Between.t :=
  Between.mk (Fsl2mvp.mk (Mvp.init f64_zero true "mni" None) None (Some [0]))
             None [] [] None None.

(** A float32 mask of four voxels, two of them at the float32 nearest
    to 0.1, which is above the float64 nearest to 0.1, and an entity
    whose threshold is 0.1. *)
Definition tenth_mask : volume :=
  mkVolume [2; 2; 1]%N Float32
           (map lit [0x1.99999ap-4; 0.5; 0; 0x1.99999ap-4]%float)
           "header" "affine".
Definition tenth_env : Env :=
  Ex.feat [("mask.nii.gz"%string, tenth_mask)] [] [] [].
Definition tenth_entity : Mvp.t :=
  Mvp.init (lit 0x1.999999999999ap-4) true "mni" (Some "mask.nii.gz"%string).

(** A within-run entity that has read the labels [cl]. *)
Definition labelled (cl : list string) : Within.t :=
  Within.set_base (Fsl2mvp.mk Ex.three_of_four (Some cl) (Some []))
                  Ex.within_whole.

(** The world [env] with an output directory that holds the header of
    one converted run, the subject having two feat directories. *)
Definition second_run (env : Env) : Env :=
  mkEnv (env_nib_load env) (env_convert2epi env) (env_convert2mni env)
        (sort_numbered_list env) true 2 1 (env_design env)
        (env_outcome env) (env_isdir env) (env_glob env).

(** [Ex.three_of_four] after [update_mask([True, False, True])]: voxels
    0 and 3 are left selected, and [n_features] still says 3. *)
Definition narrowed_entity : Mvp.t :=
  Mvp.set_mask_index (Some [true; false; false; true]) Ex.three_of_four.

End Ex2.
(* ================================================================== *)
(** * Facts about the numpy operations *)
(* ================================================================== *)

Unset Implicit Arguments.

Lemma count_true_le_length (m : list bool) : Np.count_true m <= length m.
Proof. induction m as [|[] m IH]; simpl; lia. Qed.

Lemma count_true_repeat_true (n : nat) : Np.count_true (repeat true n) = n.
Proof. induction n; simpl; congruence. Qed.

Lemma count_true_app (a b : list bool) :
  Np.count_true (a ++ b) = Np.count_true a + Np.count_true b.
Proof. induction a as [|[] a IH]; simpl; lia. Qed.

Lemma select_length {A} (a : list A) (m : list bool) :
  length a = length m -> length (Np.select a m) = Np.count_true m.
Proof.
  revert m; induction a as [|x a IH]; intros [|[] m] H; simpl in *;
    try discriminate; auto.
Qed.

Lemma select_repeat_true {A} (a : list A) :
  Np.select a (repeat true (length a)) = a.
Proof. induction a; simpl; congruence. Qed.

Lemma astype_bool_add_zero (b : bool) :
  f64_astype_bool (f64_add f64_zero (f64_of_bool b)) = b.
Proof. destruct b; reflexivity. Qed.

(** The canvas of [update_mask] read back as booleans is the narrowed
    selection. *)
Lemma scatter_add_zeros_narrow (sel new_idx : list bool) :
  map f64_astype_bool
      (Np.scatter_add (Np.zeros (length sel)) sel (map f64_of_bool new_idx))
  = Spec.narrow sel new_idx.
Proof.
  revert new_idx; induction sel as [|[] sel IH]; intros new_idx; simpl.
  - reflexivity.
  - destruct new_idx as [|b rest]; simpl.
    + f_equal. apply (IH []).
    + rewrite <- IH. f_equal. apply astype_bool_add_zero.
  - f_equal. apply IH.
Qed.

Lemma narrow_length (sel new_idx : list bool) :
  length (Spec.narrow sel new_idx) = length sel.
Proof.
  revert new_idx; induction sel as [|[] sel IH]; intros [|b r]; simpl; auto.
Qed.

Lemma narrow_count (sel new_idx : list bool) :
  length new_idx = Np.count_true sel ->
  Np.count_true (Spec.narrow sel new_idx) = Np.count_true new_idx.
Proof.
  revert new_idx; induction sel as [|[] sel IH]; intros [|b r] H; simpl in *;
    try discriminate; auto.
  destruct b; simpl; rewrite IH; auto.
Qed.

Lemma narrow_subset (sel new_idx : list bool) :
  Spec.subset (Spec.narrow sel new_idx) sel.
Proof.
  revert new_idx; induction sel as [|[] sel IH]; intros new_idx [|i] H;
    simpl in *; try discriminate; auto.
  - destruct new_idx; simpl in H; eapply IH; eauto.
  - eapply IH; eauto.
Qed.

Lemma narrow_all_true (sel : list bool) :
  Spec.narrow sel (repeat true (Np.count_true sel)) = sel.
Proof. induction sel as [|[] sel IH]; simpl; congruence. Qed.

(* ================================================================== *)
(** * Mvp.update_mask *)
(* ================================================================== *)

Section UpdateMask.
Variables E V : Type.
Variable env : E.
Variable log : list V.

(** A narrowing index of the wrong size is refused before anything is
    written. *)
Lemma update_mask_refuses (e : Mvp.t) (sel new_idx : list bool) :
  Mvp.mask_index e = Some sel ->
  length new_idx <> Np.count_true sel ->
  Mvp.update_mask new_idx env e log
  = (Raise (ValueError ShapeOfNewIndex), e, log).
Proof.
  intros Hsel Hlen.
  unfold Mvp.update_mask, Mvp.attr, bind, get, some_or, ret, raise.
  rewrite Hsel. apply Nat.eqb_neq in Hlen. rewrite Hlen. reflexivity.
Qed.

(** A narrowing index of the right size replaces the selection by the
    narrowed one and nothing else. *)
Lemma update_mask_narrows (e : Mvp.t) (sel new_idx : list bool)
      (shape : list N) :
  Mvp.mask_index e = Some sel ->
  Mvp.mask_shape e = Some shape ->
  N.of_nat (length sel) = Np.prod shape ->
  length new_idx = Np.count_true sel ->
  Mvp.update_mask new_idx env e log
  = (Ok tt, Mvp.set_mask_index (Some (Spec.narrow sel new_idx)) e, log).
Proof.
  intros Hsel Hshape Hsize Hlen.
  unfold Mvp.update_mask, Mvp.attr, bind, get, some_or, ret, raise, modify.
  rewrite Hsel. apply Nat.eqb_eq in Hlen. rewrite Hlen. simpl.
  rewrite Hshape. rewrite <- Hsize, N.eqb_refl, Nat2N.id. simpl.
  rewrite scatter_add_zeros_narrow. reflexivity.
Qed.
End UpdateMask.

Lemma mask_built_inv (e : Mvp.t) :
  Spec.mask_built e ->
  exists sel shape,
    Mvp.mask_index e = Some sel /\ Mvp.mask_shape e = Some shape /\
    Mvp.n_features e = Some (Np.count_true sel) /\
    N.of_nat (length sel) = Np.prod shape.
Proof.
  unfold Spec.mask_built.
  destruct (Mvp.mask_index e) as [sel|]; [|tauto].
  destruct (Mvp.mask_shape e) as [shape|]; [|tauto].
  destruct (Mvp.n_features e) as [nf|]; [|tauto].
  intros [H1 H2]; subst. eauto 6.
Qed.

(** C1 (the code departs from the claim).  After the build the feature
    count is the number of true entries of the selection and the selection
    has one entry per voxel.  [update_mask] with an index of the right
    size keeps the second half but not the first: on the entity that
    selects both voxels of a two-voxel volume, narrowing by [True, False]
    succeeds and leaves one voxel selected, while [n_features] still
    says 2. *)
Theorem update_mask_leaves_n_features_stale :
  Spec.mask_built Ex.two_voxels /\
  exists e',
    Mvp.update_mask [true; false] tt Ex.two_voxels (@nil unit) = (Ok tt, e', []) /\
    Mvp.mask_index e' = Some [true; false] /\
    Mvp.mask_shape e' = Some [2%N] /\
    Np.count_true [true; false] = 1 /\
    Mvp.n_features e' = Some 2 /\
    ~ Spec.mask_built e'.
Proof.
  split.
  - unfold Spec.mask_built; simpl. split; reflexivity.
  - exists (Mvp.set_mask_index (Some [true; false]) Ex.two_voxels).
    split; [vm_compute; reflexivity|]. simpl.
    repeat split; try reflexivity.
    unfold Spec.mask_built; simpl. intros [_ H]. discriminate H.
Qed.

(** The half of the invariant that [update_mask] does keep: the new
    selection still has one entry per voxel; [n_features] is not
    written. *)
Lemma update_mask_keeps_size E V (env : E) (log : list V)
      (e : Mvp.t) (new_idx : list bool) :
  Spec.mask_built e ->
  Mvp.n_features e = Some (length new_idx) ->
  exists e' sel' shape,
    Mvp.update_mask new_idx env e log = (Ok tt, e', log) /\
    Mvp.mask_index e' = Some sel' /\ Mvp.mask_shape e' = Some shape /\
    N.of_nat (length sel') = Np.prod shape /\
    Mvp.n_features e' = Mvp.n_features e.
Proof.
  intros Hb Hn.
  destruct (mask_built_inv e Hb) as (sel & shape & Hsel & Hshape & Hnf & Hsize).
  assert (Hlen : length new_idx = Np.count_true sel) by congruence.
  exists (Mvp.set_mask_index (Some (Spec.narrow sel new_idx)) e),
         (Spec.narrow sel new_idx), shape.
  split; [apply update_mask_narrows with (shape := shape); auto|].
  simpl. rewrite narrow_length. auto.
Qed.

Lemma count_true_lt_length (idx : list bool) :
  In false idx -> Np.count_true idx < length idx.
Proof.
  induction idx as [|[] idx IH]; simpl; intros H.
  - contradiction.
  - destruct H as [H|H]; [discriminate|]. apply IH in H. lia.
  - pose proof (count_true_le_length idx). lia.
Qed.

(** In general: as soon as the index drops one voxel, [n_features] is
    more than the number of voxels selected after the call. *)
Lemma update_mask_stale_whenever_it_narrows E V (env : E) (log : list V)
      (e : Mvp.t) (nf : nat) (new_idx : list bool) :
  Spec.mask_built e ->
  Mvp.n_features e = Some nf ->
  length new_idx = nf ->
  In false new_idx ->
  exists e' sel',
    Mvp.update_mask new_idx env e log = (Ok tt, e', log) /\
    Mvp.mask_index e' = Some sel' /\
    Mvp.n_features e' = Some nf /\
    Np.count_true sel' < nf.
Proof.
  intros Hb Hn Hlen Hfalse.
  destruct (mask_built_inv e Hb) as (sel & shape & Hsel & Hshape & Hnf & Hsize).
  assert (Hc : length new_idx = Np.count_true sel) by congruence.
  exists (Mvp.set_mask_index (Some (Spec.narrow sel new_idx)) e),
         (Spec.narrow sel new_idx).
  split; [apply update_mask_narrows with (shape := shape); auto|].
  simpl. repeat split; auto.
  rewrite narrow_count by assumption. rewrite <- Hlen.
  now apply count_true_lt_length.
Qed.

(** What one call can do to an entity with a selection: narrow it, the
    index having one entry per selected voxel and the selection one per
    voxel of the stored shape, or raise and leave the entity as it
    was. *)
Lemma update_mask_cases E V (env : E) (log : list V)
      (e : Mvp.t) (sel new_idx : list bool) :
  Mvp.mask_index e = Some sel ->
  (Mvp.update_mask new_idx env e log
   = (Ok tt, Mvp.set_mask_index (Some (Spec.narrow sel new_idx)) e, log) /\
   length new_idx = Np.count_true sel /\
   exists shape, Mvp.mask_shape e = Some shape /\
                 N.of_nat (length sel) = Np.prod shape) \/
  (exists x, Mvp.update_mask new_idx env e log = (Raise x, e, log) /\
             (length new_idx = Np.count_true sel ->
              x <> ValueError ShapeOfNewIndex)).
Proof.
  intros Hsel.
  destruct (Nat.eq_dec (length new_idx) (Np.count_true sel)) as [Hlen|Hlen].
  - destruct (Mvp.mask_shape e) as [shape|] eqn:Hshape.
    + destruct (N.eq_dec (N.of_nat (length sel)) (Np.prod shape))
        as [Hsize|Hsize].
      * left. split; [|split; [assumption|eauto]].
        now apply update_mask_narrows with (shape := shape).
      * right. exists (ValueError CannotReshape). split; [|discriminate].
        unfold Mvp.update_mask, Mvp.attr, bind, get, some_or, ret, raise.
        rewrite Hsel. apply Nat.eqb_eq in Hlen. rewrite Hlen. simpl.
        rewrite Hshape. apply N.eqb_neq in Hsize. rewrite Hsize.
        reflexivity.
    + right. exists TypeError. split; [|discriminate].
      unfold Mvp.update_mask, Mvp.attr, bind, get, some_or, ret, raise.
      rewrite Hsel. apply Nat.eqb_eq in Hlen. rewrite Hlen. simpl.
      rewrite Hshape. reflexivity.
  - right. exists (ValueError ShapeOfNewIndex). split; [|congruence].
    now apply update_mask_refuses with (sel := sel).
Qed.

Lemma subset_refl (a : list bool) : Spec.subset a a.
Proof. intros i H. exact H. Qed.

Lemma subset_trans (a b c : list bool) :
  Spec.subset a b -> Spec.subset b c -> Spec.subset a c.
Proof. intros H1 H2 i H. apply H2, H1, H. Qed.

Lemma narrow_count_le (sel new_idx : list bool) :
  length new_idx = Np.count_true sel ->
  Np.count_true (Spec.narrow sel new_idx) <= Np.count_true sel.
Proof.
  intros H. rewrite narrow_count by assumption.
  rewrite <- H. apply count_true_le_length.
Qed.

Lemma narrow_repeat_true (sel : list bool) (n : nat) :
  n = Np.count_true sel -> Spec.narrow sel (repeat true n) = sel.
Proof. intros ->. apply narrow_all_true. Qed.

(** One call, from any entity with a selection: what is selected
    afterwards was selected before, and nothing but the selection is
    written. *)
Lemma update_mask_step E V (env : E) (log : list V)
      (e : Mvp.t) (sel new_idx : list bool) :
  Mvp.mask_index e = Some sel ->
  exists r sel',
    Mvp.update_mask new_idx env e log
    = (r, Mvp.set_mask_index (Some sel') e, log) /\
    Spec.subset sel' sel /\
    Np.count_true sel' <= Np.count_true sel /\
    length sel' = length sel /\
    (forall n, new_idx = repeat true n -> sel' = sel) /\
    (forall shape,
       Mvp.mask_shape e = Some shape ->
       N.of_nat (length sel) = Np.prod shape ->
       length new_idx = Np.count_true sel ->
       r = Ok tt /\ sel' = Spec.narrow sel new_idx).
Proof.
  intros Hsel.
  destruct (update_mask_cases E V env log e sel new_idx Hsel)
    as [(Hrun & Hlen & shape & Hshape & Hsize)|(x & Hrun & _)].
  - exists (Ok tt), (Spec.narrow sel new_idx).
    split; [exact Hrun|].
    split; [apply narrow_subset|].
    split; [now apply narrow_count_le|].
    split; [apply narrow_length|].
    split; [|auto].
    intros n ->. apply narrow_repeat_true.
    now rewrite repeat_length in Hlen.
  - exists (Raise x), sel.
    assert (He : Mvp.set_mask_index (Some sel) e = e).
    { clear - Hsel. destruct e. unfold Mvp.set_mask_index. simpl in *.
      congruence. }
    rewrite He. split; [exact Hrun|].
    split; [apply subset_refl|].
    split; [lia|]. split; [reflexivity|]. split; [reflexivity|].
    intros shape Hshape Hsize Hlen.
    rewrite (update_mask_narrows E V env log e sel new_idx shape
               Hsel Hshape Hsize Hlen) in Hrun.
    discriminate Hrun.
Qed.

(** Any number of calls: the feature count and the shape are the ones
    before the first call, and what is selected was selected then. *)
Lemma narrowed_invariant E V (env : E) (e0 e : Mvp.t) (sel0 : list bool) :
  Spec.narrowed V env e0 e ->
  Mvp.mask_index e0 = Some sel0 ->
  Mvp.n_features e = Mvp.n_features e0 /\
  Mvp.mask_shape e = Mvp.mask_shape e0 /\
  exists sel,
    Mvp.mask_index e = Some sel /\
    Spec.subset sel sel0 /\
    Np.count_true sel <= Np.count_true sel0 /\
    length sel = length sel0.
Proof.
  intros Hn Hsel0.
  induction Hn as [|e1 e2 new_idx r log log' Hn IH Hrun].
  - repeat split; auto. exists sel0.
    repeat split; auto using subset_refl.
  - destruct IH as (Hnf & Hshape & sel1 & Hsel1 & Hsub & Hcount & Hlen).
    destruct (update_mask_step E V env log e1 sel1 new_idx Hsel1)
      as (r' & sel2 & Hrun' & Hsub' & Hcount' & Hlen' & _).
    rewrite Hrun in Hrun'. injection Hrun' as _ -> _.
    simpl. repeat split; auto.
    exists sel2. split; [reflexivity|].
    split; [eapply subset_trans; eauto|]. split; [lia|congruence].
Qed.




(** C3.  [update_mask] only shrinks the selection, from whatever state
    it is called in.  Let [e] be an entity reached from [e0] by any
    number of calls of [update_mask], and call it once more with any
    index.  Then [n_features] is after the call what it was before the
    first one, every voxel selected after the call was selected before
    it, and every voxel selected before it was selected in [e0]; no
    more voxels are selected than before, nor, when the mask of [e0] was
    built, than [n_features] says.  An all-true index leaves the
    selection as it is.  The call returns, with the narrowed selection,
    when the index has one entry per voxel selected now and the mask of
    [e0] was built; that is when it has [n_features] entries if the
    mask of [e] itself is built. *)
Theorem update_mask_shrinks E V (env : E) (log : list V)
        (e0 e : Mvp.t) (sel0 : list bool) (nf : nat) (new_idx : list bool) :
  Mvp.mask_index e0 = Some sel0 ->
  Mvp.n_features e0 = Some nf ->
  Spec.narrowed V env e0 e ->
  exists sel r e' sel',
    Mvp.mask_index e = Some sel /\
    Mvp.n_features e = Some nf /\
    Spec.subset sel sel0 /\
    Np.count_true sel <= Np.count_true sel0 /\
    Mvp.update_mask new_idx env e log = (r, e', log) /\
    Spec.narrowed V env e0 e' /\
    Mvp.mask_index e' = Some sel' /\
    Mvp.n_features e' = Some nf /\
    Spec.subset sel' sel /\
    Np.count_true sel' <= Np.count_true sel /\
    (Spec.mask_built e0 -> Np.count_true sel' <= nf) /\
    (forall n, new_idx = repeat true n -> sel' = sel) /\
    (Spec.mask_built e0 ->
     length new_idx = Np.count_true sel ->
     r = Ok tt /\ sel' = Spec.narrow sel new_idx) /\
    (Spec.mask_built e ->
     length new_idx = nf ->
     r = Ok tt /\ sel' = Spec.narrow sel new_idx).
Proof.
  intros Hsel0 Hnf0 Hn.
  destruct (narrowed_invariant E V env e0 e sel0 Hn Hsel0)
    as (Hnf & Hshape & sel & Hsel & Hsub & Hcount & Hlen).
  destruct (update_mask_step E V env log e sel new_idx Hsel)
    as (r & sel' & Hrun & Hsub' & Hcount' & Hlen' & Hall & Hok).
  exists sel, r, (Mvp.set_mask_index (Some sel') e), sel'.
  split; [exact Hsel|]. split; [congruence|].
  split; [exact Hsub|]. split; [exact Hcount|].
  split; [exact Hrun|].
  split; [eapply Spec.narrowed_step; eassumption|].
  split; [reflexivity|]. split; [simpl; congruence|].
  split; [exact Hsub'|]. split; [exact Hcount'|].
  split; [|split; [exact Hall|split]].
  - intros Hb.
    destruct (mask_built_inv e0 Hb) as (s0 & shape & Hs0 & _ & Hnf' & _).
    assert (s0 = sel0) by congruence. subst s0.
    assert (nf = Np.count_true sel0) by congruence. lia.
  - intros Hb Hl.
    destruct (mask_built_inv e0 Hb) as (s0 & shape & Hs0 & Hsh & _ & Hsize).
    assert (s0 = sel0) by congruence. subst s0.
    apply (Hok shape); congruence.
  - intros Hb Hl.
    destruct (mask_built_inv e Hb) as (s & shape & Hs & Hsh & Hnf' & Hsize).
    assert (s = sel) by congruence. subst s.
    apply (Hok shape); congruence.
Qed.

Lemma update_mask_shrinks_witness :
  exists sel r e' sel',
    Mvp.mask_index Ex2.narrowed_entity = Some sel /\
    Mvp.n_features Ex2.narrowed_entity = Some 3 /\
    Spec.subset sel [true; false; true; true] /\
    Np.count_true sel <= Np.count_true [true; false; true; true] /\
    Mvp.update_mask [false; true] tt Ex2.narrowed_entity (@nil unit)
    = (r, e', []) /\
    Spec.narrowed unit tt Ex.three_of_four e' /\
    Mvp.mask_index e' = Some sel' /\
    Mvp.n_features e' = Some 3 /\
    Spec.subset sel' sel /\
    Np.count_true sel' <= Np.count_true sel /\
    (Spec.mask_built Ex.three_of_four -> Np.count_true sel' <= 3) /\
    (forall n, [false; true] = repeat true n -> sel' = sel) /\
    (Spec.mask_built Ex.three_of_four ->
     length [false; true] = Np.count_true sel ->
     r = Ok tt /\ sel' = Spec.narrow sel [false; true]) /\
    (Spec.mask_built Ex2.narrowed_entity ->
     length [false; true] = 3 ->
     r = Ok tt /\ sel' = Spec.narrow sel [false; true]).
Proof.
  apply (update_mask_shrinks unit unit tt [] Ex.three_of_four
           Ex2.narrowed_entity [true; false; true; true] 3 [false; true]).
  - reflexivity.
  - reflexivity.
  - apply (@Spec.narrowed_step unit unit tt Ex.three_of_four
             Ex.three_of_four Ex2.narrowed_entity
             [true; false; true] (Ok tt) [] []).
    + apply Spec.narrowed_refl.
    + vm_compute. reflexivity.
Defined.

(* ================================================================== *)
(** * The mask build *)
(* ================================================================== *)

(** No float is greater than itself. *)
Lemma f64_gt_irrefl (x : f64) : f64_gt x x = false.
Proof.
  unfold f64_gt, SFltb, SFcompare.
  destruct x as [s|s| |s m e]; try reflexivity.
  - destruct s; reflexivity.
  - rewrite Z.compare_refl, Pos.compare_cont_refl. destruct s; reflexivity.
Qed.

Lemma greater_irrefl (dt : dtype) (x : f64) : Np.greater dt x x = false.
Proof. destruct dt; [unfold Np.greater, f32_gt|]; apply f64_gt_irrefl. Qed.

(** C4, as stated, fails on a float32 mask: numpy compares in the dtype
    of the array, so the threshold 0.1 enters the comparison as the
    float32 nearest to it, which is the value of the first and the last
    voxel: both exceed 0.1 and neither is selected. *)
Lemma float32_mask_rounds_threshold :
  let t := Mvp.mask_threshold Ex2.tenth_entity in
  map (fun value => f64_gt value t) (vdata Ex2.tenth_mask)
  = [true; true; false; true] /\
  exists e' log',
    Fsl2mvp.load_mask Ex2.tenth_env Ex2.tenth_entity [] = (Ok tt, e', log') /\
    Mvp.mask_index e' = Some [false; true; false; false] /\
    Mvp.n_features e' = Some 1.
Proof.
  split; [vm_compute; reflexivity|].
  do 2 eexists. split; [vm_compute; reflexivity|].
  split; reflexivity.
Qed.

(** C4, amended.  When a mask volume is supplied, the build loads it (after its
    transformation to native space when the reference space is 'epi' and
    the mask has the geometry of the MNI template) and sets the selection
    to the elementwise test [value > threshold] over the raveled values,
    done in the dtype of the mask, the geometry to the volume's, and the
    feature count to the number of true entries.  For a float64 mask a
    voxel is selected exactly when its value exceeds the threshold; for
    a float32 mask, exactly when its value exceeds the threshold rounded
    to float32; in both cases a voxel whose value is the threshold is
    not selected. *)
Theorem load_mask_strict_threshold (env : Env) (log : list call)
        (e : Mvp.t) (p : path) (v0 v : volume) :
  Mvp.mask_path e = Some p ->
  env_nib_load env p = Some v0 ->
  (if String.eqb (Mvp.ref_space e) "epi" && shape_eqb (vshape v0) mni_shape
   then env_nib_load env (env_convert2epi env p) = Some v
   else v = v0) ->
  let t := Mvp.mask_threshold e in
  exists e' log' selection,
    Fsl2mvp.load_mask env e log = (Ok tt, e', log') /\
    Mvp.mask_shape e' = Some (vshape v) /\
    Mvp.mask_index e' = Some selection /\
    Mvp.n_features e' = Some (Np.count_true selection) /\
    length selection = length (vdata v) /\
    (forall i value, nth_error (vdata v) i = Some value ->
       nth_error selection i
       = Some (match vdtype v with
               | Float64 => f64_gt value t
               | Float32 => f64_gt (f32 value) (f32 t)
               end)) /\
    (forall i, nth_error (vdata v) i = Some t ->
               nth_error selection i = Some false).
Proof.
  intros Hp Hv0 Hv t.
  unfold Fsl2mvp.load_mask, Fsl2mvp.nib_load, Mvp.attr,
    bind, get, ask, emit, some_or, modify, ret.
  rewrite Hp, Hv0.
  destruct (String.eqb (Mvp.ref_space e) "epi" && shape_eqb (vshape v0) mni_shape).
  - simpl. rewrite Hv. simpl.
    do 3 eexists. split; [reflexivity|]. simpl.
    split; [reflexivity|]. split; [reflexivity|]. split; [reflexivity|].
    split; [apply length_map|]. split.
    + intros i value Hi. rewrite nth_error_map, Hi. simpl.
      now destruct (vdtype v).
    + intros i Hi. rewrite nth_error_map, Hi. simpl. f_equal.
      apply greater_irrefl.
  - subst v0. simpl.
    do 3 eexists. split; [reflexivity|]. simpl.
    split; [reflexivity|]. split; [reflexivity|]. split; [reflexivity|].
    split; [apply length_map|]. split.
    + intros i value Hi. rewrite nth_error_map, Hi. simpl.
      now destruct (vdtype v).
    + intros i Hi. rewrite nth_error_map, Hi. simpl. f_equal.
      apply greater_irrefl.
Qed.

Lemma load_mask_strict_threshold_witness :
  let t := Mvp.mask_threshold Ex.half_entity in
  exists e' log' selection,
    Fsl2mvp.load_mask Ex.half_env Ex.half_entity [] = (Ok tt, e', log') /\
    Mvp.mask_shape e' = Some (vshape Ex.half_mask) /\
    Mvp.mask_index e' = Some selection /\
    Mvp.n_features e' = Some (Np.count_true selection) /\
    length selection = length (vdata Ex.half_mask) /\
    (forall i value, nth_error (vdata Ex.half_mask) i = Some value ->
       nth_error selection i
       = Some (match vdtype Ex.half_mask with
               | Float64 => f64_gt value t
               | Float32 => f64_gt (f32 value) (f32 t)
               end)) /\
    (forall i, nth_error (vdata Ex.half_mask) i = Some t ->
               nth_error selection i = Some false).
Proof.
  apply (load_mask_strict_threshold Ex.half_env [] Ex.half_entity
           "mask.nii.gz"%string Ex.half_mask Ex.half_mask).
  - reflexivity.
  - reflexivity.
  - reflexivity.
Defined.

(** On the probabilistic mask of [Ex] the voxels at the threshold 0.5
    are left out and one voxel is selected. *)
Example half_mask_selection :
  map (fun value => Np.greater (vdtype Ex.half_mask) value (lit 0.5))
      (vdata Ex.half_mask)
  = [false; false; true; false].
Proof. vm_compute. reflexivity. Qed.

(* ================================================================== *)
(** * The between-run assembly *)
(* ================================================================== *)

Lemma prod_u32_mod (shape : list N) :
  Np.prod_u32 shape = (Np.prod shape mod 2 ^ 32)%N.
Proof.
  induction shape as [|d shape IH].
  - reflexivity.
  - change (Np.prod_u32 (d :: shape))
      with ((d * Np.prod_u32 shape) mod 2 ^ 32)%N.
    change (Np.prod (d :: shape)) with (d * Np.prod shape)%N.
    rewrite IH. apply N.Div0.mul_mod_idemp_r.
Qed.

Lemma select_seq (sel : list bool) (k : nat) :
  Np.select (map N.of_nat (seq k (length sel))) sel
  = map N.of_nat (Np.where_from k sel).
Proof.
  revert k; induction sel as [|[] sel IH]; intros k; simpl; auto.
  now rewrite IH.
Qed.

(** The voxel indices of a volume that fits the selection are the
    positions of its true entries. *)
Lemma voxel_indices_fits (sel : list bool) (v : volume) :
  Spec.fits sel v ->
  Between.voxel_indices (vshape v) sel = Ok (Spec.true_positions sel).
Proof.
  intros (Hlen & Hprod & Hsmall).
  unfold Between.voxel_indices.
  rewrite prod_u32_mod, Hprod, N.mod_small by assumption.
  rewrite N.eqb_refl. unfold Np.bool_index, Np.arange.
  rewrite length_map, length_seq, Nat2N.id, Nat.eqb_refl.
  now rewrite select_seq.
Qed.

Lemma where_from_ge (sel : list bool) (k i : nat) :
  In i (Np.where_from k sel) -> k <= i.
Proof.
  revert k; induction sel as [|[] sel IH]; intros k H; simpl in *.
  - contradiction.
  - destruct H as [->|H]; [lia|]. apply IH in H. lia.
  - apply IH in H. lia.
Qed.

Lemma increasing_where_from (sel : list bool) (k : nat) :
  Spec.increasing (map N.of_nat (Np.where_from k sel)).
Proof.
  revert k; induction sel as [|[] sel IH]; intros k; simpl; auto.
  specialize (IH (S k)).
  destruct (Np.where_from (S k) sel) as [|j rest] eqn:E; simpl in *; auto.
  split; auto.
  assert (S k <= j) by (apply (where_from_ge sel); rewrite E; now left).
  lia.
Qed.

Lemma increasing_true_positions (sel : list bool) :
  Spec.increasing (Spec.true_positions sel).
Proof. apply increasing_where_from. Qed.

Lemma in_where_from (sel : list bool) (k i : nat) :
  In i (Np.where_from k sel) <->
  k <= i /\ nth_error sel (i - k) = Some true.
Proof.
  revert k; induction sel as [|[] sel IH]; intros k; simpl.
  - split; [contradiction|]. intros [_ H]. destruct (i - k); discriminate.
  - rewrite IH. split.
    + intros [->|[H1 H2]].
      * rewrite Nat.sub_diag. auto.
      * split; [lia|]. replace (i - k) with (S (i - S k)) by lia. auto.
    + intros [H1 H2]. destruct (Nat.eq_dec k i) as [->|Hne]; [now left|right].
      split; [lia|]. replace (i - k) with (S (i - S k)) in H2 by lia. auto.
  - rewrite IH. split.
    + intros [H1 H2]. split; [lia|].
      replace (i - k) with (S (i - S k)) by lia. auto.
    + intros [H1 H2]. destruct (Nat.eq_dec k i) as [->|Hne].
      * rewrite Nat.sub_diag in H2. discriminate.
      * split; [lia|]. replace (i - k) with (S (i - S k)) in H2 by lia. auto.
Qed.

(** The positions listed are exactly those where the selection is true. *)
Lemma in_true_positions (sel : list bool) (p : N) :
  In p (Spec.true_positions sel) <-> nth_error sel (N.to_nat p) = Some true.
Proof.
  unfold Spec.true_positions, Np.where_. rewrite in_map_iff. split.
  - intros (i & <- & Hi). apply in_where_from in Hi.
    rewrite Nat2N.id. now rewrite Nat.sub_0_r in Hi.
  - intros H. exists (N.to_nat p). split; [apply N2Nat.id|].
    apply in_where_from. rewrite Nat.sub_0_r. split; [lia|auto].
Qed.

Lemma where_from_length (sel : list bool) (k : nat) :
  length (Np.where_from k sel) = Np.count_true sel.
Proof. revert k; induction sel as [|[] sel IH]; intros k; simpl; auto. Qed.

Lemma true_positions_length (sel : list bool) :
  length (Spec.true_positions sel) = Np.count_true sel.
Proof. unfold Spec.true_positions. rewrite length_map. apply where_from_length. Qed.

(** Writing a block right after the part already written. *)
Lemma set_slice_next (pre tail blk : list f64) (lo n : nat) :
  length pre = lo -> length blk = n -> n <= length tail ->
  Np.set_slice (pre ++ tail) lo (lo + n) blk
  = Ok (pre ++ blk ++ skipn n tail).
Proof.
  intros Hpre Hblk Hn. unfold Np.set_slice.
  rewrite length_app.
  replace (Nat.min lo (length pre + length tail)) with lo by lia.
  replace (Nat.max lo (Nat.min (lo + n) (length pre + length tail)))
    with (lo + n) by lia.
  replace (lo + n - lo) with n by lia.
  rewrite Hblk, Nat.eqb_refl.
  rewrite firstn_app, <- Hpre, firstn_all, Nat.sub_diag, firstn_O, app_nil_r.
  rewrite skipn_app, skipn_all2 by lia.
  replace (length pre + n - length pre) with n by lia. reflexivity.
Qed.

Lemma divide_same_length (dt : dtype) (a b : list f64) :
  length a = length b ->
  Np.divide dt a b
  = Ok (map (fun p => Np.quotient dt (fst p) (snd p)) (combine a b)).
Proof. intros H. unfold Np.divide. now rewrite H, Nat.eqb_refl. Qed.

Lemma features_length (dq : dtype) (b : bool) (sel : list bool)
      (vols : volume * volume) :
  length (vdata (fst vols)) = length sel ->
  (b = true -> length (vdata (snd vols)) = length (vdata (fst vols))) ->
  length (Spec.features dq b sel vols) = Np.count_true sel.
Proof.
  intros H1 H2. unfold Spec.features. destruct b.
  - rewrite length_map, length_combine, length_map.
    rewrite !select_length by (rewrite ?H2; auto). apply Nat.min_id.
  - now apply select_length.
Qed.

Lemma block_length (b : bool) (sel : list bool) (vols : volume * volume) :
  length (vdata (fst vols)) = length sel ->
  (b = true -> length (vdata (snd vols)) = length (vdata (fst vols))) ->
  length (Spec.block b sel vols) = Np.count_true sel.
Proof. apply features_length. Qed.

Lemma row_length (b : bool) (sel : list bool) (vols : volume * volume) :
  length (vdata (fst vols)) = length sel ->
  (b = true -> length (vdata (snd vols)) = length (vdata (fst vols))) ->
  length (Spec.row b sel vols) = Np.count_true sel.
Proof. apply features_length. Qed.

(* ================================================================== *)
(** * Running a method step by step *)
(* ================================================================== *)

Section Run.
Context {E S V : Type}.
Implicit Types (env : E) (s : S) (t : list V).

Lemma bind_ok {A B} (m : M E S V A) (k : A -> M E S V B) env s t a s' t' :
  m env s t = (Ok a, s', t') ->
  bind m k env s t = k a env s' t'.
Proof. intros H. unfold bind. now rewrite H. Qed.

Lemma bind_raise {A B} (m : M E S V A) (k : A -> M E S V B) env s t e s' t' :
  m env s t = (Raise e, s', t') ->
  bind m k env s t = (Raise e, s', t').
Proof. intros H. unfold bind. now rewrite H. Qed.

Lemma lift_ok {A} (r : result A) (a : A) env s t :
  r = Ok a -> lift r env s t = (Ok a, s, t).
Proof. now intros ->. Qed.

Lemma some_or_ok {A} (e : exn) (o : option A) (a : A) env s t :
  o = Some a -> some_or e o env s t = (Ok a, s, t).
Proof. now intros ->. Qed.

Lemma bind_ret {A B} (a : A) (k : A -> M E S V B) env s t :
  bind (ret a) k env s t = k a env s t.
Proof. reflexivity. Qed.

Lemma bind_emit {B} (v : V) (k : unit -> M E S V B) env s t :
  bind (emit v) k env s t = k tt env s (t ++ [v]).
Proof. reflexivity. Qed.

Lemma bind_get {B} (k : S -> M E S V B) env s t :
  bind get k env s t = k s env s t.
Proof. reflexivity. Qed.

Lemma bind_ask {B} (k : E -> M E S V B) env s t :
  bind ask k env s t = k env env s t.
Proof. reflexivity. Qed.

Lemma bind_modify {B} (f : S -> S) (k : unit -> M E S V B) env s t :
  bind (modify f) k env s t = k tt env (f s) t.
Proof. reflexivity. Qed.

Lemma bind_raise_now {A B} (e : exn) (k : A -> M E S V B) env s t :
  bind (raise e) k env s t = (Raise e, s, t).
Proof. reflexivity. Qed.

Lemma bind_assoc {A B C} (m : M E S V A) (k : A -> M E S V B)
      (h : B -> M E S V C) env s t :
  bind (bind m k) h env s t = bind m (fun a => bind (k a) h) env s t.
Proof.
  unfold bind. destruct (m env s t) as [[[a|e] s'] t']; reflexivity.
Qed.
End Run.

Lemma nib_load_ok {S} (env : Env) (p : path) (v : volume) (s : S)
      (t : list call) :
  env_nib_load env p = Some v ->
  Fsl2mvp.nib_load p env s t = (Ok v, s, t ++ [NibLoad p]).
Proof.
  intros H. unfold Fsl2mvp.nib_load, bind, emit, ask, some_or. now rewrite H.
Qed.

Lemma nib_load_fails {S} (env : Env) (p : path) (s : S) (t : list call) :
  env_nib_load env p = None ->
  Fsl2mvp.nib_load p env s t = (Raise IOError, s, t ++ [NibLoad p]).
Proof.
  intros H. unfold Fsl2mvp.nib_load, bind, emit, ask, some_or. now rewrite H.
Qed.

Lemma between_set_mvp_same (s : Between.t) :
  Between.set_mvp (Between.mvp s) s = s.
Proof. destruct s as [[m cl ri] ovf cid vid nc cn]. reflexivity. Qed.

Lemma within_set_mvp_same (s : Within.t) :
  Within.set_mvp (Within.mvp s) s = s.
Proof. destruct s as [[m cl ri] a b c d e f]. reflexivity. Qed.

(** Reading an attribute of the [Mvp] part that is set. *)
Lemma between_attr_ok {A} (f : Mvp.t -> option A) (e : exn) (a : A)
      (env : Env) (s : Between.t) (t : list call) :
  f (Between.mvp s) = Some a ->
  Between.on_mvp (Mvp.attr f e) env s t = (Ok a, s, t).
Proof.
  intros H. unfold Between.on_mvp, zoom, Mvp.attr, bind, get, some_or.
  rewrite H. simpl. now rewrite between_set_mvp_same.
Qed.

Lemma within_attr_ok {A} (f : Mvp.t -> option A) (e : exn) (a : A)
      (env : Env) (s : Within.t) (t : list call) :
  f (Within.mvp s) = Some a ->
  Within.on_mvp (Mvp.attr f e) env s t = (Ok a, s, t).
Proof.
  intros H. unfold Within.on_mvp, zoom, Mvp.attr, bind, get, some_or.
  rewrite H. simpl. now rewrite within_set_mvp_same.
Qed.

(** One step of a run: the first action of a [bind] has the outcome [H]. *)
Ltac step H := rewrite (bind_ok _ _ _ _ _ _ _ _ H).

(** The conversion of one condition, as the loop computes it. *)
Lemma between_copedat (env : Env) (sel : list bool) (b : bool)
      (cope varcope : path) (vols : volume * volume)
      (s : Between.t) (t : list call) :
  Mvp.beta2tstat (Between.mvp s) = b ->
  Spec.pair_loads env b sel (cope, varcope) vols ->
  exists t',
    (if Mvp.beta2tstat (Between.mvp s) then
       var <- Fsl2mvp.nib_load varcope ;;
       var_sel <- lift (Np.bool_index (vdata var) sel) ;;
       let var_sq := map (Np.sqrt (vdtype var)) var_sel in
       lift (Np.divide (Np.result_type (vdtype (fst vols)) (vdtype var))
                       (Np.select (vdata (fst vols)) sel) var_sq)
     else ret (Np.select (vdata (fst vols)) sel)) env s t
    = (Ok (Spec.block b sel vols), s, t').
Proof.
  intros Hb (Hc & (Hlen & _ & _) & Hvar). rewrite Hb.
  unfold Spec.block, Spec.features, Spec.between_dtype.
  destruct b.
  - destruct Hvar as [Hv Hvl]; auto. simpl in Hv.
    exists (t ++ [NibLoad varcope]).
    step (nib_load_ok env _ _ s t Hv).
    erewrite bind_ok
      by (apply lift_ok; unfold Np.bool_index;
          rewrite Hvl, Hlen, Nat.eqb_refl; reflexivity).
    apply lift_ok. apply divide_same_length.
    rewrite length_map, !select_length; congruence.
  - exists t. reflexivity.
Qed.

(** The loop of the between-run assembly: every pair of volumes writes
    its block after the blocks before it, and appends the number of its
    condition and the positions of the selected voxels. *)
Lemma between_load_copes_spec (env : Env) (sel : list bool) (b : bool) :
  forall (pairs : list (path * path)) (vols : list (volume * volume))
         (i : nat) (pre tail : list f64) (img : option volume)
         (s : Between.t) (log : list call),
    Mvp.mask_index (Between.mvp s) = Some sel ->
    Mvp.n_features (Between.mvp s) = Some (Np.count_true sel) ->
    Mvp.beta2tstat (Between.mvp s) = b ->
    Forall2 (Spec.pair_loads env b sel) pairs vols ->
    length pre = i * Np.count_true sel ->
    length pairs * Np.count_true sel <= length tail ->
    exists log',
      Between.load_copes i pairs (pre ++ tail) img env s log
      = (Ok (pre ++ concat (map (Spec.block b sel) vols)
                 ++ skipn (length pairs * Np.count_true sel) tail,
             Spec.last_cope img vols),
         Between.mk (Between.base s) (Between.output_var_file s)
           (Between.contrast_id s
              ++ Spec.contrast_blocks i (length pairs) (Np.count_true sel))
           (Between.voxel_idx s
              ++ concat (repeat (Spec.true_positions sel) (length pairs)))
           (Between.n_contrast s) (Between.contrast_names s),
         log').
Proof.
  induction pairs as [|[cope varcope] pairs IH];
    intros vols i pre tail img s log Hsel Hnf Hb Hload Hpre Htail;
    inversion_clear Hload as [|? [cv vv] ? vols' Hp Hrest].
  - exists log. destruct s. simpl. unfold Spec.contrast_blocks. simpl.
    now rewrite !app_nil_r.
  - pose proof Hp as (Hc & Hfit & Hvar). simpl in Hc, Hfit, Hvar.
    pose proof Hfit as (Hlen & _ & _).
    simpl in Htail.
    set (blk := Spec.block b sel (cv, vv)).
    assert (Hblk : length blk = Np.count_true sel).
    { apply block_length; simpl; auto. intros Hb'. now destruct (Hvar Hb'). }
    cbn [Between.load_copes].
    step (nib_load_ok env _ _ s log Hc).
    erewrite bind_ok by (apply between_attr_ok; exact Hsel).
    erewrite bind_ok
      by (apply lift_ok; unfold Np.bool_index;
          rewrite Hlen, Nat.eqb_refl; reflexivity).
    erewrite bind_ok by (apply lift_ok, voxel_indices_fits, Hfit).
    unfold get at 1. unfold bind at 1.
    destruct (between_copedat env sel b cope varcope (cv, vv) s
                (log ++ [NibLoad cope]) Hb Hp) as [t1 Hdat].
    simpl fst in Hdat. step Hdat.
    erewrite bind_ok by (apply between_attr_ok; exact Hnf).
    erewrite bind_ok
      by (apply lift_ok; rewrite <- Hpre; apply set_slice_next; auto; lia).
    unfold modify at 1. unfold bind at 1.
    unfold modify at 1. unfold bind at 1.
    fold blk.
    assert (Hpre' : length (pre ++ blk) = S i * Np.count_true sel).
    { rewrite length_app, Hblk, Hpre. simpl. lia. }
    assert (Htail' : length pairs * Np.count_true sel
                     <= length (skipn (Np.count_true sel) tail)).
    { rewrite length_skipn. lia. }
    rewrite app_assoc.
    match goal with
    | |- context [Between.load_copes (S i) pairs _ _ env ?s1 ?t1] =>
        destruct (IH vols' (S i) (pre ++ blk)
                    (skipn (Np.count_true sel) tail) (Some cv) s1 t1)
          as [log' Hrun]; auto
    end.
    exists log'. rewrite Hrun. destruct s as [[m cl ri] ovf cid vid nc cn].
    simpl. unfold Spec.contrast_blocks. simpl.
    rewrite <- !app_assoc, skipn_skipn.
    replace (length pairs * Np.count_true sel + Np.count_true sel)
      with (Np.count_true sel + length pairs * Np.count_true sel) by lia.
    reflexivity.
Qed.

Lemma skipn_zeros (k n : nat) : skipn k (Np.zeros n) = Np.zeros (n - k).
Proof.
  unfold Np.zeros. revert k; induction n as [|n IH]; intros [|k]; simpl; auto.
Qed.

Lemma last_cope_some (img : option volume) (vols : list (volume * volume)) :
  vols <> [] -> exists last, Spec.last_cope img vols = Some last.
Proof.
  unfold Spec.last_cope. revert img.
  induction vols as [|v vols IH]; intros img H; [congruence|].
  simpl. destruct vols as [|v' vols'].
  - simpl. eauto.
  - apply IH. discriminate.
Qed.

(** between.py:161-207 on volumes that load and fit the mask: one block
    per pair of volumes, zeros for the labels that are left over. *)
Lemma between_assemble_spec (env : Env) (sel : list bool) (b : bool)
      (k : nat) (copes varcopes : list path) (vols : list (volume * volume))
      (cl : list string) (s : Between.t) (log : list call) :
  Mvp.mask_index (Between.mvp s) = Some sel ->
  Mvp.n_features (Between.mvp s) = Some (Np.count_true sel) ->
  Mvp.beta2tstat (Between.mvp s) = b ->
  Fsl2mvp.contrast_labels (Between.base s) = Some cl ->
  Forall2 (Spec.pair_loads env b sel) (combine copes varcopes) vols ->
  vols <> [] ->
  length vols <= length cl ->
  exists log' last,
    Spec.last_cope None vols = Some last /\
    Between.assemble k copes varcopes env s log
    = (Ok tt,
       Spec.between_assembled s sel (length vols)
         (Np.nan_to_zero
            (concat (map (Spec.block b sel) vols)
               ++ Np.zeros (Np.count_true sel * (length cl - length vols))))
         last,
       log').
Proof.
  intros Hsel Hnf Hb Hcl Hload Hne Hn.
  destruct (last_cope_some None vols Hne) as [last Hlast].
  pose proof (Forall2_length Hload) as Hlen.
  unfold Between.assemble.
  erewrite bind_ok by (apply between_attr_ok; exact Hnf).
  unfold Between.contrast_labels.
  rewrite bind_assoc, bind_get, Hcl. simpl some_or. rewrite bind_ret, bind_emit.
  destruct (between_load_copes_spec env sel b (combine copes varcopes) vols
              0 [] (Np.zeros (Np.count_true sel * length cl)) None s
              (log ++ [NpZeros [Np.count_true sel * length cl]])
              Hsel Hnf Hb Hload eq_refl) as [log1 Hrun].
  { unfold Np.zeros. rewrite repeat_length, Hlen. nia. }
  simpl app in Hrun. step Hrun. clear Hrun.
  rewrite Hlast, Hlen, skipn_zeros.
  replace (Np.count_true sel * length cl - length vols * Np.count_true sel)
    with (Np.count_true sel * (length cl - length vols)) by nia.
  destruct s as [[m lbl ri] ovf cid vid nc cn].
  eexists. exists last. split; [reflexivity|].
  reflexivity.
Qed.

(* ================================================================== *)
(** * What the first parts of [glm2mvp] leave behind *)
(* ================================================================== *)

(** Case analysis on every test of a run that is known to have
    returned, innermost test first. *)
Ltac split_runs :=
  repeat (simpl in *;
          match goal with
          | H : (_, _) = (_, _) |- _ => inversion H; subst; clear H
          | H : Ok _ = Raise _ |- _ => discriminate H
          | H : Raise _ = Ok _ |- _ => discriminate H
          | H : context [match ?x with _ => _ end] |- _ =>
              lazymatch x with
              | context [match _ with _ => _ end] => fail
              | _ => let E := fresh "E" in destruct x eqn:E; try discriminate
              end
          end).

Lemma load_mask_built (env : Env) (m m' : Mvp.t) (t t' : list call) :
  Fsl2mvp.load_mask env m t = (Ok tt, m', t') ->
  Mvp.beta2tstat m' = Mvp.beta2tstat m /\
  Mvp.ref_space m' = Mvp.ref_space m /\
  Mvp.X m' = Mvp.X m /\
  match Mvp.mask_path m with
  | None => m' = m
  | Some _ =>
      Mvp.mask_path m' <> None /\
      exists sel, Mvp.mask_index m' = Some sel /\
                  Mvp.n_features m' = Some (Np.count_true sel)
  end.
Proof.
  unfold Fsl2mvp.load_mask, Fsl2mvp.nib_load, Mvp.attr,
    bind, get, ask, emit, some_or, modify, ret, raise.
  intros H. split_runs; repeat split; eauto; try discriminate;
    simpl; try congruence; eexists; split; reflexivity.
Qed.

(** between.py:85-120 leaves the mask as the build left it; the index
    vectors are not touched, the labels are there. *)
Lemma between_preamble_facts (env : Env) (flag : bool) (e e1 : Between.t)
      (log log1 : list call) (k : nat) :
  Between.preamble flag env e log = (Ok k, e1, log1) ->
  Between.contrast_id e1 = Between.contrast_id e /\
  Between.voxel_idx e1 = Between.voxel_idx e /\
  Mvp.beta2tstat (Between.mvp e1) = Mvp.beta2tstat (Between.mvp e) /\
  Mvp.ref_space (Between.mvp e1) = Mvp.ref_space (Between.mvp e) /\
  Mvp.X (Between.mvp e1) = Mvp.X (Between.mvp e) /\
  (exists cl, Fsl2mvp.contrast_labels (Between.base e1) = Some cl) /\
  match Mvp.mask_path (Between.mvp e) with
  | None => Mvp.mask_path (Between.mvp e1) = None
  | Some _ =>
      Mvp.mask_path (Between.mvp e1) <> None /\
      exists sel, Mvp.mask_index (Between.mvp e1) = Some sel /\
                  Mvp.n_features (Between.mvp e1) = Some (Np.count_true sel)
  end.
Proof.
  unfold Between.preamble, Between.on_mvp, Between.super, zoom,
    Fsl2mvp.reset_mat_dir, Fsl2mvp._extract_labels,
    Between._add_outcome_var, Between._update_metadata,
    Between.contrast_labels, Between.on_mvp, zoom, lift,
    bind, get, ask, emit, some_or, modify, ret, raise.
  intros H. destruct e as [[m cl ri] ovf cid vid nc cn].
  split_runs;
    repeat match goal with u : unit |- _ => destruct u end;
    match goal with
    | E : Fsl2mvp.load_mask _ _ _ = _ |- _ =>
        apply load_mask_built in E; destruct E as (Hb & Hr & HX & Hm)
    end;
    unfold Between.mvp in *; simpl in *; repeat split; eauto;
    revert Hm; destruct (Mvp.mask_path m) eqn:Hp; intros; subst; auto.
Qed.

(** between.py:122-159 writes nothing but the all-true mask of the peek,
    and that only when no mask was given. *)
Lemma between_stat_files_facts (env : Env) (e1 e2 : Between.t)
      (log1 log2 : list call) (copes varcopes : list path) :
  Between.stat_files env e1 log1 = (Ok (copes, varcopes), e2, log2) ->
  Between.contrast_id e2 = Between.contrast_id e1 /\
  Between.voxel_idx e2 = Between.voxel_idx e1 /\
  Mvp.beta2tstat (Between.mvp e2) = Mvp.beta2tstat (Between.mvp e1) /\
  Mvp.X (Between.mvp e2) = Mvp.X (Between.mvp e1) /\
  Fsl2mvp.contrast_labels (Between.base e2)
  = Fsl2mvp.contrast_labels (Between.base e1) /\
  match Mvp.mask_path (Between.mvp e1) with
  | Some _ => Between.mvp e2 = Between.mvp e1
  | None =>
      exists sel, Mvp.mask_index (Between.mvp e2) = Some sel /\
                  Mvp.n_features (Between.mvp e2) = Some (Np.count_true sel)
  end.
Proof.
  unfold Between.stat_files, Between.on_mvp, Between.super, zoom,
    Fsl2mvp.stats_directory, Fsl2mvp.list_stats, Fsl2mvp.remove_excluded,
    Fsl2mvp.to_mni, Fsl2mvp.peek, Fsl2mvp.nib_load, lift,
    bind, get, ask, emit, some_or, modify, ret, raise.
  intros H. destruct e1 as [[m cl ri] ovf cid vid nc cn].
  unfold Between.mvp in *.
  split_runs; unfold Between.mvp; simpl; repeat split; auto;
    repeat match goal with
           | H : Mvp.mask_path _ = _ |- _ => rewrite H; clear H
           end;
    simpl; auto;
    (eexists; split; [reflexivity | now rewrite count_true_repeat_true]).
Qed.

(** After the first two parts of the between-run [glm2mvp] the feature
    count is the number of true entries of the selection. *)
Lemma between_prefix_facts (env : Env) (flag : bool) (e e1 e2 : Between.t)
      (log log1 log2 : list call) (k : nat) (copes varcopes : list path) :
  Between.preamble flag env e log = (Ok k, e1, log1) ->
  Between.stat_files env e1 log1 = (Ok (copes, varcopes), e2, log2) ->
  Between.contrast_id e2 = Between.contrast_id e /\
  Between.voxel_idx e2 = Between.voxel_idx e /\
  Mvp.beta2tstat (Between.mvp e2) = Mvp.beta2tstat (Between.mvp e) /\
  Mvp.X (Between.mvp e2) = Mvp.X (Between.mvp e) /\
  (exists cl, Fsl2mvp.contrast_labels (Between.base e2) = Some cl) /\
  exists sel, Mvp.mask_index (Between.mvp e2) = Some sel /\
              Mvp.n_features (Between.mvp e2) = Some (Np.count_true sel).
Proof.
  intros H1 H2.
  destruct (between_preamble_facts _ _ _ _ _ _ _ H1)
    as (A1 & A2 & A3 & _ & A4 & A5 & A6).
  destruct (between_stat_files_facts _ _ _ _ _ _ _ H2)
    as (B1 & B2 & B3 & B4 & B5 & B6).
  repeat split; try congruence.
  - destruct A5 as [cl A5]. exists cl. congruence.
  - destruct (Mvp.mask_path (Between.mvp e)).
    + destruct A6 as [A6 A7].
      destruct (Mvp.mask_path (Between.mvp e1)); [|congruence].
      now rewrite B6.
    + now rewrite A6 in B6.
Qed.

Lemma between_glm2mvp_unfold (env : Env) (flag : bool) (e e1 e2 : Between.t)
      (log log1 log2 : list call) (k : nat) (copes varcopes : list path) :
  Between.preamble flag env e log = (Ok k, e1, log1) ->
  Between.stat_files env e1 log1 = (Ok (copes, varcopes), e2, log2) ->
  Between.glm2mvp flag env e log
  = Between.assemble k copes varcopes env e2 log2.
Proof.
  intros H1 H2. unfold Between.glm2mvp. step H1. step H2. reflexivity.
Qed.

(** A list made of blocks of one length, cut at a block. *)
Lemma slice_concat {A} (m : nat) (blocks : list (list A)) (i : nat) :
  Forall (fun b => length b = m) blocks ->
  i < length blocks ->
  Spec.slice (concat blocks) (i * m) m = nth i blocks [].
Proof.
  unfold Spec.slice. revert i.
  induction blocks as [|b blocks IH]; intros i Hall Hi; simpl in *; [lia|].
  inversion_clear Hall as [|? ? Hb Hrest].
  destruct i as [|i]; simpl.
  - rewrite firstn_app, <- Hb, firstn_all, Nat.sub_diag. simpl.
    apply app_nil_r.
  - rewrite skipn_app, skipn_all2 by lia. simpl.
    replace (m + i * m - length b) with (i * m) by lia.
    apply IH; auto. lia.
Qed.

Lemma concat_length_blocks {A} (m : nat) (blocks : list (list A)) :
  Forall (fun b => length b = m) blocks ->
  length (concat blocks) = m * length blocks.
Proof.
  induction 1 as [|b blocks Hb _ IH]; simpl; [lia|].
  rewrite length_app, IH, Hb. lia.
Qed.

Lemma nth_map_seq {A} (f : nat -> A) (n i : nat) (d : A) :
  i < n -> nth i (map f (seq 0 n)) d = f i.
Proof.
  intros Hi. rewrite nth_indep with (d' := f 0)
    by (now rewrite length_map, length_seq).
  now rewrite map_nth, seq_nth.
Qed.

Lemma contrast_blocks_slice (n m i : nat) :
  i < n ->
  Spec.slice (Spec.contrast_blocks 0 n m) (i * m) m = repeat (N.of_nat i) m.
Proof.
  intros Hi. unfold Spec.contrast_blocks.
  rewrite slice_concat.
  - now rewrite nth_map_seq.
  - apply Forall_forall. intros b Hb. apply in_map_iff in Hb.
    destruct Hb as (j & <- & _). apply repeat_length.
  - now rewrite length_map, length_seq.
Qed.

Lemma contrast_blocks_length (n m : nat) :
  length (Spec.contrast_blocks 0 n m) = m * n.
Proof.
  unfold Spec.contrast_blocks. rewrite concat_length_blocks with (m := m).
  - now rewrite length_map, length_seq.
  - apply Forall_forall. intros b Hb. apply in_map_iff in Hb.
    destruct Hb as (j & <- & _). apply repeat_length.
Qed.

Lemma repeat_blocks_slice {A} (b : list A) (n i : nat) :
  i < n ->
  Spec.slice (concat (repeat b n)) (i * length b) (length b) = b.
Proof.
  intros Hi. rewrite slice_concat.
  - apply nth_repeat_lt. assumption.
  - apply Forall_forall. intros x Hx. now apply repeat_spec in Hx; subst.
  - now rewrite repeat_length.
Qed.

Lemma repeat_blocks_length {A} (b : list A) (n : nat) :
  length (concat (repeat b n)) = length b * n.
Proof.
  rewrite concat_length_blocks with (m := length b).
  - now rewrite repeat_length.
  - apply Forall_forall. intros x Hx. now apply repeat_spec in Hx; subst.
Qed.

Lemma blocks_length (env : Env) (b : bool) (sel : list bool)
      (pairs : list (path * path)) (vols : list (volume * volume)) :
  Forall2 (Spec.pair_loads env b sel) pairs vols ->
  Forall (fun blk => length blk = Np.count_true sel)
         (map (Spec.block b sel) vols).
Proof.
  induction 1 as [|p v pairs vols (Hc & (Hlen & _) & Hvar) _ IH]; simpl;
    constructor; auto.
  apply block_length; auto. intros Hb. now destruct (Hvar Hb).
Qed.

Lemma nan_to_zero_length (a : list f64) :
  length (Np.nan_to_zero a) = length a.
Proof. apply length_map. Qed.

Lemma nan_to_zero_app (a b : list f64) :
  Np.nan_to_zero (a ++ b) = Np.nan_to_zero a ++ Np.nan_to_zero b.
Proof. apply map_app. Qed.

Lemma nan_to_zero_zeros (n : nat) : Np.nan_to_zero (Np.zeros n) = Np.zeros n.
Proof.
  unfold Np.nan_to_zero, Np.zeros. induction n; simpl; congruence.
Qed.

(** C8.  A between-run extraction of [n >= 1] conditions, on an entity
    whose index vectors are empty as the constructor leaves them, whose
    first two parts (between.py:85-159) went through with [n] copes, [n]
    varcopes and [n] labels, and whose volumes load and have the geometry
    of the mask: the extraction returns; [X] is a flat vector of
    [n_features * n] entries; for every condition [i] the entries
    [i * n_features, (i+1) * n_features) of [contrast_id] are all [i] and
    those of [voxel_idx] are the positions where the selection is true,
    in strictly increasing order. *)
Theorem between_flat_vector (env : Env) (flag : bool)
        (e e1 e2 : Between.t) (log log1 log2 : list call) (k : nat)
        (copes varcopes : list path) (vols : list (volume * volume))
        (sel : list bool) (cl : list string) (n : nat) :
  Between.contrast_id e = [] ->
  Between.voxel_idx e = [] ->
  Between.preamble flag env e log = (Ok k, e1, log1) ->
  Between.stat_files env e1 log1 = (Ok (copes, varcopes), e2, log2) ->
  Mvp.mask_index (Between.mvp e2) = Some sel ->
  Fsl2mvp.contrast_labels (Between.base e2) = Some cl ->
  length copes = n -> length varcopes = n -> length cl = n -> 0 < n ->
  Forall2 (Spec.pair_loads env (Mvp.beta2tstat (Between.mvp e)) sel)
          (combine copes varcopes) vols ->
  exists e' log' x nf,
    Between.glm2mvp flag env e log = (Ok tt, e', log') /\
    Mvp.mask_index (Between.mvp e') = Some sel /\
    Mvp.n_features (Between.mvp e') = Some nf /\
    nf = Np.count_true sel /\
    Mvp.X (Between.mvp e') = Some (Vec x) /\
    length x = nf * n /\
    length (Between.contrast_id e') = nf * n /\
    length (Between.voxel_idx e') = nf * n /\
    (forall i, i < n ->
       Spec.slice (Between.contrast_id e') (i * nf) nf = repeat (N.of_nat i) nf /\
       Spec.slice (Between.voxel_idx e') (i * nf) nf = Spec.true_positions sel) /\
    Spec.increasing (Spec.true_positions sel) /\
    (forall p, In p (Spec.true_positions sel) <->
               nth_error sel (N.to_nat p) = Some true).
Proof.
  intros Hcid Hvid H1 H2 Hsel Hcl Hcopes Hvarcopes Hlabels Hn Hload.
  destruct (between_prefix_facts _ _ _ _ _ _ _ _ _ _ _ H1 H2)
    as (F1 & F2 & F3 & _ & _ & (sel' & Hsel' & Hnf)).
  assert (sel' = sel) by congruence. subst sel'.
  rewrite <- F3 in Hload.
  pose proof (Forall2_length Hload) as Hlen.
  rewrite length_combine, Hcopes, Hvarcopes, Nat.min_id in Hlen.
  assert (Hne : vols <> []) by (destruct vols; simpl in Hlen; [lia|discriminate]).
  destruct (between_assemble_spec env sel _ k copes varcopes vols cl e2 log2
              Hsel Hnf eq_refl Hcl Hload Hne ltac:(lia))
    as (log' & last & Hlast & Hrun).
  rewrite (between_glm2mvp_unfold _ _ _ _ _ _ _ _ _ _ _ H1 H2), Hrun.
  pose proof (blocks_length _ _ _ _ _ Hload) as Hblocks.
  do 3 eexists. exists (Np.count_true sel).
  split; [reflexivity|].
  unfold Spec.between_assembled, Between.mvp. simpl.
  rewrite F1, F2, Hcid, Hvid. simpl.
  unfold Between.mvp in Hsel, Hnf.
  repeat split; auto.
  - rewrite nan_to_zero_length, length_app,
      (concat_length_blocks (Np.count_true sel)) by assumption.
    rewrite length_map. unfold Np.zeros. rewrite repeat_length. nia.
  - now rewrite contrast_blocks_length, <- Hlen.
  - rewrite repeat_blocks_length, true_positions_length. now rewrite <- Hlen.
  - apply contrast_blocks_slice. lia.
  - rewrite <- (true_positions_length sel). apply repeat_blocks_slice. lia.
  - apply increasing_true_positions.
  - apply in_true_positions.
  - apply in_true_positions.
Qed.

Lemma between_flat_vector_witness :
  exists e' log' x nf,
    Between.glm2mvp true Ex.between_env Ex.between_entity [] = (Ok tt, e', log') /\
    Mvp.mask_index (Between.mvp e') = Some Ex.between_sel /\
    Mvp.n_features (Between.mvp e') = Some nf /\
    nf = Np.count_true Ex.between_sel /\
    Mvp.X (Between.mvp e') = Some (Vec x) /\
    length x = nf * 2 /\
    length (Between.contrast_id e') = nf * 2 /\
    length (Between.voxel_idx e') = nf * 2 /\
    (forall i, i < 2 ->
       Spec.slice (Between.contrast_id e') (i * nf) nf = repeat (N.of_nat i) nf /\
       Spec.slice (Between.voxel_idx e') (i * nf) nf
       = Spec.true_positions Ex.between_sel) /\
    Spec.increasing (Spec.true_positions Ex.between_sel) /\
    (forall p, In p (Spec.true_positions Ex.between_sel) <->
               nth_error Ex.between_sel (N.to_nat p) = Some true).
Proof.
  apply (between_flat_vector Ex.between_env true
           Ex.between_entity Ex.between_entity_1 Ex.between_entity_2
           [] Ex.between_log_1 Ex.between_log_2 0
           ["cope1.nii.gz"; "cope2.nii.gz"]%string
           ["varcope1.nii.gz"; "varcope2.nii.gz"]%string
           [(Ex.cope8a, Ex.var8a); (Ex.cope8b, Ex.var8b)]
           Ex.between_sel ["task"; "rest"]%string 2).
  - reflexivity.
  - reflexivity.
  - vm_compute. reflexivity.
  - vm_compute. reflexivity.
  - reflexivity.
  - reflexivity.
  - reflexivity.
  - reflexivity.
  - reflexivity.
  - lia.
  - repeat constructor; simpl; try reflexivity; try discriminate.
Defined.

(** C10, as stated, fails when no volume is retained: the loop runs no
    iteration, [cope_img] is never bound, and between.py:186 raises. *)
Lemma between_no_volume_raises :
  length (env_glob Ex.no_copes_env Stats Cope) < 2 /\
  exists e' log',
    Between.glm2mvp true Ex.no_copes_env Ex.between_entity []
    = (Raise UnboundLocalError, e', log') /\
    Fsl2mvp.contrast_labels (Between.base e') = Some ["task"; "rest"]%string /\
    Mvp.X (Between.mvp e') = None.
Proof.
  split; [simpl; lia|].
  do 2 eexists. split; [vm_compute; reflexivity|]. split; reflexivity.
Qed.

(** C10, amended.  The between-run extraction checks no count.  With at
    least one pair of a cope and a varcope, fewer copes than labels, and
    volumes that load and have the geometry of the mask, it returns: the
    pairs are those of [zip(copes, varcopes)], as many as the shorter list
    has; [X] has [n_features] entries per label, begins with the
    (sanitized) blocks of the pairs, each computed in the precision of
    its volumes, and its last [n_features * (n_labels - n_copes)]
    entries are the zeros of the allocation. *)
Theorem between_fewer_volumes (env : Env) (flag : bool)
        (e e1 e2 : Between.t) (log log1 log2 : list call) (k : nat)
        (copes varcopes : list path) (vols : list (volume * volume))
        (sel : list bool) (cl : list string) :
  Between.preamble flag env e log = (Ok k, e1, log1) ->
  Between.stat_files env e1 log1 = (Ok (copes, varcopes), e2, log2) ->
  Mvp.mask_index (Between.mvp e2) = Some sel ->
  Fsl2mvp.contrast_labels (Between.base e2) = Some cl ->
  length copes < length cl ->
  vols <> [] ->
  Forall2 (Spec.pair_loads env (Mvp.beta2tstat (Between.mvp e)) sel)
          (combine copes varcopes) vols ->
  exists e' log' x nf,
    Between.glm2mvp flag env e log = (Ok tt, e', log') /\
    Mvp.n_features (Between.mvp e') = Some nf /\
    nf = Np.count_true sel /\
    Mvp.X (Between.mvp e') = Some (Vec x) /\
    length x = nf * length cl /\
    length vols = Nat.min (length copes) (length varcopes) /\
    firstn (nf * length vols) x
    = Np.nan_to_zero
        (concat (map (Spec.block (Mvp.beta2tstat (Between.mvp e)) sel) vols)) /\
    skipn (nf * length copes) x
    = Np.zeros (nf * (length cl - length copes)).
Proof.
  intros H1 H2 Hsel Hcl Hfew Hne Hload.
  destruct (between_prefix_facts _ _ _ _ _ _ _ _ _ _ _ H1 H2)
    as (_ & _ & F3 & _ & _ & (sel' & Hsel' & Hnf)).
  assert (sel' = sel) by congruence. subst sel'.
  rewrite <- F3 in Hload |- *.
  remember (Mvp.beta2tstat (Between.mvp e2)) as b eqn:Hb. symmetry in Hb.
  pose proof (Forall2_length Hload) as Hlen.
  rewrite length_combine in Hlen.
  destruct (between_assemble_spec env sel b k copes varcopes vols cl e2 log2
              Hsel Hnf Hb Hcl Hload Hne ltac:(lia))
    as (log' & last & Hlast & Hrun).
  rewrite (between_glm2mvp_unfold _ _ _ _ _ _ _ _ _ _ _ H1 H2), Hrun.
  pose proof (blocks_length _ _ _ _ _ Hload) as Hblocks.
  pose proof (concat_length_blocks (Np.count_true sel) _ Hblocks) as Hcat.
  rewrite length_map in Hcat.
  do 3 eexists. exists (Np.count_true sel).
  split; [reflexivity|].
  unfold Spec.between_assembled, Between.mvp. simpl.
  unfold Between.mvp in Hnf.
  rewrite nan_to_zero_app, nan_to_zero_zeros.
  repeat split; auto.
  - rewrite length_app, nan_to_zero_length, Hcat.
    unfold Np.zeros. rewrite repeat_length. nia.
  - rewrite firstn_app, nan_to_zero_length, Hcat, Nat.sub_diag. simpl.
    rewrite app_nil_r. apply firstn_all2.
    rewrite nan_to_zero_length, Hcat. lia.
  - rewrite skipn_app, nan_to_zero_length, Hcat, skipn_zeros.
    rewrite skipn_all2 by (rewrite nan_to_zero_length, Hcat; nia).
    simpl. f_equal. nia.
Qed.

Lemma between_fewer_volumes_witness :
  exists e' log' x nf,
    Between.glm2mvp true Ex.fewer_env Ex.between_entity [] = (Ok tt, e', log') /\
    Mvp.n_features (Between.mvp e') = Some nf /\
    nf = Np.count_true Ex.between_sel /\
    Mvp.X (Between.mvp e') = Some (Vec x) /\
    length x = nf * 2 /\
    1 = Nat.min 1 1 /\
    firstn (nf * 1) x
    = Np.nan_to_zero
        (concat (map (Spec.block true Ex.between_sel)
                     [(Ex.cope8a, Ex.var8a)])) /\
    skipn (nf * 1) x = Np.zeros (nf * (2 - 1)).
Proof.
  apply (between_fewer_volumes Ex.fewer_env true
           Ex.between_entity Ex.fewer_entity_1 Ex.fewer_entity_2
           [] Ex.fewer_log_1 Ex.fewer_log_2 0
           ["cope1.nii.gz"]%string ["varcope1.nii.gz"]%string
           [(Ex.cope8a, Ex.var8a)]
           Ex.between_sel ["task"; "rest"]%string).
  - vm_compute. reflexivity.
  - vm_compute. reflexivity.
  - reflexivity.
  - reflexivity.
  - simpl. lia.
  - discriminate.
  - repeat constructor; simpl; try reflexivity; try discriminate.
Defined.

(* ================================================================== *)
(** * Beta-to-t conversion *)
(* ================================================================== *)

(** C5, as stated, fails on a zero variance under a non-zero effect: the
    quotient is infinite, [np.isnan] is false on it, and it is stored. *)
Lemma zero_variance_stored_as_inf :
  Ex.within_X (Ex.one_voxel 4 0) Ex.within_whole
  = (Ok tt, Some (Mat 1 1 [[f64_inf]])) /\
  Ex.between_X (Ex.one_voxel 4 0) Ex.between_whole
  = (Ok tt, Some (Vec [f64_inf])) /\
  f64_inf <> lit 0 /\
  f64_isnan f64_inf = false.
Proof.
  split; [vm_compute; reflexivity|].
  split; [vm_compute; reflexivity|].
  split; [discriminate|reflexivity].
Qed.

Lemma tstat_not_nan (dq dv : dtype) (effect variance : f64) :
  f64_isnan (Spec.tstat dq dv effect variance) = false.
Proof.
  unfold Spec.tstat.
  destruct (f64_isnan (Np.quotient dq effect (Np.sqrt dv variance))) eqn:E;
    auto.
Qed.

Lemma nan_to_zero_features (dq : dtype) (sel : list bool)
      (vols : volume * volume) :
  Np.nan_to_zero (Spec.features dq true sel vols)
  = Spec.tstat_block dq sel vols.
Proof.
  unfold Spec.features, Spec.tstat_block, Spec.tstat, Np.nan_to_zero.
  generalize (Np.select (vdata (fst vols)) sel) as xs.
  generalize (Np.select (vdata (snd vols)) sel) as ys.
  intros ys xs. revert ys.
  induction xs as [|x xs IH]; intros [|y ys]; simpl; auto.
  now rewrite IH.
Qed.

Lemma nan_to_zero_block (sel : list bool) (vols : volume * volume) :
  Np.nan_to_zero (Spec.block true sel vols)
  = Spec.tstat_block (Spec.between_dtype vols) sel vols.
Proof. apply nan_to_zero_features. Qed.

Lemma nan_to_zero_row (sel : list bool) (vols : volume * volume) :
  Np.nan_to_zero (Spec.row true sel vols)
  = Spec.tstat_block Float64 sel vols.
Proof. apply nan_to_zero_features. Qed.

Lemma nan_to_zero_concat (blocks : list (list f64)) :
  Np.nan_to_zero (concat blocks) = concat (map Np.nan_to_zero blocks).
Proof. unfold Np.nan_to_zero. apply concat_map. Qed.

Lemma slice_app_l {A} (a b : list A) (lo n : nat) :
  lo + n <= length a -> Spec.slice (a ++ b) lo n = Spec.slice a lo n.
Proof.
  intros H. unfold Spec.slice.
  rewrite skipn_app, firstn_app, length_skipn.
  replace (n - (length a - lo)) with 0 by lia.
  replace (lo - length a) with 0 by lia.
  simpl. now rewrite app_nil_r.
Qed.

(** between.py:161-205 with the conversion on: every slice of [X] is the
    block of t-statistics of its pair of volumes. *)
Lemma between_slices_spec (env : Env) (flag : bool)
      (e e1 e2 : Between.t) (log log1 log2 : list call) (k : nat)
      (copes varcopes : list path) (vols : list (volume * volume))
      (sel : list bool) (cl : list string) :
  Mvp.beta2tstat (Between.mvp e) = true ->
  Between.preamble flag env e log = (Ok k, e1, log1) ->
  Between.stat_files env e1 log1 = (Ok (copes, varcopes), e2, log2) ->
  Mvp.mask_index (Between.mvp e2) = Some sel ->
  Fsl2mvp.contrast_labels (Between.base e2) = Some cl ->
  length vols <= length cl ->
  vols <> [] ->
  Forall2 (Spec.pair_loads env true sel) (combine copes varcopes) vols ->
  exists e' log' x,
    Between.glm2mvp flag env e log = (Ok tt, e', log') /\
    Mvp.X (Between.mvp e') = Some (Vec x) /\
    Forall (fun v => f64_isnan v = false) x /\
    forall i, i < length vols ->
      Spec.slice x (i * Np.count_true sel) (Np.count_true sel)
      = let v := nth i vols (Spec.no_volume, Spec.no_volume) in
        Spec.tstat_block (Spec.between_dtype v) sel v.
Proof.
  intros Hb H1 H2 Hsel Hcl Hn Hne Hload.
  destruct (between_prefix_facts _ _ _ _ _ _ _ _ _ _ _ H1 H2)
    as (_ & _ & F3 & _ & _ & (sel' & Hsel' & Hnf)).
  assert (sel' = sel) by congruence. subst sel'.
  rewrite Hb in F3.
  destruct (between_assemble_spec env sel true k copes varcopes vols cl e2 log2
              Hsel Hnf F3 Hcl Hload Hne Hn)
    as (log' & last & Hlast & Hrun).
  rewrite (between_glm2mvp_unfold _ _ _ _ _ _ _ _ _ _ _ H1 H2), Hrun.
  pose proof (blocks_length _ _ _ _ _ Hload) as Hblocks.
  do 3 eexists. split; [reflexivity|].
  unfold Spec.between_assembled, Between.mvp. simpl.
  split; [reflexivity|]. split.
  - unfold Np.nan_to_zero. apply Forall_map, Forall_forall. intros v _.
    destruct v; reflexivity.
  - intros i Hi.
    rewrite nan_to_zero_app, nan_to_zero_concat, map_map.
    assert (Hall : Forall (fun b => length b = Np.count_true sel)
                     (map (fun v => Np.nan_to_zero (Spec.block true sel v)) vols)).
    { rewrite Forall_map in *. eapply Forall_impl; [|exact Hblocks].
      intros v Hv. simpl in *. now rewrite nan_to_zero_length. }
    rewrite slice_app_l.
    + rewrite (slice_concat _ _ _ Hall) by (now rewrite length_map).
      rewrite nth_indep with (d' := (fun v => Np.nan_to_zero (Spec.block true sel v))
                                      (Spec.no_volume, Spec.no_volume))
        by (now rewrite length_map).
      rewrite (map_nth (fun v => Np.nan_to_zero (Spec.block true sel v))).
      apply nan_to_zero_block.
    + rewrite (concat_length_blocks _ _ Hall), length_map. nia.
Qed.



(* ================================================================== *)
(** * The within-run design *)
(* ================================================================== *)

(** C7 (the code departs from the claim).  Three condition volumes of 10
    voxels, a mask that selects them all, labels A, B, A: [X] is 3 by 10
    and [y] is [0, 1, 0], the classes being A, B in sorted order; but
    [n_inst] has one count per trial, [2, 1, 2], where the count per
    class is [2, 1]. *)
Theorem within_three_trials_n_inst_per_trial :
  exists e' log' rows,
    Within.glm2mvp true Ex.within_env Ex.within_entity [] = (Ok tt, e', log') /\
    Mvp.mask_index (Within.mvp e') = Some (repeat true 10) /\
    Mvp.X (Within.mvp e') = Some (Mat 3 10 rows) /\
    length rows = 3 /\
    Forall (fun row => length row = 10) rows /\
    Mvp.y (Within.mvp e') = Some (YCodes [0; 1; 0]) /\
    Within.class_names e' = Some ["A"; "B"]%string /\
    Within.n_class e' = Some 2 /\
    Within.n_inst e' = Some [2; 1; 2] /\
    map (fun cls => Np.count_true (Np.eq_elementwise Ex.abc_labels cls))
        ["A"; "B"]%string = [2; 1].
Proof.
  destruct (Within.glm2mvp true Ex.within_env Ex.within_entity [])
    as [[r e'] log'] eqn:Hrun.
  vm_compute in Hrun.
  injection Hrun as <- <- <-.
  do 3 eexists. split; [reflexivity|].
  simpl. repeat split; try reflexivity.
  repeat constructor.
Qed.

(* ------------------------------------------------------------------ *)
(** ** What a method may log, write and raise *)
(* ------------------------------------------------------------------ *)

#[export] Instance kept_preorder : PreOrder Spec.kept.
Proof.
  split; unfold Spec.kept; [intros m|intros a b c [] []]; split; congruence.
Qed.

#[export] Instance on_preorder {S T} (proj : S -> T) (Q : T -> T -> Prop)
  `{!PreOrder Q} : PreOrder (Spec.on proj Q).
Proof.
  split; unfold Spec.on; [intros s|intros a b c]; [reflexivity|].
  apply transitivity.
Qed.

#[export] Instance any_preorder {S} : PreOrder (@Spec.any S).
Proof. split; [intros s|intros a b c]; unfold Spec.any; auto. Qed.

Section Respects.
Context {S : Type}.
Variable P : call -> bool.
Variable I : S -> S -> Prop.
Context `{!PreOrder I}.
Variable R : exn -> Prop.

Let I_refl : forall s, I s s := reflexivity.
Let I_trans : forall a b c, I a b -> I b c -> I a c := transitivity.

Lemma respects_ret {A} (a : A) : Spec.respects P I R (ret a).
Proof.
  intros env s t. exists (Ok a), s, []. rewrite app_nil_r.
  repeat split; auto. discriminate.
Qed.

Lemma respects_raise {A} (e : exn) :
  R e -> Spec.respects P I R (@raise Env S call A e).
Proof.
  intros He env s t. exists (Raise e), s, []. rewrite app_nil_r.
  repeat split; auto. intros x [= <-]. exact He.
Qed.

Lemma respects_get : Spec.respects P I R get.
Proof.
  intros env s t. exists (Ok s), s, []. rewrite app_nil_r.
  repeat split; auto. discriminate.
Qed.

Lemma respects_ask : Spec.respects P I R ask.
Proof.
  intros env s t. exists (Ok env), s, []. rewrite app_nil_r.
  repeat split; auto. discriminate.
Qed.

Lemma respects_emit (v : call) : P v = true -> Spec.respects P I R (emit v).
Proof.
  intros Hv env s t. exists (Ok tt), s, [v].
  repeat split; auto; [simpl; now rewrite Hv | discriminate].
Qed.

Lemma respects_modify (f : S -> S) :
  (forall s, I s (f s)) -> Spec.respects P I R (modify f).
Proof.
  intros Hf env s t. exists (Ok tt), (f s), []. rewrite app_nil_r.
  repeat split; auto. discriminate.
Qed.

Lemma respects_lift {A} (r : result A) :
  (forall x, r = Raise x -> R x) -> Spec.respects P I R (lift r).
Proof.
  intros Hr. destruct r as [a|e]; simpl.
  - apply respects_ret.
  - apply respects_raise. now apply Hr.
Qed.

Lemma respects_some_or {A} (e : exn) (o : option A) :
  R e -> Spec.respects P I R (some_or e o).
Proof.
  intros He. destruct o as [a|]; simpl.
  - apply respects_ret.
  - now apply respects_raise.
Qed.

Lemma respects_bind {A B} (m : M Env S call A) (k : A -> M Env S call B) :
  Spec.respects P I R m ->
  (forall a, Spec.respects P I R (k a)) ->
  Spec.respects P I R (bind m k).
Proof.
  intros Hm Hk env s t.
  destruct (Hm env s t) as (r & s1 & new1 & E1 & P1 & I1 & R1).
  unfold bind. rewrite E1. destruct r as [a|e].
  - destruct (Hk a env s1 (t ++ new1)) as (r' & s2 & new2 & E2 & P2 & I2 & R2).
    exists r', s2, (new1 ++ new2). rewrite app_assoc.
    split; [exact E2|]. split; [|split].
    + rewrite forallb_app. now rewrite P1, P2.
    + eapply I_trans; eassumption.
    + exact R2.
  - exists (Raise e), s1, new1.
    split; [reflexivity|]. split; [exact P1|]. split; [exact I1|].
    intros x [= <-]. apply R1. reflexivity.
Qed.

Lemma respects_zoom {T A} (Q : T -> T -> Prop)
      (proj : S -> T) (inj : T -> S -> S) (m : M Env T call A) :
  (forall s b, Q (proj s) b -> I s (inj b s)) ->
  Spec.respects P Q R m ->
  Spec.respects P I R (zoom proj inj m).
Proof.
  intros Hq Hm env s t.
  destruct (Hm env (proj s) t) as (r & b & new & E & HP & HQ & HR).
  unfold zoom. rewrite E. exists r, (inj b s), new. repeat split; auto.
Qed.
End Respects.

(** What is known of a run once [respects] is. *)
Lemma respects_run {S A} (P : call -> bool) (I : S -> S -> Prop)
      (R : exn -> Prop) (m : M Env S call A) env s t r s' t' :
  Spec.respects P I R m ->
  m env s t = (r, s', t') ->
  (exists new, t' = t ++ new /\ forallb P new = true) /\
  I s s' /\
  (forall x, r = Raise x -> R x).
Proof.
  intros Hm Hrun.
  destruct (Hm env s t) as (r0 & s0 & new & E & HP & HI & HR).
  rewrite Hrun in E. injection E as -> -> ->. eauto.
Qed.

Lemma respects_weaken {S A} (P P' : call -> bool) (I I' : S -> S -> Prop)
      (R R' : exn -> Prop) (m : M Env S call A) :
  (forall c, P c = true -> P' c = true) ->
  (forall s s', I s s' -> I' s s') ->
  (forall x, R x -> R' x) ->
  Spec.respects P I R m -> Spec.respects P' I' R' m.
Proof.
  intros HP HI HR Hm env s t.
  destruct (Hm env s t) as (r & s' & new & E & P1 & I1 & R1).
  exists r, s', new. repeat split; auto.
  rewrite forallb_forall in *. auto.
Qed.

(** The side conditions of the rules. *)
Ltac respects_exn :=
  cbv beta;
  solve [ exact Logic.I | discriminate | intros; exact Logic.I
        | let x := fresh "x" in
          let Hx := fresh "Hx" in
          intros x Hx;
          unfold Np.bool_index, Np.set_row, Np.get_row, Np.divide in Hx;
          repeat match type of Hx with
                 | context [match ?y with _ => _ end] => destruct y
                 end;
          try discriminate Hx; injection Hx as <-; discriminate ].

Ltac respects_rel :=
  solve [ intros;
          unfold Spec.on, Spec.kept, Spec.any, Within.mvp, Between.mvp in *;
          simpl; auto ].

(** A method made of the operations of the monad respects what each of
    its operations does. *)
Ltac rule lem := apply lem; try typeclasses eauto.

Ltac respects_auto :=
  repeat first
    [ rule respects_ret
    | rule respects_get
    | rule respects_ask
    | rule respects_emit; reflexivity
    | rule respects_raise; respects_exn
    | rule respects_some_or; respects_exn
    | rule respects_lift; respects_exn
    | rule respects_modify; respects_rel
    | rule respects_bind; [ | intros ? ]
    | match goal with
      | |- Spec.respects _ (@Spec.any _) _ (zoom _ _ _) =>
          apply respects_zoom with (Q := @Spec.any _); [respects_rel | ]
      | |- Spec.respects _ _ _ (zoom _ _ _) =>
          first [ apply respects_zoom with (Q := Spec.kept); [respects_rel | ]
                | apply respects_zoom with (Q := Spec.on Fsl2mvp.mvp Spec.kept);
                  [respects_rel | ] ]
      end
    | progress cbv zeta
    | match goal with
      | |- Spec.respects _ _ _ (match ?x with _ => _ end) => destruct x
      end ].

Ltac respects_unfold :=
  unfold Within.on_mvp, Within.super, Between.on_mvp, Between.super,
    Fsl2mvp.on_mvp, Within.contrast_labels, Between.contrast_labels,
    Within._update_metadata, Between._update_metadata,
    Between._add_outcome_var,
    Fsl2mvp.load_mask, Fsl2mvp.reset_mat_dir, Fsl2mvp._extract_labels,
    Fsl2mvp.stats_directory, Fsl2mvp.list_stats, Fsl2mvp.to_mni,
    Fsl2mvp.remove_excluded, Fsl2mvp.peek, Fsl2mvp.keep_geometry,
    Fsl2mvp.store, Fsl2mvp.nib_load, Mvp.attr.

(** within.py:79-110 and between.py:85-120 list and read no statistic
    volume, and leave [X] and the reference space alone. *)
Lemma within_preamble_respects (flag : bool) :
  Spec.respects Spec.before_stats (Spec.on Within.mvp Spec.kept)
                (fun _ => True) (Within.preamble flag).
Proof. unfold Within.preamble. respects_unfold. respects_auto. Qed.

Lemma between_preamble_respects (flag : bool) :
  Spec.respects Spec.before_stats (Spec.on Between.mvp Spec.kept)
                (fun _ => True) (Between.preamble flag).
Proof. unfold Between.preamble. respects_unfold. respects_auto. Qed.

(** within.py:112-143 allocates nothing and writes no file. *)
Lemma within_stat_files_respects :
  Spec.respects Spec.no_matrix_yet (Spec.on Within.mvp Spec.kept)
                (fun _ => True) Within.stat_files.
Proof. unfold Within.stat_files. respects_unfold. respects_auto. Qed.

Lemma within_load_copes_respects (copes : list path) :
  forall i ncols mvp_data cope_img,
    Spec.respects (fun _ => true) (@Spec.any Within.t) Spec.not_count_error
                  (Within.load_copes i copes ncols mvp_data cope_img).
Proof.
  unfold Spec.not_count_error.
  induction copes as [|path rest IH]; intros i ncols mvp_data cope_img;
    cbn [Within.load_copes]; respects_unfold; respects_auto.
  apply IH.
Qed.

Lemma within_divide_rows_respects (varcopes : list path) :
  forall i ncols mvp_data,
    Spec.respects (fun _ => true) (@Spec.any Within.t) Spec.not_count_error
                  (Within.divide_rows i varcopes ncols mvp_data).
Proof.
  unfold Spec.not_count_error.
  induction varcopes as [|path rest IH]; intros i ncols mvp_data;
    cbn [Within.divide_rows]; respects_unfold; respects_auto.
  apply IH.
Qed.

(** within.py:151-192 never raises the count error. *)
Lemma within_fill_respects (k : nat) (copes varcopes : list path) :
  Spec.respects (fun _ => true) (@Spec.any Within.t) Spec.not_count_error
                (Within.fill k copes varcopes).
Proof.
  unfold Within.fill. respects_unfold. unfold Spec.not_count_error.
  respects_auto;
    first [ apply within_load_copes_respects
          | apply within_divide_rows_respects ].
Qed.

Lemma within_glm2mvp_unfold (env : Env) (flag : bool) (e e1 e2 : Within.t)
      (log log1 log2 : list call) (k : nat) (copes varcopes : list path) :
  Within.preamble flag env e log = (Ok k, e1, log1) ->
  Within.stat_files env e1 log1 = (Ok (copes, varcopes), e2, log2) ->
  Within.glm2mvp flag env e log
  = Within.assemble k copes varcopes env e2 log2.
Proof.
  intros H1 H2. unfold Within.glm2mvp. step H1. step H2. reflexivity.
Qed.

(** C6.  In the within-run extraction whose first two parts
    (within.py:79-143) went through with the retained copes and the
    labels [cl]: when their counts differ, [glm2mvp] raises the "number
    of trials" [ValueError] with the entity and the log as those parts
    left them, so [X] is what it was, no matrix was allocated and no file
    written; when the counts agree, that error is not raised. *)
Theorem within_count_check (env : Env) (flag : bool)
        (e e1 e2 : Within.t) (log log1 log2 : list call) (k : nat)
        (copes varcopes : list path) (cl : list string) :
  Within.preamble flag env e log = (Ok k, e1, log1) ->
  Within.stat_files env e1 log1 = (Ok (copes, varcopes), e2, log2) ->
  Fsl2mvp.contrast_labels (Within.base e2) = Some cl ->
  (length copes <> length cl ->
   Within.glm2mvp flag env e log
   = (Raise (ValueError TrialsVsLabels), e2, log2) /\
   Mvp.X (Within.mvp e2) = Mvp.X (Within.mvp e) /\
   exists new, log2 = log ++ new /\ forallb Spec.no_matrix_yet new = true) /\
  (length copes = length cl ->
   fst (fst (Within.glm2mvp flag env e log))
   <> Raise (ValueError TrialsVsLabels)).
Proof.
  intros H1 H2 Hcl.
  rewrite (within_glm2mvp_unfold _ _ _ _ _ _ _ _ _ _ _ H1 H2).
  unfold Within.assemble, Within.contrast_labels.
  rewrite bind_assoc, bind_get, Hcl. simpl some_or. rewrite bind_ret.
  split; intros Hlen.
  - apply Nat.eqb_neq in Hlen. rewrite Hlen. simpl negb. cbv iota.
    split; [reflexivity|].
    destruct (respects_run _ _ _ _ _ _ _ _ _ _
                (within_preamble_respects flag) H1)
      as ((new1 & -> & P1) & (X1 & _) & _).
    destruct (respects_run _ _ _ _ _ _ _ _ _ _
                within_stat_files_respects H2)
      as ((new2 & -> & P2) & (X2 & _) & _).
    split; [congruence|].
    exists (new1 ++ new2). rewrite app_assoc. split; [reflexivity|].
    rewrite forallb_app, P2, andb_true_r.
    rewrite forallb_forall in *. intros c Hc. specialize (P1 c Hc).
    destruct c; simpl in *; congruence.
  - apply Nat.eqb_eq in Hlen. rewrite Hlen. simpl negb. cbv iota.
    change (fst (fst (Within.fill k copes varcopes env e2 log2))
            <> Raise (ValueError TrialsVsLabels)).
    destruct (Within.fill k copes varcopes env e2 log2) as [[r s'] t'] eqn:E.
    destruct (respects_run _ _ _ _ _ _ _ _ _ _
                (within_fill_respects k copes varcopes) E) as (_ & _ & HR).
    intros Hr. simpl in Hr. exact (HR _ Hr eq_refl).
Qed.

Lemma within_count_check_witness :
  (2 <> length Ex.abc_labels ->
   Within.glm2mvp true Ex.short_env Ex.within_entity []
   = (Raise (ValueError TrialsVsLabels), Ex.short_entity_2, Ex.short_log_2) /\
   Mvp.X (Within.mvp Ex.short_entity_2) = Mvp.X (Within.mvp Ex.within_entity) /\
   exists new,
     Ex.short_log_2 = [] ++ new /\ forallb Spec.no_matrix_yet new = true) /\
  (2 = length Ex.abc_labels ->
   fst (fst (Within.glm2mvp true Ex.short_env Ex.within_entity []))
   <> Raise (ValueError TrialsVsLabels)).
Proof.
  apply (within_count_check Ex.short_env true
           Ex.within_entity Ex.short_entity_1 Ex.short_entity_2
           [] Ex.short_log_1 Ex.short_log_2 0
           ["cope1.nii.gz"; "cope2.nii.gz"]%string
           ["varcope1.nii.gz"; "varcope2.nii.gz"]%string
           Ex.abc_labels).
  - vm_compute. reflexivity.
  - vm_compute. reflexivity.
  - reflexivity.
Defined.

(** On that directory the error is raised, [X] stays [None], and the log
    shows the calls made until then. *)
Example within_short_run :
  Within.glm2mvp true Ex.short_env Ex.within_entity []
  = (Raise (ValueError TrialsVsLabels), Ex.short_entity_2,
     [NibLoad "mask.nii.gz"; GlobFeat; GlobHeader; ExistsMatDir;
      ExistsMatDir; Makedirs; ReadDesign; Print;
      Glob Stats Cope; Glob Stats Varcope]%string) /\
  Mvp.X (Within.mvp Ex.short_entity_2) = None.
Proof. split; vm_compute; reflexivity. Qed.

(* ================================================================== *)
(** * The reference space *)
(* ================================================================== *)

(** C9, as stated, fails: the tag is tested at within.py:113 and
    between.py:123, after the mask was loaded, the output directory
    created (or deleted and created again) and the design read; and when
    the mask does not load, it is the loader's error that is raised. *)
Lemma invalid_ref_space_after_io :
  (exists e',
     Within.glm2mvp true Ex.within_env Ex.within_fsaverage []
     = (Raise (ValueError InvalidRefSpace), e',
        [NibLoad "mask.nii.gz"; GlobFeat; GlobHeader; ExistsMatDir;
         ExistsMatDir; Makedirs; ReadDesign; Print]%string) /\
     Mvp.mask_index (Within.mvp e') = Some (repeat true 10)) /\
  (exists e',
     Between.glm2mvp true (Ex.converted Ex.between_env) Ex.between_fsaverage []
     = (Raise (ValueError InvalidRefSpace), e',
        [NibLoad "mask.nii.gz"; GlobFeat; GlobHeader; ExistsMatDir;
         Rmtree; Makedirs; ReadDesign; Print]%string) /\
     Mvp.mask_index (Between.mvp e') = Some Ex.between_sel) /\
  (exists e',
     Within.glm2mvp true (Ex.unmasked Ex.within_env) Ex.within_fsaverage []
     = (Raise IOError, e', [NibLoad "mask.nii.gz"%string])).
Proof.
  split; [|split]; eexists; try split; vm_compute; reflexivity.
Qed.

Lemma stats_directory_invalid (env : Env) (m : Mvp.t) (t : list call) :
  Mvp.ref_space m <> "epi"%string ->
  Mvp.ref_space m <> "mni"%string ->
  Fsl2mvp.stats_directory env m t = (Raise (ValueError InvalidRefSpace), m, t).
Proof.
  intros Hepi Hmni. unfold Fsl2mvp.stats_directory.
  rewrite bind_get.
  apply String.eqb_neq in Hepi, Hmni. rewrite Hepi, Hmni. reflexivity.
Qed.

Lemma within_stat_files_invalid (env : Env) (e : Within.t) (t : list call) :
  Mvp.ref_space (Within.mvp e) <> "epi"%string ->
  Mvp.ref_space (Within.mvp e) <> "mni"%string ->
  Within.stat_files env e t = (Raise (ValueError InvalidRefSpace), e, t).
Proof.
  intros Hepi Hmni. unfold Within.stat_files.
  apply bind_raise. unfold Within.on_mvp, zoom.
  rewrite stats_directory_invalid by assumption.
  now rewrite within_set_mvp_same.
Qed.

Lemma between_stat_files_invalid (env : Env) (e : Between.t) (t : list call) :
  Mvp.ref_space (Between.mvp e) <> "epi"%string ->
  Mvp.ref_space (Between.mvp e) <> "mni"%string ->
  Between.stat_files env e t = (Raise (ValueError InvalidRefSpace), e, t).
Proof.
  intros Hepi Hmni. unfold Between.stat_files.
  apply bind_raise. unfold Between.on_mvp, zoom.
  rewrite stats_directory_invalid by assumption.
  now rewrite between_set_mvp_same.
Qed.

(** C9, amended.  An extraction asked for in a reference space other
    than 'epi' and 'mni' never returns: it raises, having listed, read,
    transformed or allocated for no statistic volume and written no file,
    and leaves [X] as it was.  When the steps before the test of the tag
    go through (the mask, the output directory, the labels; the outcome
    file and the metadata in the between-run design), what it raises is
    the "Specify valid reference-space" [ValueError], with the entity and
    the log as those steps left them. *)
Theorem invalid_ref_space_raised_before_stats (env : Env) (flag : bool)
        (log : list call) (w : Within.t) (b : Between.t) :
  Mvp.ref_space (Within.mvp w) <> "epi"%string ->
  Mvp.ref_space (Within.mvp w) <> "mni"%string ->
  Mvp.ref_space (Between.mvp b) <> "epi"%string ->
  Mvp.ref_space (Between.mvp b) <> "mni"%string ->
  (exists x w' new,
     Within.glm2mvp flag env w log = (Raise x, w', log ++ new) /\
     forallb Spec.before_stats new = true /\
     Mvp.X (Within.mvp w') = Mvp.X (Within.mvp w) /\
     forall k w1 log1,
       Within.preamble flag env w log = (Ok k, w1, log1) ->
       x = ValueError InvalidRefSpace /\ w' = w1 /\ log ++ new = log1) /\
  (exists x b' new,
     Between.glm2mvp flag env b log = (Raise x, b', log ++ new) /\
     forallb Spec.before_stats new = true /\
     Mvp.X (Between.mvp b') = Mvp.X (Between.mvp b) /\
     forall k b1 log1,
       Between.preamble flag env b log = (Ok k, b1, log1) ->
       x = ValueError InvalidRefSpace /\ b' = b1 /\ log ++ new = log1).
Proof.
  intros Hw1 Hw2 Hb1 Hb2. split.
  - destruct (Within.preamble flag env w log) as [[r w1] log1] eqn:H1.
    destruct (respects_run _ _ _ _ _ _ _ _ _ _
                (within_preamble_respects flag) H1)
      as ((new & -> & HP) & (HX & Hspace) & _).
    unfold Within.glm2mvp. destruct r as [k|x].
    + step H1. erewrite bind_raise
        by (apply within_stat_files_invalid; congruence).
      exists (ValueError InvalidRefSpace), w1, new.
      repeat split; auto. all: congruence.
    + rewrite (bind_raise _ _ _ _ _ _ _ _ H1).
      exists x, w1, new. repeat split; auto. all: discriminate.
  - destruct (Between.preamble flag env b log) as [[r b1] log1] eqn:H1.
    destruct (respects_run _ _ _ _ _ _ _ _ _ _
                (between_preamble_respects flag) H1)
      as ((new & -> & HP) & (HX & Hspace) & _).
    unfold Between.glm2mvp. destruct r as [k|x].
    + step H1. erewrite bind_raise
        by (apply between_stat_files_invalid; congruence).
      exists (ValueError InvalidRefSpace), b1, new.
      repeat split; auto. all: congruence.
    + rewrite (bind_raise _ _ _ _ _ _ _ _ H1).
      exists x, b1, new. repeat split; auto. all: discriminate.
Qed.

Lemma invalid_ref_space_raised_before_stats_witness :
  (exists x w' new,
     Within.glm2mvp true Ex.within_env Ex.within_fsaverage []
     = (Raise x, w', [] ++ new) /\
     forallb Spec.before_stats new = true /\
     Mvp.X (Within.mvp w') = Mvp.X (Within.mvp Ex.within_fsaverage) /\
     forall k w1 log1,
       Within.preamble true Ex.within_env Ex.within_fsaverage []
       = (Ok k, w1, log1) ->
       x = ValueError InvalidRefSpace /\ w' = w1 /\ [] ++ new = log1) /\
  (exists x b' new,
     Between.glm2mvp true Ex.within_env Ex.between_fsaverage []
     = (Raise x, b', [] ++ new) /\
     forallb Spec.before_stats new = true /\
     Mvp.X (Between.mvp b') = Mvp.X (Between.mvp Ex.between_fsaverage) /\
     forall k b1 log1,
       Between.preamble true Ex.within_env Ex.between_fsaverage []
       = (Ok k, b1, log1) ->
       x = ValueError InvalidRefSpace /\ b' = b1 /\ [] ++ new = log1).
Proof.
  apply (invalid_ref_space_raised_before_stats Ex.within_env true []
           Ex.within_fsaverage Ex.between_fsaverage).
  - simpl. discriminate.
  - simpl. discriminate.
  - simpl. discriminate.
  - simpl. discriminate.
Defined.

(* ------------------------------------------------------------------ *)
(** ** The matrix of the within-run design *)
(* ------------------------------------------------------------------ *)

Lemma set_row_next (ncols : nat) (done rest : list (list f64))
      (old row : list f64) :
  length row = ncols ->
  Np.set_row ncols (done ++ old :: rest) (length done) row
  = Ok (done ++ row :: rest).
Proof.
  intros Hrow. unfold Np.set_row.
  assert (Hle : (length (done ++ old :: rest) <=? length done) = false).
  { apply Nat.leb_gt. rewrite length_app. simpl. lia. }
  rewrite Hle, Hrow, Nat.eqb_refl. f_equal.
  rewrite firstn_app, firstn_all, Nat.sub_diag, firstn_O, app_nil_r.
  f_equal. f_equal.
  replace (S (length done)) with (1 + length done) by lia.
  rewrite <- skipn_skipn, skipn_app, skipn_all, Nat.sub_diag. reflexivity.
Qed.

Lemma get_row_next (done rest : list (list f64)) (row : list f64) :
  Np.get_row (done ++ row :: rest) (length done) = Ok row.
Proof.
  unfold Np.get_row. rewrite nth_error_app2 by lia.
  now rewrite Nat.sub_diag.
Qed.

(** The first loop of the within-run design: the masked values of every
    cope, row after row. *)
Lemma within_load_copes_spec (env : Env) (sel : list bool) :
  forall (copes : list path) (vols : list volume)
         (done rest : list (list f64)) (img : option volume)
         (s : Within.t) (log : list call),
    Mvp.mask_index (Within.mvp s) = Some sel ->
    Forall2 (Spec.loads_as env sel) copes vols ->
    length copes <= length rest ->
    exists log',
      Within.load_copes (length done) copes (Np.count_true sel)
                        (done ++ rest) img env s log
      = (Ok (done ++ map (fun v => Np.select (vdata v) sel) vols
                  ++ skipn (length copes) rest,
             Spec.last_volume img vols),
         s, log').
Proof.
  induction copes as [|cope copes IH];
    intros vols done rest img s log Hsel Hload Hlen;
    inversion_clear Hload as [|? v ? vols' [Hc Hv] Hrest].
  - exists log. reflexivity.
  - destruct rest as [|old rest]; [simpl in Hlen; lia|]. simpl in Hlen.
    cbn [Within.load_copes].
    step (nib_load_ok env _ _ s log Hc).
    erewrite bind_ok by (apply within_attr_ok; exact Hsel).
    erewrite bind_ok
      by (apply lift_ok; unfold Np.bool_index;
          rewrite Hv, Nat.eqb_refl; reflexivity).
    erewrite bind_ok
      by (apply lift_ok, set_row_next, select_length, Hv).
    destruct (IH vols' (done ++ [Np.select (vdata v) sel]) rest (Some v) s
                (log ++ [NibLoad cope]) Hsel Hrest ltac:(lia))
      as [log' Hrun].
    rewrite length_app in Hrun. simpl in Hrun.
    rewrite Nat.add_1_r, <- app_assoc in Hrun. simpl in Hrun.
    exists log'. rewrite Hrun. simpl. now rewrite <- app_assoc.
Qed.

(** The second loop: every row over the root of its masked variances. *)
Lemma within_divide_rows_spec (env : Env) (sel : list bool) :
  forall (varcopes : list path) (vols : list volume)
         (done rest : list (list f64)) (s : Within.t) (log : list call),
    Mvp.mask_index (Within.mvp s) = Some sel ->
    Forall2 (Spec.loads_as env sel) varcopes vols ->
    Forall (fun row => length row = Np.count_true sel) rest ->
    length varcopes <= length rest ->
    exists log',
      Within.divide_rows (length done) varcopes (Np.count_true sel)
                         (done ++ rest) env s log
      = (Ok (done
               ++ map (fun rv =>
                         map (fun p => Np.quotient Float64 (fst p) (snd p))
                             (combine (fst rv)
                                (map (Np.sqrt (vdtype (snd rv)))
                                     (Np.select (vdata (snd rv)) sel))))
                      (combine rest vols)
               ++ skipn (length varcopes) rest),
         s, log').
Proof.
  induction varcopes as [|varcope varcopes IH];
    intros vols done rest s log Hsel Hload Hrows Hlen;
    inversion_clear Hload as [|? v ? vols' [Hc Hv] Hrest].
  - exists log. destruct rest; reflexivity.
  - destruct rest as [|row rest]; [simpl in Hlen; lia|]. simpl in Hlen.
    inversion_clear Hrows as [|? ? Hrow Hrows'].
    cbn [Within.divide_rows].
    step (nib_load_ok env _ _ s log Hc).
    erewrite bind_ok by (apply within_attr_ok; exact Hsel).
    erewrite bind_ok
      by (apply lift_ok; unfold Np.bool_index;
          rewrite Hv, Nat.eqb_refl; reflexivity).
    cbv zeta.
    erewrite bind_ok by (apply lift_ok, get_row_next).
    erewrite bind_ok
      by (apply lift_ok, divide_same_length;
          rewrite length_map, select_length; congruence).
    erewrite bind_ok
      by (apply lift_ok, set_row_next;
          rewrite length_map, length_combine, length_map, select_length, Hrow;
          [apply Nat.min_id | exact Hv]).
    match goal with
    | |- context [Within.divide_rows _ _ _ (done ++ ?r :: rest)] =>
        destruct (IH vols' (done ++ [r]) rest s
                    (log ++ [NibLoad varcope]) Hsel Hrest Hrows' ltac:(lia))
          as [log' Hrun]
    end.
    rewrite length_app in Hrun. cbn [length] in Hrun.
    rewrite Nat.add_1_r, <- app_assoc in Hrun. cbn [app] in Hrun.
    exists log'. rewrite Hrun. cbn [combine map skipn length app fst snd].
    now rewrite <- app_assoc.
Qed.

Lemma within_mvp_set_mvp (m : Mvp.t) (s : Within.t) :
  Within.mvp (Within.set_mvp m s) = m.
Proof. destruct s as [[m0 cl ri] a b c d e f]. reflexivity. Qed.

Lemma within_set_mvp_twice (m m' : Mvp.t) (s : Within.t) :
  Within.set_mvp m' (Within.set_mvp m s) = Within.set_mvp m' s.
Proof. destruct s as [[m0 cl ri] a b c d e f]. reflexivity. Qed.

Lemma last_volume_some (img : option volume) (vols : list volume) :
  vols <> [] -> exists last, Spec.last_volume img vols = Some last.
Proof.
  unfold Spec.last_volume. revert img.
  induction vols as [|v vols IH]; intros img H; [congruence|].
  simpl. destruct vols as [|v' vols'].
  - simpl. eauto.
  - apply IH. discriminate.
Qed.

Lemma divided_rows_are_blocks (sel : list bool) (vols : list (volume * volume)) :
  map (fun rv =>
         map (fun p => Np.quotient Float64 (fst p) (snd p))
             (combine (fst rv) (map (Np.sqrt (vdtype (snd rv)))
                                     (Np.select (vdata (snd rv)) sel))))
      (combine (map (fun v => Np.select (vdata v) sel) (map fst vols))
               (map snd vols))
  = map (Spec.row true sel) vols.
Proof.
  induction vols as [|[cv vv] vols IH]; [reflexivity|].
  cbn [map combine fst snd]. now rewrite IH.
Qed.

Lemma selected_rows_are_blocks (sel : list bool) (vols : list (volume * volume)) :
  map (fun v => Np.select (vdata v) sel) (map fst vols)
  = map (Spec.row false sel) vols.
Proof. now rewrite map_map. Qed.

Lemma loads_as_length (env : Env) (sel : list bool) (files : list path)
      (vols : list volume) :
  Forall2 (Spec.loads_as env sel) files vols ->
  Forall (fun v => length (vdata v) = length sel) vols.
Proof. induction 1 as [|p v ps vs [_ Hv] _ IH]; constructor; auto. Qed.

(** within.py:151-192 on volumes that load and have the geometry of the
    mask: [X] is the matrix of one row per cope, the masked effects (over
    the root of the masked variances when the conversion is on), NaN
    replaced by 0. *)
Lemma within_fill_spec (env : Env) (sel : list bool) (b : bool) (k : nat)
      (copes varcopes : list path) (vols : list (volume * volume))
      (s s1 : Within.t) (log log1 : list call) :
  Within.on_mvp (Fsl2mvp.peek copes) env s log = (Ok tt, s1, log1) ->
  Mvp.mask_index (Within.mvp s1) = Some sel ->
  Mvp.n_features (Within.mvp s1) = Some (Np.count_true sel) ->
  Mvp.beta2tstat (Within.mvp s1) = b ->
  Spec.trials_load env b sel copes varcopes vols ->
  vols <> [] ->
  exists log' last,
    Spec.last_volume None (map fst vols) = Some last /\
    Within.fill k copes varcopes env s log
    = (Ok tt,
       Within.set_mvp
         (Mvp.set_X
            (Some (Mat (length copes) (Np.count_true sel)
                       (map (fun v => Np.nan_to_zero (Spec.row b sel v)) vols)))
            (Mvp.set_affine (Some (vaffine last))
               (Mvp.set_nifti_header (Some (vheader last)) (Within.mvp s1))))
         s1,
       log').
Proof.
  intros Hpeek Hsel Hnf Hb [Hcopes Hvars] Hne.
  assert (Hne' : map fst vols <> []) by (destruct vols; [congruence|discriminate]).
  destruct (last_volume_some None _ Hne') as [last Hlast].
  pose proof (Forall2_length Hcopes) as Hn. rewrite length_map in Hn.
  unfold Within.fill. cbv zeta.
  step Hpeek.
  erewrite bind_ok by (apply within_attr_ok; exact Hnf).
  rewrite bind_emit.
  destruct (within_load_copes_spec env sel copes (map fst vols) []
              (repeat (Np.zeros (Np.count_true sel)) (length copes)) None s1
              (log1 ++ [NpZeros [length copes; Np.count_true sel]])
              Hsel Hcopes) as [log2 Hrun].
  { now rewrite repeat_length. }
  simpl app in Hrun. simpl length in Hrun. step Hrun. clear Hrun.
  rewrite skipn_all2, app_nil_r by (now rewrite repeat_length).
  rewrite Hlast.
  unfold Within.on_mvp at 1, zoom, Fsl2mvp.keep_geometry.
  unfold bind at 1. simpl some_or. rewrite bind_ret, bind_modify.
  unfold modify at 1. rewrite bind_get.
  rewrite within_mvp_set_mvp. simpl Mvp.beta2tstat. rewrite Hb.
  set (s2 := Within.set_mvp _ s1).
  assert (Hsel2 : Mvp.mask_index (Within.mvp s2) = Some sel).
  { subst s2. now rewrite within_mvp_set_mvp. }
  destruct b.
  - specialize (Hvars eq_refl).
    pose proof (Forall2_length Hvars) as Hn'. rewrite length_map in Hn'.
    destruct (within_divide_rows_spec env sel varcopes (map snd vols) []
                (map (fun v => Np.select (vdata v) sel) (map fst vols))
                s2 log2 Hsel2 Hvars) as [log3 Hrun].
    { apply Forall_map. eapply Forall_impl; [|exact (loads_as_length _ _ _ _ Hcopes)].
      intros v Hv. now apply select_length. }
    { now rewrite !length_map, Hn'. }
    simpl app in Hrun. simpl length in Hrun. step Hrun. clear Hrun.
    rewrite divided_rows_are_blocks.
    rewrite skipn_all2, app_nil_r by (rewrite !length_map; lia).
    cbv zeta. unfold Within.on_mvp, zoom, Fsl2mvp.store.
    rewrite !bind_emit, bind_modify. unfold emit. subst s2.
    rewrite within_mvp_set_mvp, within_set_mvp_twice, map_map.
    do 2 eexists. split; [reflexivity|]. reflexivity.
  - rewrite bind_ret. rewrite selected_rows_are_blocks.
    cbv zeta. unfold Within.on_mvp, zoom, Fsl2mvp.store.
    rewrite !bind_emit, bind_modify. unfold emit. subst s2.
    rewrite within_mvp_set_mvp, within_set_mvp_twice, map_map.
    do 2 eexists. split; [reflexivity|]. reflexivity.
Qed.

(** within.py:79-110 leaves the mask as the build left it. *)
Lemma within_preamble_facts (env : Env) (flag : bool) (e e1 : Within.t)
      (log log1 : list call) (k : nat) :
  Within.preamble flag env e log = (Ok k, e1, log1) ->
  Mvp.beta2tstat (Within.mvp e1) = Mvp.beta2tstat (Within.mvp e) /\
  match Mvp.mask_path (Within.mvp e) with
  | None => Mvp.mask_path (Within.mvp e1) = None
  | Some _ =>
      Mvp.mask_path (Within.mvp e1) <> None /\
      exists sel, Mvp.mask_index (Within.mvp e1) = Some sel /\
                  Mvp.n_features (Within.mvp e1) = Some (Np.count_true sel)
  end.
Proof.
  unfold Within.preamble, Within.on_mvp, Within.super, zoom,
    Fsl2mvp.reset_mat_dir, Fsl2mvp._extract_labels,
    Within._update_metadata, Within.contrast_labels, Within.on_mvp, zoom,
    lift, bind, get, ask, emit, some_or, modify, ret, raise.
  intros H. destruct e as [[m cl ri] a b c d f g].
  split_runs;
    repeat match goal with u : unit |- _ => destruct u end;
    match goal with
    | E : Fsl2mvp.load_mask _ _ _ = _ |- _ =>
        apply load_mask_built in E; destruct E as (Hb & Hr & HX & Hm)
    end;
    unfold Within.mvp in *; simpl in *; repeat split; eauto;
    revert Hm; destruct (Mvp.mask_path m) eqn:Hp; intros; subst; auto.
Qed.

(** within.py:112-143 writes nothing to the entity. *)
Lemma within_stat_files_facts (env : Env) (e1 e2 : Within.t)
      (log1 log2 : list call) (copes varcopes : list path) :
  Within.stat_files env e1 log1 = (Ok (copes, varcopes), e2, log2) ->
  e2 = e1.
Proof.
  unfold Within.stat_files, Within.on_mvp, Within.super, zoom,
    Fsl2mvp.stats_directory, Fsl2mvp.list_stats, Fsl2mvp.remove_excluded,
    Fsl2mvp.to_mni, lift,
    bind, get, ask, emit, some_or, modify, ret, raise.
  intros H. destruct e1 as [[m cl ri] a b c d f g].
  split_runs; reflexivity.
Qed.

(** The peek leaves a mask whose feature count is its number of true
    entries, when the build had left one or when none was given. *)
Lemma within_peek_facts (env : Env) (copes : list path) (e2 e3 : Within.t)
      (log2 log3 : list call) :
  Within.on_mvp (Fsl2mvp.peek copes) env e2 log2 = (Ok tt, e3, log3) ->
  Within.base e3 = Fsl2mvp.set_mvp (Within.mvp e3) (Within.base e2) /\
  Mvp.beta2tstat (Within.mvp e3) = Mvp.beta2tstat (Within.mvp e2) /\
  match Mvp.mask_path (Within.mvp e2) with
  | Some _ => Within.mvp e3 = Within.mvp e2
  | None =>
      exists sel, Mvp.mask_index (Within.mvp e3) = Some sel /\
                  Mvp.n_features (Within.mvp e3) = Some (Np.count_true sel)
  end.
Proof.
  unfold Within.on_mvp, zoom, Fsl2mvp.peek, Fsl2mvp.nib_load,
    bind, get, ask, emit, some_or, modify, ret, raise.
  intros H. destruct e2 as [[m cl ri] a b c d f g].
  unfold Within.mvp in *.
  split_runs; unfold Within.mvp; simpl; repeat split; auto;
    repeat match goal with
           | H : Mvp.mask_path _ = _ |- _ => rewrite H; clear H
           end;
    simpl; auto;
    (eexists; split; [reflexivity | now rewrite count_true_repeat_true]).
Qed.

Lemma trials_block_length (env : Env) (b : bool) (sel : list bool)
      (copes varcopes : list path) (vols : list (volume * volume)) :
  Spec.trials_load env b sel copes varcopes vols ->
  Forall (fun v => length (Spec.row b sel v) = Np.count_true sel) vols.
Proof.
  intros [Hcopes Hvars].
  apply loads_as_length in Hcopes. rewrite Forall_map in Hcopes.
  assert (Hv : b = true ->
               Forall (fun v => length (vdata (snd v)) = length sel) vols).
  { intros Hb. specialize (Hvars Hb).
    apply loads_as_length in Hvars. now rewrite Forall_map in Hvars. }
  rewrite Forall_forall in Hcopes. apply Forall_forall. intros v Hin.
  apply row_length; auto.
  intros Hb. specialize (Hv Hb). rewrite Forall_forall in Hv.
  rewrite (Hcopes v Hin). auto.
Qed.

(** within.py:145-192: the rows of [X] are the rows of the trials. *)
Lemma within_rows_spec (env : Env) (flag : bool)
      (e e1 e2 e3 : Within.t) (log log1 log2 log3 : list call) (k : nat)
      (copes varcopes : list path) (vols : list (volume * volume))
      (sel : list bool) (cl : list string) :
  Within.preamble flag env e log = (Ok k, e1, log1) ->
  Within.stat_files env e1 log1 = (Ok (copes, varcopes), e2, log2) ->
  Fsl2mvp.contrast_labels (Within.base e2) = Some cl ->
  length copes = length cl ->
  Within.on_mvp (Fsl2mvp.peek copes) env e2 log2 = (Ok tt, e3, log3) ->
  Mvp.mask_index (Within.mvp e3) = Some sel ->
  Spec.trials_load env (Mvp.beta2tstat (Within.mvp e)) sel copes varcopes vols ->
  vols <> [] ->
  exists e' log' rows,
    Within.glm2mvp flag env e log = (Ok tt, e', log') /\
    Mvp.mask_index (Within.mvp e') = Some sel /\
    Mvp.n_features (Within.mvp e') = Some (Np.count_true sel) /\
    Mvp.X (Within.mvp e') = Some (Mat (length cl) (Np.count_true sel) rows) /\
    rows = map (fun v => Np.nan_to_zero
                           (Spec.row (Mvp.beta2tstat (Within.mvp e)) sel v))
               vols /\
    length rows = length cl /\
    Forall (fun row => length row = Np.count_true sel) rows.
Proof.
  intros H1 H2 Hcl Hlen Hpeek Hsel Hload Hne.
  destruct (within_preamble_facts _ _ _ _ _ _ _ H1) as (A1 & A2).
  pose proof (within_stat_files_facts _ _ _ _ _ _ _ H2) as ->.
  destruct (within_peek_facts _ _ _ _ _ _ Hpeek) as (B0 & B1 & B2).
  assert (Hnf : Mvp.n_features (Within.mvp e3) = Some (Np.count_true sel)).
  { destruct (Mvp.mask_path (Within.mvp e)).
    - destruct A2 as [A2 (sel' & A3 & A4)].
      destruct (Mvp.mask_path (Within.mvp e1)); [|congruence].
      rewrite B2 in *. congruence.
    - rewrite A2 in B2. destruct B2 as (sel' & B2 & B3). congruence. }
  assert (Hb : Mvp.beta2tstat (Within.mvp e3) = Mvp.beta2tstat (Within.mvp e))
    by congruence.
  pose proof (trials_block_length _ _ _ _ _ _ Hload) as Hrows.
  destruct (within_fill_spec env sel _ k copes varcopes vols e1 e3 log2 log3
              Hpeek Hsel Hnf Hb Hload Hne) as (log' & last & Hlast & Hrun).
  rewrite (within_glm2mvp_unfold _ _ _ _ _ _ _ _ _ _ _ H1 H2).
  assert (Hasm : Within.assemble k copes varcopes env e1 log2
                 = Within.fill k copes varcopes env e1 log2).
  { unfold Within.assemble, Within.contrast_labels.
    rewrite bind_assoc, bind_get, Hcl. simpl some_or. rewrite bind_ret.
    now rewrite Hlen, Nat.eqb_refl. }
  rewrite Hasm, Hrun, Hlen.
  destruct Hload as [Hcopes _].
  pose proof (Forall2_length Hcopes) as Hn. rewrite length_map in Hn.
  do 3 eexists. split; [reflexivity|].
  rewrite within_mvp_set_mvp. simpl.
  repeat split; auto.
  - rewrite length_map. congruence.
  - apply Forall_map. eapply Forall_impl; [|exact Hrows].
    intros v Hv. simpl in *. now rewrite nan_to_zero_length.
Qed.



Lemma tstat_block_not_nan (dq : dtype) (sel : list bool)
      (vols : volume * volume) :
  Forall (fun x => f64_isnan x = false) (Spec.tstat_block dq sel vols).
Proof.
  unfold Spec.tstat_block. apply Forall_map, Forall_forall.
  intros p _. apply tstat_not_nan.
Qed.

(** C5, amended.  With the conversion on, an extraction that goes
    through stores, for every pair of an effect volume and its variance
    volume, the masked effects divided elementwise by the square root of
    the masked variances, every NaN entry of the quotient replaced by 0:
    as the rows of [X] in the within-run design, where the division is
    done in float64, and as the consecutive slices of [X] in the
    between-run design, where it is done in the common dtype of the two
    volumes; the root is taken in the dtype of the variance volume.  No
    stored entry is NaN, and an entry whose quotient is not NaN is that
    quotient, infinite or not.  Effect [4.0] with variance [4.0] gives
    [2.0], effect [0.0] with variance [0.0] gives [0.0], and effect
    [4.0] with variance [0.0] gives [inf], in either precision and in
    both designs. *)
Theorem beta2tstat_divides_and_zeroes_nan :
  (forall (env : Env) (flag : bool) (e e1 e2 e3 : Within.t)
          (log log1 log2 log3 : list call) (k : nat)
          (copes varcopes : list path) (vols : list (volume * volume))
          (sel : list bool) (cl : list string),
     Mvp.beta2tstat (Within.mvp e) = true ->
     Within.preamble flag env e log = (Ok k, e1, log1) ->
     Within.stat_files env e1 log1 = (Ok (copes, varcopes), e2, log2) ->
     Fsl2mvp.contrast_labels (Within.base e2) = Some cl ->
     length copes = length cl ->
     Within.on_mvp (Fsl2mvp.peek copes) env e2 log2 = (Ok tt, e3, log3) ->
     Mvp.mask_index (Within.mvp e3) = Some sel ->
     Spec.trials_load env true sel copes varcopes vols ->
     vols <> [] ->
     exists e' log' rows,
       Within.glm2mvp flag env e log = (Ok tt, e', log') /\
       Mvp.X (Within.mvp e')
       = Some (Mat (length cl) (Np.count_true sel) rows) /\
       rows = map (Spec.tstat_block Float64 sel) vols /\
       Forall (Forall (fun x => f64_isnan x = false)) rows) /\
  (forall (env : Env) (flag : bool) (e e1 e2 : Between.t)
          (log log1 log2 : list call) (k : nat)
          (copes varcopes : list path) (vols : list (volume * volume))
          (sel : list bool) (cl : list string),
     Mvp.beta2tstat (Between.mvp e) = true ->
     Between.preamble flag env e log = (Ok k, e1, log1) ->
     Between.stat_files env e1 log1 = (Ok (copes, varcopes), e2, log2) ->
     Mvp.mask_index (Between.mvp e2) = Some sel ->
     Fsl2mvp.contrast_labels (Between.base e2) = Some cl ->
     length vols <= length cl ->
     vols <> [] ->
     Forall2 (Spec.pair_loads env true sel) (combine copes varcopes) vols ->
     exists e' log' x,
       Between.glm2mvp flag env e log = (Ok tt, e', log') /\
       Mvp.X (Between.mvp e') = Some (Vec x) /\
       Forall (fun v => f64_isnan v = false) x /\
       forall i, i < length vols ->
         Spec.slice x (i * Np.count_true sel) (Np.count_true sel)
         = let v := nth i vols (Spec.no_volume, Spec.no_volume) in
           Spec.tstat_block (Spec.between_dtype v) sel v) /\
  (forall (dq dv : dtype) (effect variance : f64),
     let q := Np.quotient dq effect (Np.sqrt dv variance) in
     (f64_isnan q = true -> Spec.tstat dq dv effect variance = lit 0) /\
     (f64_isnan q = false -> Spec.tstat dq dv effect variance = q)) /\
  (forall dq dv : dtype,
     Spec.tstat dq dv (lit 4) (lit 4) = lit 2 /\
     Spec.tstat dq dv (lit 0) (lit 0) = lit 0 /\
     Spec.tstat dq dv (lit 4) (lit 0) = f64_inf) /\
  Ex.within_X (Ex.one_voxel 4 4) Ex.within_whole
  = (Ok tt, Some (Mat 1 1 [[lit 2]])) /\
  Ex.between_X (Ex.one_voxel 4 4) Ex.between_whole
  = (Ok tt, Some (Vec [lit 2])) /\
  Ex.within_X (Ex.one_voxel 0 0) Ex.within_whole
  = (Ok tt, Some (Mat 1 1 [[lit 0]])) /\
  Ex.between_X (Ex.one_voxel 0 0) Ex.between_whole
  = (Ok tt, Some (Vec [lit 0])) /\
  Ex.within_X (Ex.one_voxel 4 0) Ex.within_whole
  = (Ok tt, Some (Mat 1 1 [[f64_inf]])) /\
  Ex.between_X (Ex.one_voxel 4 0) Ex.between_whole
  = (Ok tt, Some (Vec [f64_inf])).
Proof.
  split; [|split; [|split; [|split]]].
  - intros env flag e e1 e2 e3 log log1 log2 log3 k copes varcopes vols
           sel cl Hb H1 H2 Hcl Hlen Hpeek Hsel Hload Hne.
    rewrite <- Hb in Hload.
    destruct (within_rows_spec env flag e e1 e2 e3 log log1 log2 log3 k
                copes varcopes vols sel cl H1 H2 Hcl Hlen Hpeek Hsel Hload Hne)
      as (e' & log' & rows & Hrun & _ & _ & HX & Hrows & _).
    exists e', log', rows.
    assert (Heq : rows = map (Spec.tstat_block Float64 sel) vols).
    { rewrite Hrows, Hb. apply map_ext. intros v. apply nan_to_zero_row. }
    split; [exact Hrun|]. split; [exact HX|]. split; [exact Heq|].
    rewrite Heq. apply Forall_map, Forall_forall. intros v _.
    apply tstat_block_not_nan.
  - intros env flag e e1 e2 log log1 log2 k copes varcopes vols sel cl.
    apply between_slices_spec.
  - intros dq dv effect variance q. unfold Spec.tstat. fold q.
    split; intros ->; reflexivity.
  - intros [] []; repeat split; vm_compute; reflexivity.
  - repeat split; vm_compute; reflexivity.
Qed.

(** The precision of the two designs on the float32 volumes of
    [Ex.one_voxel], effect [1.0] and variance [2.0]: the root is
    [float32(sqrt 2)] in both; the within-run design divides the float64
    row by it, the between-run design divides in float32. *)
Example within_root_in_float32 :
  Ex.within_X (Ex.one_voxel 1 2) Ex.within_whole
  = (Ok tt, Some (Mat 1 1 [[lit 0x1.6a09e6cfe779bp-1]])).
Proof. vm_compute. reflexivity. Qed.

Example between_quotient_in_float32 :
  Ex.between_X (Ex.one_voxel 1 2) Ex.between_whole
  = (Ok tt, Some (Vec [lit 0x1.6a09e6p-1])).
Proof. vm_compute. reflexivity. Qed.

(** A quotient beyond the largest float32 is infinite in the
    between-run design and finite in the within-run design. *)
Example between_quotient_overflows_float32 :
  Ex.between_X (Ex.one_voxel 0x1p100 0x1p-100) Ex.between_whole
  = (Ok tt, Some (Vec [f64_inf])) /\
  Ex.within_X (Ex.one_voxel 0x1p100 0x1p-100) Ex.within_whole
  = (Ok tt, Some (Mat 1 1 [[lit 0x1p150]])).
Proof. split; vm_compute; reflexivity. Qed.


(** X17.  With no pair of volumes the between-run [glm2mvp] does not return:
    between.py:186 reads a [cope_img] that no iteration has bound. *)
Lemma between_no_pair_raises (env : Env) (flag : bool)
      (e e1 e2 : Between.t) (log log1 log2 : list call) (k : nat)
      (copes varcopes : list path) :
  Between.preamble flag env e log = (Ok k, e1, log1) ->
  Between.stat_files env e1 log1 = (Ok (copes, varcopes), e2, log2) ->
  combine copes varcopes = [] ->
  exists e' log',
    Between.glm2mvp flag env e log = (Raise UnboundLocalError, e', log').
Proof.
  intros H1 H2 Hnone.
  destruct (between_prefix_facts _ _ _ _ _ _ _ _ _ _ _ H1 H2)
    as (_ & _ & _ & _ & (cl & Hcl) & (sel & Hsel & Hnf)).
  rewrite (between_glm2mvp_unfold _ _ _ _ _ _ _ _ _ _ _ H1 H2).
  unfold Between.assemble.
  erewrite bind_ok by (apply between_attr_ok; exact Hnf).
  unfold Between.contrast_labels.
  rewrite bind_assoc, bind_get, Hcl. simpl some_or.
  rewrite bind_ret, bind_emit, Hnone.
  cbn [Between.load_copes]. rewrite bind_ret.
  unfold Between.on_mvp at 1, zoom, Fsl2mvp.keep_geometry.
  unfold bind at 1. simpl. eauto.
Qed.

(* ================================================================== *)
(** * Further properties: Mvp.update_mask *)
(* ================================================================== *)

Lemma narrow_narrow (sel a b : list bool) :
  Spec.narrow (Spec.narrow sel a) b = Spec.narrow sel (Spec.narrow a b).
Proof.
  revert a b; induction sel as [|[] sel IH]; intros a b; simpl.
  - reflexivity.
  - destruct a as [|[] a]; simpl.
    + rewrite (IH [] b). now destruct b; simpl; f_equal.
    + destruct b as [|y b]; simpl; now rewrite IH.
    + now rewrite IH.
  - now rewrite IH.
Qed.

(** X1.  Two narrowings in a row are one narrowing by the composed index:
    on a built mask, [update_mask(a)] with [n_features] entries followed
    by [update_mask(b)] with one entry per voxel that [a] kept both
    succeed, and leave the entity that the single call with the index
    "[a] narrowed by [b]" leaves. *)
Theorem update_mask_twice_composes E V (env : E) (log : list V)
        (e : Mvp.t) (nf : nat) (a b : list bool) :
  Spec.mask_built e ->
  Mvp.n_features e = Some nf ->
  length a = nf ->
  length b = Np.count_true a ->
  exists e1 e2,
    Mvp.update_mask a env e log = (Ok tt, e1, log) /\
    Mvp.update_mask b env e1 log = (Ok tt, e2, log) /\
    Mvp.update_mask (Spec.narrow a b) env e log = (Ok tt, e2, log).
Proof.
  intros Hb Hn Ha Hlen.
  destruct (mask_built_inv e Hb) as (sel & shape & Hsel & Hshape & Hnf & Hsize).
  assert (Hc : length a = Np.count_true sel) by congruence.
  exists (Mvp.set_mask_index (Some (Spec.narrow sel a)) e),
         (Mvp.set_mask_index (Some (Spec.narrow sel (Spec.narrow a b))) e).
  split; [apply update_mask_narrows with (shape := shape); auto|].
  split.
  - rewrite (update_mask_narrows E V env log _ (Spec.narrow sel a) b shape);
      simpl; auto.
    + now rewrite narrow_narrow.
    + now rewrite narrow_length.
    + now rewrite narrow_count.
  - apply update_mask_narrows with (shape := shape); auto.
    now rewrite narrow_length.
Qed.

Lemma update_mask_twice_composes_witness :
  exists e1 e2,
    Mvp.update_mask [true; false; true] tt Ex.three_of_four (@nil unit)
    = (Ok tt, e1, []) /\
    Mvp.update_mask [false; true] tt e1 (@nil unit) = (Ok tt, e2, []) /\
    Mvp.update_mask (Spec.narrow [true; false; true] [false; true]) tt
                    Ex.three_of_four (@nil unit)
    = (Ok tt, e2, []).
Proof.
  apply (update_mask_twice_composes unit unit tt [] Ex.three_of_four 3
           [true; false; true] [false; true]).
  - unfold Spec.mask_built; simpl; split; reflexivity.
  - reflexivity.
  - reflexivity.
  - reflexivity.
Defined.

(** X2.  After a narrowing that dropped a voxel, the size a further index
    must have is the number of voxels still selected, not [n_features]:
    an index with [n_features] entries is refused with the "Shape of new
    index" error, and the entity stays as the first call left it. *)
Theorem update_mask_refuses_old_size E V (env : E) (log : list V)
        (e : Mvp.t) (nf : nat) (a b : list bool) :
  Spec.mask_built e ->
  Mvp.n_features e = Some nf ->
  length a = nf ->
  In false a ->
  length b = nf ->
  exists e1,
    Mvp.update_mask a env e log = (Ok tt, e1, log) /\
    Mvp.n_features e1 = Some nf /\
    Mvp.update_mask b env e1 log = (Raise (ValueError ShapeOfNewIndex), e1, log).
Proof.
  intros Hb Hn Ha Hfalse Hlen.
  destruct (mask_built_inv e Hb) as (sel & shape & Hsel & Hshape & Hnf & Hsize).
  assert (Hc : length a = Np.count_true sel) by congruence.
  exists (Mvp.set_mask_index (Some (Spec.narrow sel a)) e).
  split; [apply update_mask_narrows with (shape := shape); auto|].
  split; [exact Hn|].
  apply update_mask_refuses with (sel := Spec.narrow sel a); [reflexivity|].
  rewrite narrow_count by assumption.
  pose proof (count_true_lt_length a Hfalse). lia.
Qed.

Lemma update_mask_refuses_old_size_witness :
  exists e1,
    Mvp.update_mask [true; false; true] tt Ex.three_of_four (@nil unit)
    = (Ok tt, e1, []) /\
    Mvp.n_features e1 = Some 3 /\
    Mvp.update_mask [true; true; true] tt e1 (@nil unit)
    = (Raise (ValueError ShapeOfNewIndex), e1, []).
Proof.
  apply (update_mask_refuses_old_size unit unit tt [] Ex.three_of_four 3
           [true; false; true] [true; true; true]).
  - unfold Spec.mask_built; simpl; split; reflexivity.
  - reflexivity.
  - reflexivity.
  - simpl. auto.
  - reflexivity.
Defined.

(* ================================================================== *)
(** * Further properties: the exclusion by position *)
(* ================================================================== *)

Lemma keep_from_all_below {A} (l : list A) (k : nat) (idxs : list nat) :
  Forall (fun x => x < k) idxs -> Cover.keep_from k idxs l = l.
Proof.
  revert k; induction l as [|x l IH]; intros k H; simpl; [reflexivity|].
  replace (existsb (Nat.eqb k) idxs) with false.
  - f_equal. apply IH. eapply Forall_impl; [|exact H]. simpl; lia.
  - symmetry. apply not_true_is_false. intros Hex.
    apply existsb_exists in Hex as (j & Hj & Hjk).
    apply Nat.eqb_eq in Hjk. subst j.
    rewrite Forall_forall in H. specialize (H _ Hj). lia.
Qed.

Lemma keep_from_ext {A} (l : list A) (k : nat) (a b : list nat) :
  (forall j, In j a <-> In j b) ->
  Cover.keep_from k a l = Cover.keep_from k b l.
Proof.
  intros Hab. revert k; induction l as [|x l IH]; intros k; simpl;
    [reflexivity|].
  assert (Hex : existsb (Nat.eqb k) a = existsb (Nat.eqb k) b).
  { apply eq_true_iff_eq. rewrite !existsb_exists.
    split; intros (j & Hj & Hjk); exists j; split; auto; now apply Hab. }
  rewrite Hex, IH. reflexivity.
Qed.

Lemma pop_in_range {A} (l : list A) (i : nat) :
  i < length l ->
  exists l1, Py.pop l i = Ok l1 /\ S (length l1) = length l /\
    forall k rest, Forall (fun x => x < k + i) rest ->
      Cover.keep_from k rest l1 = Cover.keep_from k (k + i :: rest) l.
Proof.
  revert i; induction l as [|x l IH]; intros i Hi; simpl in Hi; [lia|].
  destruct i as [|i].
  - exists l. split; [reflexivity|]. split; [reflexivity|].
    intros k rest Hrest. simpl.
    rewrite Nat.add_0_r in *. rewrite Nat.eqb_refl. simpl.
    rewrite keep_from_all_below by exact Hrest.
    rewrite keep_from_all_below; [reflexivity|].
    constructor; [lia|]. eapply Forall_impl; [|exact Hrest]. simpl; lia.
  - destruct (IH i) as (l1 & Hp & Hlen & Hk); [lia|].
    exists (x :: l1). simpl. rewrite Hp.
    split; [reflexivity|]. split; [now rewrite Hlen|].
    intros k rest Hrest.
    change (Cover.keep_from k (k + S i :: rest) (x :: l))
      with (if Nat.eqb k (k + S i) || existsb (Nat.eqb k) rest
            then Cover.keep_from (S k) (k + S i :: rest) l
            else x :: Cover.keep_from (S k) (k + S i :: rest) l).
    replace (Nat.eqb k (k + S i)) with false
      by (symmetry; apply Nat.eqb_neq; lia).
    simpl orb.
    replace (k + S i) with (S k + i) in * by lia.
    rewrite Hk by exact Hrest. reflexivity.
Qed.

Lemma pop_out_of_range {A} (l : list A) (i : nat) :
  length l <= i -> Py.pop l i = Raise IndexError.
Proof.
  revert i; induction l as [|x l IH]; intros i Hi; [reflexivity|].
  simpl in Hi. destruct i as [|i]; [lia|]. simpl.
  rewrite IH by lia. reflexivity.
Qed.

Lemma pop_each_desc {A} (d : list nat) (l : list A) :
  Cover.desc d ->
  Forall (fun i => i < length l) d ->
  Py.pop_each l d = Ok (Cover.without d l) /\
  length (Cover.without d l) + length d = length l.
Proof.
  revert l; induction d as [|i d IH]; intros l Hd Hr.
  - simpl. unfold Cover.without. rewrite keep_from_all_below by constructor.
    split; [reflexivity | lia].
  - destruct Hd as [Hlt Hd]. inversion Hr as [|? ? Hi Hr']; subst.
    destruct (pop_in_range l i Hi) as (l1 & Hp & Hlen & Hk).
    simpl. rewrite Hp.
    destruct (IH l1 Hd) as [He Hl].
    { rewrite Forall_forall in *. intros j Hj. specialize (Hlt j Hj). lia. }
    unfold Cover.without in *.
    specialize (Hk 0 d Hlt). simpl in Hk. rewrite <- Hk.
    split; [exact He|]. simpl. lia.
Qed.

Lemma insert_desc_in (x : nat) (l : list nat) (j : nat) :
  In j (Py.insert_desc x l) <-> j = x \/ In j l.
Proof.
  induction l as [|h t IH]; simpl.
  - intuition.
  - destruct (h <=? x); simpl; [intuition|]. rewrite IH. intuition.
Qed.

Lemma insert_desc_desc (x : nat) (l : list nat) :
  Cover.desc l -> ~ In x l -> Cover.desc (Py.insert_desc x l).
Proof.
  induction l as [|h t IH]; intros Hd Hx; simpl.
  - split; [constructor | exact I].
  - destruct Hd as [Hlt Hd]. destruct (Nat.leb_spec h x) as [Hle|Hgt].
    + assert (Hhx : h < x) by (assert (h <> x) by (intros ->; apply Hx; now left); lia).
      split; [|split; assumption].
      constructor; [exact Hhx|].
      eapply Forall_impl; [|exact Hlt]. simpl; lia.
    + split.
      * apply Forall_forall. intros j Hj. apply insert_desc_in in Hj.
        destruct Hj as [->|Hj]; [exact Hgt|].
        rewrite Forall_forall in Hlt. now apply Hlt.
      * apply IH; [exact Hd|]. intros Hin. apply Hx. now right.
Qed.

Lemma sorted_reverse_in (idx : list nat) (j : nat) :
  In j (Py.sorted_reverse idx) <-> In j idx.
Proof.
  induction idx as [|x t IH]; simpl; [reflexivity|].
  rewrite insert_desc_in, IH. intuition.
Qed.

Lemma sorted_reverse_desc (idx : list nat) :
  NoDup idx -> Cover.desc (Py.sorted_reverse idx).
Proof.
  induction 1 as [|x t Hx Hnd IH]; simpl; [exact I|].
  apply insert_desc_desc; [exact IH|]. now rewrite sorted_reverse_in.
Qed.

Lemma insert_desc_length (x : nat) (l : list nat) :
  length (Py.insert_desc x l) = S (length l).
Proof.
  induction l as [|h t IH]; simpl; [reflexivity|].
  destruct (h <=? x); simpl; [reflexivity | now rewrite IH].
Qed.

Lemma sorted_reverse_length (idx : list nat) :
  length (Py.sorted_reverse idx) = length idx.
Proof.
  induction idx as [|x t IH]; simpl; [reflexivity|].
  now rewrite insert_desc_length, IH.
Qed.

Lemma sorted_reverse_head (idx : list nat) (i : nat) :
  In i idx ->
  exists m rest, Py.sorted_reverse idx = m :: rest /\ i <= m.
Proof.
  induction idx as [|x t IH]; intros Hi; [destruct Hi|].
  simpl.
  assert (Hins : forall l, exists m rest,
             Py.insert_desc x l = m :: rest /\ x <= m /\
             (forall h r, l = h :: r -> h <= m)).
  { intros [|h r]; simpl.
    - exists x, []. repeat split; [lia | discriminate].
    - destruct (Nat.leb_spec h x).
      + exists x, (h :: r). repeat split; [lia|].
        intros ? ? [= <- <-]. assumption.
      + eexists h, _. repeat split; [lia|].
        intros ? ? [= <- <-]. lia. }
  destruct (Hins (Py.sorted_reverse t)) as (m & rest & Hm & Hxm & Hh).
  exists m, rest. split; [exact Hm|].
  destruct Hi as [->|Hi]; [exact Hxm|].
  destruct (IH Hi) as (m' & rest' & Hm' & Hle).
  specialize (Hh _ _ Hm'). lia.
Qed.

Lemma pop_each_excludes {A} (idx : list nat) (l : list A) :
  NoDup idx ->
  (forall i, In i idx -> i < length l) ->
  Py.pop_each l (Py.sorted_reverse idx) = Ok (Cover.without idx l) /\
  length (Cover.without idx l) + length idx = length l.
Proof.
  intros Hnd Hr.
  destruct (pop_each_desc (Py.sorted_reverse idx) l) as [He Hl].
  - now apply sorted_reverse_desc.
  - apply Forall_forall. intros i Hi. apply Hr. now apply sorted_reverse_in.
  - unfold Cover.without in *.
    rewrite (keep_from_ext l 0 (Py.sorted_reverse idx) idx) in *
      by (intros; apply sorted_reverse_in).
    rewrite sorted_reverse_length in Hl. split; assumption.
Qed.

Lemma pop_each_out_of_range {A} (idx : list nat) (l : list A) (i : nat) :
  In i idx -> length l <= i ->
  Py.pop_each l (Py.sorted_reverse idx) = Raise IndexError.
Proof.
  intros Hi Hlen.
  destruct (sorted_reverse_head idx i Hi) as (m & rest & Hm & Hle).
  rewrite Hm. simpl. rewrite pop_out_of_range by lia. reflexivity.
Qed.

Lemma remove_excluded_ok (env : Env) (s : Fsl2mvp.t)
      (log : list call) (copes varcopes : list path) (idx : list nat) :
  Fsl2mvp.remove_idx s = Some idx ->
  NoDup idx ->
  (forall i, In i idx -> i < length copes) ->
  (forall i, In i idx -> i < length (sort_numbered_list env varcopes)) ->
  Fsl2mvp.remove_excluded copes varcopes env s log
  = (Ok (Cover.without idx copes,
         Cover.without idx (sort_numbered_list env varcopes)), s, log).
Proof.
  intros Hidx Hnd Hc Hv.
  destruct (pop_each_excludes idx copes Hnd Hc) as [Hec _].
  destruct (pop_each_excludes idx (sort_numbered_list env varcopes) Hnd Hv)
    as [Hev _].
  unfold Fsl2mvp.remove_excluded.
  rewrite bind_get, Hidx.
  unfold some_or at 1. rewrite bind_ret.
  rewrite Hec. unfold lift at 1. rewrite bind_ret.
  rewrite bind_ask. rewrite Hev. unfold lift at 1. rewrite bind_ret.
  reflexivity.
Qed.

(** X3.  The exclusion by position removes exactly the listed positions:
    with [remove_idx] a list of distinct positions, all inside both
    lists, what comes back is the list of copes and the sorted list of
    varcopes without the entries at those positions, the remaining
    entries in their order, whatever the order in which [remove_idx]
    lists the positions; each list gets shorter by the number of
    positions.  The entity and the log stay as they are. *)
Theorem remove_excluded_drops_positions (env : Env) (s : Fsl2mvp.t)
        (log : list call) (copes varcopes : list path) (idx : list nat) :
  Fsl2mvp.remove_idx s = Some idx ->
  NoDup idx ->
  (forall i, In i idx -> i < length copes) ->
  (forall i, In i idx -> i < length (sort_numbered_list env varcopes)) ->
  Fsl2mvp.remove_excluded copes varcopes env s log
  = (Ok (Cover.without idx copes,
         Cover.without idx (sort_numbered_list env varcopes)), s, log) /\
  length (Cover.without idx copes) + length idx = length copes /\
  length (Cover.without idx (sort_numbered_list env varcopes)) + length idx
  = length (sort_numbered_list env varcopes).
Proof.
  intros Hidx Hnd Hc Hv.
  destruct (pop_each_excludes idx copes Hnd Hc) as [Hec Hlc].
  destruct (pop_each_excludes idx (sort_numbered_list env varcopes) Hnd Hv)
    as [Hev Hlv].
  split; [|split; assumption].
  now apply remove_excluded_ok.
Qed.

Lemma remove_excluded_drops_positions_witness :
  Fsl2mvp.remove_excluded Ex2.four_paths Ex2.four_paths Ex.between_env
                          (Ex2.excluding [0; 2]) []
  = (Ok (Cover.without [0; 2] Ex2.four_paths,
         Cover.without [0; 2]
           (sort_numbered_list Ex.between_env Ex2.four_paths)),
     Ex2.excluding [0; 2], []) /\
  length (Cover.without [0; 2] Ex2.four_paths) + length [0; 2]
  = length Ex2.four_paths /\
  length (Cover.without [0; 2]
            (sort_numbered_list Ex.between_env Ex2.four_paths))
  + length [0; 2]
  = length (sort_numbered_list Ex.between_env Ex2.four_paths).
Proof.
  apply (remove_excluded_drops_positions Ex.between_env
           (Ex2.excluding [0; 2]) [] Ex2.four_paths Ex2.four_paths [0; 2]).
  - reflexivity.
  - repeat constructor; simpl; intuition lia.
  - simpl. intros i [<-|[<-|[]]]; lia.
  - simpl. intros i [<-|[<-|[]]]; lia.
Defined.

(** X4.  A position of [remove_idx] outside the list of copes ends the
    exclusion with an IndexError: the positions are popped from the
    largest down, so the first pop already fails, before the varcopes are
    touched; the entity and the log stay as they are. *)
Theorem remove_excluded_out_of_range (env : Env) (s : Fsl2mvp.t)
        (log : list call) (copes varcopes : list path) (idx : list nat)
        (i : nat) :
  Fsl2mvp.remove_idx s = Some idx ->
  In i idx ->
  length copes <= i ->
  Fsl2mvp.remove_excluded copes varcopes env s log
  = (Raise IndexError, s, log).
Proof.
  intros Hidx Hi Hlen.
  unfold Fsl2mvp.remove_excluded.
  rewrite bind_get, Hidx.
  unfold some_or at 1. rewrite bind_ret.
  rewrite (pop_each_out_of_range idx copes i Hi Hlen).
  unfold lift at 1. rewrite bind_raise_now. reflexivity.
Qed.

Lemma remove_excluded_out_of_range_witness :
  Fsl2mvp.remove_excluded Ex2.four_paths Ex2.four_paths Ex.between_env
                          (Ex2.excluding [1; 4]) []
  = (Raise IndexError, Ex2.excluding [1; 4], []).
Proof.
  apply (remove_excluded_out_of_range Ex.between_env (Ex2.excluding [1; 4])
           [] Ex2.four_paths Ex2.four_paths [1; 4] 4).
  - reflexivity.
  - simpl. auto.
  - simpl. lia.
Defined.

(* ================================================================== *)
(** * Further properties: the labels of the within-run design *)
(* ================================================================== *)

Lemma string_compare_refl (s : string) : String.compare s s = Eq.
Proof.
  induction s as [|a s IH]; simpl; [reflexivity|].
  unfold Ascii.compare. now rewrite N.compare_refl.
Qed.

Lemma string_lt_trans (a b c : string) :
  String.compare a b = Lt -> String.compare b c = Lt ->
  String.compare a c = Lt.
Proof.
  revert b c; induction a as [|x a IH]; intros [|y b] [|z c]; simpl;
    try discriminate; auto.
  destruct (Ascii.compare x y) eqn:Hxy; try discriminate;
    destruct (Ascii.compare y z) eqn:Hyz; try discriminate; intros H1 H2.
  - apply Ascii.compare_eq_iff in Hxy, Hyz. subst.
    unfold Ascii.compare. rewrite N.compare_refl. eauto.
  - apply Ascii.compare_eq_iff in Hxy. subst. now rewrite Hyz.
  - apply Ascii.compare_eq_iff in Hyz. subst. now rewrite Hxy.
  - unfold Ascii.compare in *. rewrite N.compare_lt_iff in Hxy, Hyz.
    assert (H : (N_of_ascii x < N_of_ascii z)%N) by lia.
    apply N.compare_lt_iff in H. now rewrite H.
Qed.

Lemma string_lt_neq (a b : string) : String.compare a b = Lt -> a <> b.
Proof. intros H ->. rewrite string_compare_refl in H. discriminate. Qed.

Lemma insert_unique_in (x : string) (l : list string) (c : string) :
  In c (Np.insert_unique x l) <-> c = x \/ In c l.
Proof.
  induction l as [|h t IH]; simpl.
  - intuition.
  - destruct (String.compare x h) eqn:E; simpl.
    + apply String.compare_eq_iff in E. subst. intuition.
    + intuition.
    + rewrite IH. intuition.
Qed.

Lemma insert_unique_ascending (x : string) (l : list string) :
  Cover.ascending l -> Cover.ascending (Np.insert_unique x l).
Proof.
  induction l as [|h t IH]; intros Ha; simpl.
  - split; [constructor | exact I].
  - destruct Ha as [Hlt Ha].
    destruct (String.compare x h) eqn:E.
    + split; assumption.
    + split; [|split; assumption].
      constructor; [exact E|].
      eapply Forall_impl; [|exact Hlt].
      intros c Hc. simpl in Hc. eapply string_lt_trans; eassumption.
    + split; [|auto].
      apply Forall_forall. intros c Hc. apply insert_unique_in in Hc.
      destruct Hc as [->|Hc].
      * rewrite String.compare_antisym, E. reflexivity.
      * rewrite Forall_forall in Hlt. auto.
Qed.

Lemma unique_in (cl : list string) (c : string) :
  In c (Np.unique cl) <-> In c cl.
Proof.
  induction cl as [|x t IH]; simpl; [reflexivity|].
  rewrite insert_unique_in, IH. intuition.
Qed.

Lemma unique_ascending (cl : list string) : Cover.ascending (Np.unique cl).
Proof.
  induction cl as [|x t IH]; simpl; [exact I|].
  now apply insert_unique_ascending.
Qed.

Lemma index_of_nth (c : string) (l : list string) :
  In c l -> nth_error l (index_of c l) = Some c.
Proof.
  induction l as [|h t IH]; intros Hc; [destruct Hc|]. simpl.
  destruct (String.eqb_spec c h) as [->|Hne]; [reflexivity|].
  destruct Hc as [->|Hc]; [congruence|]. simpl. auto.
Qed.

Lemma ascending_index_of (l : list string) (k : nat) (c : string) :
  Cover.ascending l -> nth_error l k = Some c -> index_of c l = k.
Proof.
  revert k; induction l as [|h t IH]; intros k Ha Hk.
  - destruct k; discriminate.
  - destruct Ha as [Hlt Ha]. destruct k as [|k]; simpl in *.
    + injection Hk as ->. now rewrite String.eqb_refl.
    + assert (Hc : In c t) by (eapply nth_error_In; eassumption).
      rewrite Forall_forall in Hlt. specialize (Hlt c Hc).
      apply string_lt_neq in Hlt.
      destruct (String.eqb_spec c h) as [->|_]; [congruence|].
      f_equal. auto.
Qed.

Lemma ascending_same_labels (a b : list string) :
  Cover.ascending a -> Cover.ascending b ->
  (forall c, In c a <-> In c b) -> a = b.
Proof.
  revert b; induction a as [|x a IH]; intros [|y b] Ha Hb Hab.
  - reflexivity.
  - destruct (proj2 (Hab y)); now left.
  - destruct (proj1 (Hab x)); now left.
  - destruct Ha as [Hxa Ha]. destruct Hb as [Hyb Hb].
    rewrite Forall_forall in Hxa, Hyb.
    assert (Hxy : x = y).
    { destruct (proj1 (Hab x) (or_introl eq_refl)) as [->|Hx]; [reflexivity|].
      destruct (proj2 (Hab y) (or_introl eq_refl)) as [->|Hy]; [reflexivity|].
      specialize (Hyb _ Hx). specialize (Hxa _ Hy).
      pose proof (string_lt_trans _ _ _ Hyb Hxa) as H.
      rewrite string_compare_refl in H. discriminate. }
    subst y. f_equal. apply IH; auto.
    intros c. split; intros Hc.
    + destruct (proj1 (Hab c) (or_intror Hc)) as [<-|]; [|assumption].
      specialize (Hxa _ Hc). rewrite string_compare_refl in Hxa. discriminate.
    + destruct (proj2 (Hab c) (or_intror Hc)) as [<-|]; [|assumption].
      specialize (Hyb _ Hc). rewrite string_compare_refl in Hyb. discriminate.
Qed.

Lemma ascending_index_of_lt (l : list string) (c c' : string) :
  Cover.ascending l -> In c l -> In c' l ->
  String.compare c c' = Lt -> index_of c l < index_of c' l.
Proof.
  induction l as [|h t IH]; intros Ha Hc Hc' Hlt; [destruct Hc|].
  destruct Ha as [Hht Ha]. rewrite Forall_forall in Hht. simpl.
  destruct (String.eqb_spec c h) as [->|Hne].
  - destruct (String.eqb_spec c' h) as [->|_]; [|lia].
    rewrite string_compare_refl in Hlt. discriminate.
  - destruct Hc as [->|Hc]; [congruence|].
    destruct (String.eqb_spec c' h) as [->|Hne'].
    + specialize (Hht _ Hc).
      pose proof (string_lt_trans _ _ _ Hht Hlt) as H.
      rewrite string_compare_refl in H. discriminate.
    + destruct Hc' as [->|Hc']; [congruence|].
      apply -> Nat.succ_lt_mono. auto.
Qed.

Lemma update_metadata_run (env : Env) (e : Within.t) (log : list call)
      (cl : list string) :
  Fsl2mvp.contrast_labels (Within.base e) = Some cl ->
  Within._update_metadata env e log
  = (Ok tt,
     Within.mk
       (Within.base
          (Within.set_mvp
             (Mvp.set_y (Some (YCodes (label_encode cl))) (Within.mvp e)) e))
       (Some (length (Np.unique cl)))
       (Some (Np.unique cl))
       (Some (length cl))
       (Some (map (fun cls => Np.count_true (Np.eq_elementwise cl cls)) cl))
       (Some (map (fun cls => Np.eq_elementwise cl cls) (Np.unique cl)))
       (Some (map (fun cls => Np.where_ (Np.eq_elementwise cl cls))
                  (Np.unique cl))),
     log).
Proof.
  intros Hcl. unfold Within._update_metadata, Within.contrast_labels.
  rewrite bind_assoc, bind_get, Hcl. simpl some_or. rewrite bind_ret.
  reflexivity.
Qed.

(** X5.  The codes that [_update_metadata] stores in [y] index
    [class_names]: with the labels [cl] read, the call returns without
    logging anything, [n_trials] is the number of labels, [class_names]
    holds exactly the labels that occur, each once and in ascending
    order, [n_class] is their number, [y] has one code per trial, and
    the code of a trial is the position in [class_names] of the label of
    that trial. *)
Theorem update_metadata_codes_index_class_names (env : Env) (e : Within.t)
        (log : list call) (cl : list string) :
  Fsl2mvp.contrast_labels (Within.base e) = Some cl ->
  exists e' names codes,
    Within._update_metadata env e log = (Ok tt, e', log) /\
    Within.class_names e' = Some names /\
    Mvp.y (Within.mvp e') = Some (YCodes codes) /\
    Within.n_class e' = Some (length names) /\
    Within.n_trials e' = Some (length cl) /\
    length codes = length cl /\
    Cover.ascending names /\
    (forall c, In c names <-> In c cl) /\
    (forall i c, nth_error cl i = Some c ->
       exists k, nth_error codes i = Some k /\ nth_error names k = Some c).
Proof.
  intros Hcl. eexists. exists (Np.unique cl), (label_encode cl).
  split; [apply update_metadata_run; exact Hcl|].
  repeat split; try reflexivity.
  - apply length_map.
  - apply unique_ascending.
  - apply unique_in.
  - apply unique_in.
  - intros i c Hi. exists (index_of c (Np.unique cl)). split.
    + unfold label_encode. now rewrite nth_error_map, Hi.
    + apply index_of_nth, unique_in. eapply nth_error_In; eassumption.
Qed.

Lemma update_metadata_codes_index_class_names_witness :
  exists e' names codes,
    Within._update_metadata Ex.within_env
      (Ex2.labelled ["b"; "a"; "b"]%string) [] = (Ok tt, e', []) /\
    Within.class_names e' = Some names /\
    Mvp.y (Within.mvp e') = Some (YCodes codes) /\
    Within.n_class e' = Some (length names) /\
    Within.n_trials e' = Some (length ["b"; "a"; "b"]%string) /\
    length codes = length ["b"; "a"; "b"]%string /\
    Cover.ascending names /\
    (forall c, In c names <-> In c ["b"; "a"; "b"]%string) /\
    (forall i c, nth_error ["b"; "a"; "b"]%string i = Some c ->
       exists k, nth_error codes i = Some k /\ nth_error names k = Some c).
Proof.
  apply (update_metadata_codes_index_class_names Ex.within_env
           (Ex2.labelled ["b"; "a"; "b"]%string) [] ["b"; "a"; "b"]%string).
  reflexivity.
Defined.

Lemma class_bit (names : list string) (k : nat) (name c : string) :
  Cover.ascending names -> In c names -> nth_error names k = Some name ->
  String.eqb c name = Nat.eqb k (index_of c names).
Proof.
  intros Ha Hc Hk.
  destruct (Nat.eqb_spec k (index_of c names)) as [->|Hne].
  - rewrite (index_of_nth c names Hc) in Hk. injection Hk as <-.
    apply String.eqb_refl.
  - apply String.eqb_neq. intros ->. apply Hne. symmetry.
    now apply ascending_index_of.
Qed.

(** X6.  Every trial belongs to the class of its code and to no other:
    after [_update_metadata], [class_idx] and [trial_idx] have one entry
    per class name; for a trial [i] with code [y[i]], the mask
    [class_idx[k]] is true at [i] exactly when [k = y[i]], and
    [trial_idx[k]] lists [i] exactly when [k = y[i]]. *)
Theorem update_metadata_one_class_per_trial (env : Env) (e : Within.t)
        (log : list call) (cl : list string) :
  Fsl2mvp.contrast_labels (Within.base e) = Some cl ->
  exists e' codes masks tidx,
    Within._update_metadata env e log = (Ok tt, e', log) /\
    Mvp.y (Within.mvp e') = Some (YCodes codes) /\
    Within.class_idx e' = Some masks /\
    Within.trial_idx e' = Some tidx /\
    Within.n_class e' = Some (length masks) /\
    length tidx = length masks /\
    forall i code k,
      nth_error codes i = Some code -> k < length masks ->
      (exists row, nth_error masks k = Some row /\
                   nth_error row i = Some (Nat.eqb k code)) /\
      (exists trials, nth_error tidx k = Some trials /\
                      (In i trials <-> k = code)).
Proof.
  intros Hcl. eexists. exists (label_encode cl).
  eexists. eexists.
  split; [apply update_metadata_run; exact Hcl|].
  cbn [Within.class_idx Within.trial_idx Within.n_class].
  split; [reflexivity|]. split; [reflexivity|]. split; [reflexivity|].
  split; [now rewrite length_map|]. split; [now rewrite !length_map|].
  intros i code k Hi Hk. rewrite length_map in Hk.
  unfold label_encode in Hi. rewrite nth_error_map in Hi.
  destruct (nth_error cl i) as [c|] eqn:Hc; [|discriminate].
  injection Hi as <-.
  destruct (nth_error (Np.unique cl) k) as [name|] eqn:Hname;
    [|apply nth_error_None in Hname; lia].
  assert (Hin : In c (Np.unique cl))
    by (apply unique_in; eapply nth_error_In; eassumption).
  assert (Hbit : nth_error (Np.eq_elementwise cl name) i
                 = Some (Nat.eqb k (index_of c (Np.unique cl)))).
  { unfold Np.eq_elementwise. rewrite nth_error_map, Hc. simpl.
    f_equal. apply class_bit; auto. apply unique_ascending. }
  split.
  - exists (Np.eq_elementwise cl name). split; [|exact Hbit].
    now rewrite nth_error_map, Hname.
  - exists (Np.where_ (Np.eq_elementwise cl name)).
    split; [now rewrite nth_error_map, Hname|].
    unfold Np.where_. rewrite in_where_from, Nat.sub_0_r, Hbit.
    split.
    + intros [_ H]. injection H as H. now apply Nat.eqb_eq.
    + intros ->. split; [lia|]. now rewrite Nat.eqb_refl.
Qed.

Lemma update_metadata_one_class_per_trial_witness :
  exists e' codes masks tidx,
    Within._update_metadata Ex.within_env
      (Ex2.labelled ["b"; "a"; "b"]%string) [] = (Ok tt, e', []) /\
    Mvp.y (Within.mvp e') = Some (YCodes codes) /\
    Within.class_idx e' = Some masks /\
    Within.trial_idx e' = Some tidx /\
    Within.n_class e' = Some (length masks) /\
    length tidx = length masks /\
    forall i code k,
      nth_error codes i = Some code -> k < length masks ->
      (exists row, nth_error masks k = Some row /\
                   nth_error row i = Some (Nat.eqb k code)) /\
      (exists trials, nth_error tidx k = Some trials /\
                      (In i trials <-> k = code)).
Proof.
  apply (update_metadata_one_class_per_trial Ex.within_env
           (Ex2.labelled ["b"; "a"; "b"]%string) [] ["b"; "a"; "b"]%string).
  reflexivity.
Defined.

(** X7.  The code of a label is its rank among the labels that occur:
    two sets of labels with the same labels, in whatever order and
    number, give the same [class_names] and the same code to the same
    label, and within one set a smaller label has a smaller code. *)
Theorem update_metadata_codes_are_ranks (env : Env) (e1 e2 : Within.t)
        (log1 log2 : list call) (cl1 cl2 : list string) :
  Fsl2mvp.contrast_labels (Within.base e1) = Some cl1 ->
  Fsl2mvp.contrast_labels (Within.base e2) = Some cl2 ->
  (forall c, In c cl1 <-> In c cl2) ->
  exists r1 r2 codes1 codes2,
    Within._update_metadata env e1 log1 = (Ok tt, r1, log1) /\
    Within._update_metadata env e2 log2 = (Ok tt, r2, log2) /\
    Mvp.y (Within.mvp r1) = Some (YCodes codes1) /\
    Mvp.y (Within.mvp r2) = Some (YCodes codes2) /\
    Within.class_names r1 = Within.class_names r2 /\
    (forall i j c, nth_error cl1 i = Some c -> nth_error cl2 j = Some c ->
       nth_error codes1 i = nth_error codes2 j) /\
    (forall i j c c' a b,
       nth_error cl1 i = Some c -> nth_error cl1 j = Some c' ->
       String.compare c c' = Lt ->
       nth_error codes1 i = Some a -> nth_error codes1 j = Some b ->
       a < b).
Proof.
  intros H1 H2 Hsame.
  assert (Hu : Np.unique cl1 = Np.unique cl2).
  { apply ascending_same_labels; try apply unique_ascending.
    intros c. rewrite !unique_in. apply Hsame. }
  eexists. eexists. exists (label_encode cl1), (label_encode cl2).
  split; [apply update_metadata_run; exact H1|].
  split; [apply update_metadata_run; exact H2|].
  split; [reflexivity|]. split; [reflexivity|].
  split; [cbn [Within.class_names]; now rewrite Hu|].
  split.
  - intros i j c Hi Hj. unfold label_encode.
    rewrite !nth_error_map, Hi, Hj, Hu. reflexivity.
  - intros i j c c' a b Hi Hj Hlt Ha Hb. unfold label_encode in Ha, Hb.
    rewrite nth_error_map, Hi in Ha. rewrite nth_error_map, Hj in Hb.
    injection Ha as <-. injection Hb as <-.
    apply ascending_index_of_lt; auto using unique_ascending;
      apply unique_in; eapply nth_error_In; eassumption.
Qed.

Lemma update_metadata_codes_are_ranks_witness :
  exists r1 r2 codes1 codes2,
    Within._update_metadata Ex.within_env
      (Ex2.labelled ["b"; "a"; "b"]%string) [] = (Ok tt, r1, []) /\
    Within._update_metadata Ex.within_env
      (Ex2.labelled ["a"; "b"]%string) [] = (Ok tt, r2, []) /\
    Mvp.y (Within.mvp r1) = Some (YCodes codes1) /\
    Mvp.y (Within.mvp r2) = Some (YCodes codes2) /\
    Within.class_names r1 = Within.class_names r2 /\
    (forall i j c, nth_error ["b"; "a"; "b"]%string i = Some c ->
       nth_error ["a"; "b"]%string j = Some c ->
       nth_error codes1 i = nth_error codes2 j) /\
    (forall i j c c' a b,
       nth_error ["b"; "a"; "b"]%string i = Some c ->
       nth_error ["b"; "a"; "b"]%string j = Some c' ->
       String.compare c c' = Lt ->
       nth_error codes1 i = Some a -> nth_error codes1 j = Some b ->
       a < b).
Proof.
  apply (update_metadata_codes_are_ranks Ex.within_env
           (Ex2.labelled ["b"; "a"; "b"]%string)
           (Ex2.labelled ["a"; "b"]%string) [] []
           ["b"; "a"; "b"]%string ["a"; "b"]%string).
  - reflexivity.
  - reflexivity.
  - intros c. simpl. intuition.
Defined.

Lemma within_preamble_labels (env : Env) (e e1 : Within.t)
      (log log1 : list call) (k : nat) :
  Within.preamble true env e log = (Ok k, e1, log1) ->
  exists cl,
    Fsl2mvp.contrast_labels (Within.base e1) = Some cl /\
    Mvp.y (Within.mvp e1) = Some (YCodes (label_encode cl)) /\
    Within.n_trials e1 = Some (length cl) /\
    Within.class_names e1 = Some (Np.unique cl).
Proof.
  unfold Within.preamble, Within.on_mvp, Within.super, zoom,
    Fsl2mvp.reset_mat_dir, Fsl2mvp._extract_labels,
    Within._update_metadata, Within.contrast_labels, Within.on_mvp, zoom,
    lift, bind, get, ask, emit, some_or, modify, ret, raise.
  intros H. destruct e as [[m cl ri] a b c d f g].
  split_runs;
    repeat match goal with u : unit |- _ => destruct u end;
    unfold Within.mvp in *; simpl in *;
    eexists; repeat split; reflexivity.
Qed.

(** X8.  The count error comes after the labels were stored: in a
    within-run extraction that reads the labels and whose first two
    parts went through, a number of retained copes different from the
    number of trials makes [glm2mvp] raise the "number of trials"
    ValueError on an entity that already carries the new labels, their
    codes in [y], [n_trials] and [class_names], while [X] is what it was
    before the call. *)
Theorem within_count_error_leaves_labels (env : Env)
        (e e1 e2 : Within.t) (log log1 log2 : list call) (k : nat)
        (copes varcopes : list path) (n : nat) :
  Within.preamble true env e log = (Ok k, e1, log1) ->
  Within.stat_files env e1 log1 = (Ok (copes, varcopes), e2, log2) ->
  Within.n_trials e2 = Some n ->
  length copes <> n ->
  exists cl,
    Within.glm2mvp true env e log
    = (Raise (ValueError TrialsVsLabels), e2, log2) /\
    Fsl2mvp.contrast_labels (Within.base e2) = Some cl /\
    length cl = n /\
    Mvp.y (Within.mvp e2) = Some (YCodes (label_encode cl)) /\
    Within.class_names e2 = Some (Np.unique cl) /\
    Mvp.X (Within.mvp e2) = Mvp.X (Within.mvp e).
Proof.
  intros H1 H2 Hn Hlen.
  pose proof (within_stat_files_facts _ _ _ _ _ _ _ H2) as ->.
  destruct (within_preamble_labels _ _ _ _ _ _ H1) as (cl & Hcl & Hy & Ht & Hc).
  exists cl.
  assert (Hcln : length cl = n) by congruence.
  rewrite (within_glm2mvp_unfold _ _ _ _ _ _ _ _ _ _ _ H1 H2).
  unfold Within.assemble, Within.contrast_labels.
  rewrite bind_assoc, bind_get, Hcl. simpl some_or. rewrite bind_ret.
  assert (Hne : length copes <> length cl) by lia.
  apply Nat.eqb_neq in Hne. rewrite Hne. simpl negb. cbv iota.
  repeat split; auto.
  destruct (respects_run _ _ _ _ _ _ _ _ _ _
              (within_preamble_respects true) H1)
    as (_ & (X1 & _) & _).
  congruence.
Qed.

Lemma within_count_error_leaves_labels_witness :
  exists cl,
    Within.glm2mvp true Ex.short_env Ex.within_entity []
    = (Raise (ValueError TrialsVsLabels), Ex.short_entity_2, Ex.short_log_2) /\
    Fsl2mvp.contrast_labels (Within.base Ex.short_entity_2) = Some cl /\
    length cl = 3 /\
    Mvp.y (Within.mvp Ex.short_entity_2) = Some (YCodes (label_encode cl)) /\
    Within.class_names Ex.short_entity_2 = Some (Np.unique cl) /\
    Mvp.X (Within.mvp Ex.short_entity_2) = Mvp.X (Within.mvp Ex.within_entity).
Proof.
  apply (within_count_error_leaves_labels Ex.short_env
           Ex.within_entity Ex.short_entity_1 Ex.short_entity_2
           [] Ex.short_log_1 Ex.short_log_2 0
           ["cope1.nii.gz"; "cope2.nii.gz"]%string
           ["varcope1.nii.gz"; "varcope2.nii.gz"]%string 3).
  - vm_compute. reflexivity.
  - vm_compute. reflexivity.
  - reflexivity.
  - simpl. lia.
Defined.

(* ================================================================== *)
(** * Further properties: what an extraction writes *)
(* ================================================================== *)

Lemma bind_inv {E S V A B} (m : M E S V A) (k : A -> M E S V B)
      (env : E) (s : S) (t : list V) r s' t' :
  bind m k env s t = (r, s', t') ->
  (exists a s1 t1, m env s t = (Ok a, s1, t1) /\ k a env s1 t1 = (r, s', t')) \/
  (exists e, m env s t = (Raise e, s', t') /\ r = Raise e).
Proof.
  unfold bind. destruct (m env s t) as [[[a|e] s1] t1]; intros H.
  - left. eauto.
  - right. injection H as <- <- <-. eauto.
Qed.

Section Outcome.
Context {S : Type}.
Variable P : call -> bool.
Variable I : S -> S -> Prop.
Context `{!PreOrder I}.
Variable R : exn -> Prop.

Lemma fails_clean_bind {A B} (m : M Env S call A) (k : A -> M Env S call B) :
  Spec.respects P I R m ->
  (forall a, Cover.fails_clean P I (k a)) ->
  Cover.fails_clean P I (bind m k).
Proof.
  intros Hm Hk env s t x s' t' H.
  destruct (bind_inv _ _ _ _ _ _ _ _ H)
    as [(a & s1 & t1 & E1 & E2)|(e & E1 & _)].
  - destruct (respects_run _ _ _ _ _ _ _ _ _ _ Hm E1)
      as ((new1 & -> & P1) & I1 & _).
    destruct (Hk a _ _ _ _ _ _ E2) as (new2 & -> & P2 & I2).
    exists (new1 ++ new2). rewrite app_assoc. split; [reflexivity|].
    rewrite forallb_app, P1, P2. split; [reflexivity|].
    etransitivity; eassumption.
  - destruct (respects_run _ _ _ _ _ _ _ _ _ _ Hm E1)
      as ((new1 & -> & P1) & I1 & _).
    exists new1. auto.
Qed.

Lemma fails_clean_raise {A} (e : exn) :
  Cover.fails_clean P I (@raise Env S call A e).
Proof.
  intros env s t x s' t' H. injection H as _ <- <-.
  exists []. rewrite app_nil_r. repeat split. reflexivity.
Qed.

Lemma commits_bind {A B} (proj : S -> Mvp.t) (n : nat)
      (m : M Env S call A) (k : A -> M Env S call B) :
  Spec.respects P I R m ->
  (forall a, Cover.commits P proj n (k a)) ->
  Cover.commits P proj n (bind m k).
Proof.
  intros Hm Hk env s t b s' t' H.
  destruct (bind_inv _ _ _ _ _ _ _ _ H)
    as [(a & s1 & t1 & E1 & E2)|(e & _ & [=])].
  destruct (respects_run _ _ _ _ _ _ _ _ _ _ Hm E1)
    as ((new1 & -> & P1) & _ & _).
  destruct (Hk a _ _ _ _ _ _ E2) as (pre & x & -> & P2 & HX).
  exists (new1 ++ pre), x. rewrite <- !app_assoc. split; [reflexivity|].
  rewrite forallb_app, P1, P2. auto.
Qed.

Lemma commits_raise {A} (proj : S -> Mvp.t) (n : nat) (e : exn) :
  Cover.commits P proj n (@raise Env S call A e).
Proof. intros env s t a s' t' H. discriminate H. Qed.
End Outcome.

Lemma reset_mat_dir_run {S} (env : Env) (s : S) (t : list call) :
  Fsl2mvp.reset_mat_dir env s t
  = (Ok (Cover.n_converted_after env), s, t ++ Cover.reset_calls env).
Proof.
  unfold Fsl2mvp.reset_mat_dir, Cover.n_converted_after, Cover.reset_calls,
    Cover.stale.
  rewrite bind_ask, !bind_emit.
  destruct (env_exists_mat_dir env); simpl andb;
    [destruct (env_n_feat env <=? env_n_converted env)|];
    unfold bind, ret, emit; simpl;
    rewrite <- ?app_assoc; reflexivity.
Qed.

Lemma quiet_no_output_file (new : list call) :
  forallb Cover.quiet new = true ->
  forallb Cover.no_output_file new = true /\
  existsb Cover.is_rmtree new = false.
Proof.
  induction new as [|c new IH]; simpl; [auto|].
  unfold Cover.quiet at 1. rewrite !andb_true_iff.
  intros [[H1 H2] H3]. destruct (IH H3) as [IH1 IH2].
  rewrite H1, IH1, IH2. apply negb_true_iff in H2. rewrite H2. auto.
Qed.

Lemma reset_calls_facts (env : Env) :
  forallb Cover.no_output_file (Cover.reset_calls env) = true /\
  existsb Cover.is_rmtree (Cover.reset_calls env) = Cover.stale env.
Proof.
  unfold Cover.reset_calls.
  destruct (Cover.stale env); [split; reflexivity|].
  destruct (env_exists_mat_dir env); split; reflexivity.
Qed.

Lemma within_load_copes_quiet (copes : list path) :
  forall i ncols mvp_data cope_img,
    Spec.respects Cover.quiet (Spec.on Within.mvp Spec.kept) (fun _ => True)
                  (Within.load_copes i copes ncols mvp_data cope_img).
Proof.
  induction copes as [|path rest IH]; intros i ncols mvp_data cope_img;
    cbn [Within.load_copes]; respects_unfold; respects_auto.
  apply IH.
Qed.

Lemma within_divide_rows_quiet (varcopes : list path) :
  forall i ncols mvp_data,
    Spec.respects Cover.quiet (Spec.on Within.mvp Spec.kept) (fun _ => True)
                  (Within.divide_rows i varcopes ncols mvp_data).
Proof.
  induction varcopes as [|path rest IH]; intros i ncols mvp_data;
    cbn [Within.divide_rows]; respects_unfold; respects_auto.
  apply IH.
Qed.

Lemma between_load_copes_quiet (pairs : list (path * path)) :
  forall i mvp_data cope_img,
    Spec.respects Cover.quiet (Spec.on Between.mvp Spec.kept) (fun _ => True)
                  (Between.load_copes i pairs mvp_data cope_img).
Proof.
  induction pairs as [|[cope varcope] rest IH]; intros i mvp_data cope_img;
    cbn [Between.load_copes]; respects_unfold; respects_auto.
  apply IH.
Qed.

(** The parts of an extraction before the files are written. *)
Ltac quiet_part :=
  respects_unfold; respects_auto;
  first [ apply within_load_copes_quiet
        | apply within_divide_rows_quiet
        | apply between_load_copes_quiet ].

Ltac outcome_steps :=
  repeat first
    [ rule fails_clean_raise
    | rule commits_raise
    | apply fails_clean_bind with (R := fun _ => True);
      [ try typeclasses eauto | solve [quiet_part] | intros ? ]
    | (apply commits_bind with (I := Spec.on Within.mvp Spec.kept)
                               (R := fun _ => True)
       || apply commits_bind with (I := Spec.on Between.mvp Spec.kept)
                                  (R := fun _ => True));
      [ solve [quiet_part] | intros ? ]
    | progress cbv zeta
    | match goal with
      | |- Cover.fails_clean _ _ (match ?x with _ => _ end) => destruct x
      | |- Cover.commits _ _ _ (match ?x with _ => _ end) => destruct x
      end ].



Lemma within_store_commits (n : nat) (d : ndarray) :
  Cover.commits Cover.quiet Within.mvp n (Within.on_mvp (Fsl2mvp.store n d)).
Proof.
  intros env s t a s' t' H. injection H as _ <- <-.
  exists [], d. rewrite <- !app_assoc. repeat split.
Qed.

Lemma between_store_commits (n : nat) (d : ndarray) :
  Cover.commits Cover.quiet Between.mvp n
                (Between.on_mvp (Fsl2mvp.store n d)).
Proof.
  intros env s t a s' t' H. injection H as _ <- <-.
  exists [], d. rewrite <- !app_assoc. repeat split.
Qed.


Lemma within_assemble_commits (k : nat) (copes varcopes : list path) :
  Cover.commits Cover.quiet Within.mvp k (Within.assemble k copes varcopes).
Proof.
  unfold Within.assemble, Within.fill. outcome_steps.
  apply within_store_commits.
Qed.


Lemma between_assemble_commits (k : nat) (copes varcopes : list path) :
  Cover.commits Cover.quiet Between.mvp k (Between.assemble k copes varcopes).
Proof.
  unfold Between.assemble. outcome_steps.
  apply between_store_commits.
Qed.

Lemma returns_only_bind {S A B} (b : B) (m : M Env S call A)
      (k : A -> M Env S call B) :
  (forall a, Cover.returns_only b (k a)) ->
  Cover.returns_only b (bind m k).
Proof.
  intros Hk env s t r s' t' H.
  destruct (bind_inv _ _ _ _ _ _ _ _ H)
    as [(a & s1 & t1 & _ & E2)|(e & _ & [=])].
  exact (Hk a _ _ _ _ _ _ E2).
Qed.

Lemma returns_only_ret {S A} (a : A) :
  Cover.returns_only a (@ret Env S call A a).
Proof. intros env s t r s' t' H. now injection H as <- _ _. Qed.



(** The reset of the output directory inside the first part of an
    extraction: what that part returns, and whether it deleted the
    directory. *)
Lemma preamble_reset {S} (I : S -> S -> Prop) (load : M Env S call unit)
      (rest : nat -> M Env S call nat) (env : Env) (e e1 : S)
      (log log1 : list call) (k : nat) :
  Spec.respects Cover.quiet I (fun _ => True) load ->
  (forall n, Spec.respects Cover.quiet I (fun _ => True) (rest n)) ->
  (forall n, Cover.returns_only n (rest n)) ->
  (load ;; n <- Fsl2mvp.reset_mat_dir ;; rest n) env e log = (Ok k, e1, log1) ->
  k = Cover.n_converted_after env /\
  exists new,
    log1 = log ++ new /\
    forallb Cover.no_output_file new = true /\
    existsb Cover.is_rmtree new = Cover.stale env.
Proof.
  intros Hload Hrest Hn H.
  destruct (bind_inv _ _ _ _ _ _ _ _ H)
    as [(a & s1 & t1 & E1 & E2)|(x & _ & [=])].
  destruct (respects_run _ _ _ _ _ _ _ _ _ _ Hload E1)
    as ((new1 & -> & P1) & _ & _).
  rewrite (bind_ok _ _ _ _ _ _ _ _ (reset_mat_dir_run env s1 (log ++ new1)))
    in E2.
  pose proof (Hn _ _ _ _ _ _ _ E2) as ->.
  destruct (respects_run _ _ _ _ _ _ _ _ _ _ (Hrest _) E2)
    as ((new2 & -> & P2) & _ & _).
  split; [reflexivity|].
  exists (new1 ++ Cover.reset_calls env ++ new2).
  rewrite <- !app_assoc. split; [reflexivity|].
  destruct (quiet_no_output_file _ P1) as [W1 R1].
  destruct (quiet_no_output_file _ P2) as [W2 R2].
  destruct (reset_calls_facts env) as [W0 R0].
  rewrite !forallb_app, !existsb_app, W1, W2, W0, R1, R2, R0.
  split; [reflexivity|]. now rewrite orb_false_r.
Qed.

Lemma within_preamble_reset (env : Env) (flag : bool) (e e1 : Within.t)
      (log log1 : list call) (k : nat) :
  Within.preamble flag env e log = (Ok k, e1, log1) ->
  k = Cover.n_converted_after env /\
  exists new,
    log1 = log ++ new /\
    forallb Cover.no_output_file new = true /\
    existsb Cover.is_rmtree new = Cover.stale env.
Proof.
  apply preamble_reset with (I := Spec.on Within.mvp Spec.kept).
  - quiet_part.
  - intros n. quiet_part.
  - intros n. repeat (apply returns_only_bind; intros ?).
    apply returns_only_ret.
Qed.

Lemma between_preamble_reset (env : Env) (flag : bool) (e e1 : Between.t)
      (log log1 : list call) (k : nat) :
  Between.preamble flag env e log = (Ok k, e1, log1) ->
  k = Cover.n_converted_after env /\
  exists new,
    log1 = log ++ new /\
    forallb Cover.no_output_file new = true /\
    existsb Cover.is_rmtree new = Cover.stale env.
Proof.
  apply preamble_reset with (I := Spec.on Between.mvp Spec.kept).
  - quiet_part.
  - intros n. quiet_part.
  - intros n. repeat (apply returns_only_bind; intros ?).
    apply returns_only_ret.
Qed.







Lemma run_written_eq (env : Env) :
  Cover.run_written env
  = if Cover.stale env then 1 else env_n_converted env + 1.
Proof.
  unfold Cover.run_written, Cover.n_converted_after.
  now destruct (Cover.stale env).
Qed.

(** X11.  A within-run extraction that returns ends with the files of
    one run, and what it wrote is what it stores: the last calls of the
    run are the dump of the header pickle and the creation of the hdf5
    data set, then the closing print; the run they are numbered with is
    1 when the output directory was there with at least as many header
    files as the subject has feat directories, and one more than the
    number of header files found otherwise; the data of the hdf5 file is
    the [X] of the entity; no other dump or creation precedes them in
    the run; the output directory was deleted in the run when, and only
    when, it was there with that many header files. *)
Theorem within_extraction_writes_what_it_stores (env : Env) (flag : bool)
        (e e' : Within.t) (log log' : list call) :
  Within.glm2mvp flag env e log = (Ok tt, e', log') ->
  exists pre x,
    let run := if Cover.stale env then 1 else env_n_converted env + 1 in
    log' = log ++ pre ++ [PickleDump run; H5Create run x; Print] /\
    Mvp.X (Within.mvp e') = Some x /\
    forallb Cover.no_output_file pre = true /\
    existsb Cover.is_rmtree pre = Cover.stale env.
Proof.
  intros H. cbv zeta. rewrite <- run_written_eq.
  change (Cover.run_written env) with (Cover.n_converted_after env + 1).
  unfold Within.glm2mvp in H.
  destruct (bind_inv _ _ _ _ _ _ _ _ H)
    as [(k & e1 & log1 & E1 & E2)|(x & _ & [=])].
  destruct (within_preamble_reset _ _ _ _ _ _ _ E1)
    as (-> & new1 & -> & W1 & R1).
  assert (Hc : Cover.commits Cover.quiet Within.mvp
                 (Cover.n_converted_after env)
                 ('(copes, varcopes) <- Within.stat_files ;;
                  Within.assemble (Cover.n_converted_after env)
                                  copes varcopes)).
  { apply commits_bind with (I := Spec.on Within.mvp Spec.kept)
                            (R := fun _ => True).
    - unfold Within.stat_files. quiet_part.
    - intros [copes varcopes]. apply within_assemble_commits. }
  destruct (Hc _ _ _ _ _ _ E2) as (pre & x & -> & P2 & HX).
  destruct (quiet_no_output_file _ P2) as [W2 R2].
  exists (new1 ++ pre), x. rewrite <- !app_assoc.
  split; [reflexivity|]. split; [exact HX|].
  rewrite forallb_app, existsb_app, W1, W2, R1, R2.
  split; [reflexivity | apply orb_false_r].
Qed.

Lemma within_extraction_writes_what_it_stores_witness :
  exists pre x,
    snd (Within.glm2mvp true (Ex.converted Ex.within_env) Ex.within_entity [])
    = [] ++ pre
      ++ [PickleDump 1; H5Create 1 x; Print] /\
    Mvp.X (Within.mvp
             (snd (fst (Within.glm2mvp true (Ex.converted Ex.within_env)
                                       Ex.within_entity []))))
    = Some x /\
    forallb Cover.no_output_file pre = true /\
    existsb Cover.is_rmtree pre = Cover.stale (Ex.converted Ex.within_env).
Proof.
  apply (within_extraction_writes_what_it_stores (Ex.converted Ex.within_env)
           true Ex.within_entity _ [] _).
  vm_compute. reflexivity.
Defined.

(** X12.  A between-run extraction that returns ends with the files of
    one run, numbered in the same way, and what it wrote is what it
    stores, in the same sense. *)
Theorem between_extraction_writes_what_it_stores (env : Env) (flag : bool)
        (e e' : Between.t) (log log' : list call) :
  Between.glm2mvp flag env e log = (Ok tt, e', log') ->
  exists pre x,
    let run := if Cover.stale env then 1 else env_n_converted env + 1 in
    log' = log ++ pre ++ [PickleDump run; H5Create run x; Print] /\
    Mvp.X (Between.mvp e') = Some x /\
    forallb Cover.no_output_file pre = true /\
    existsb Cover.is_rmtree pre = Cover.stale env.
Proof.
  intros H. cbv zeta. rewrite <- run_written_eq.
  change (Cover.run_written env) with (Cover.n_converted_after env + 1).
  unfold Between.glm2mvp in H.
  destruct (bind_inv _ _ _ _ _ _ _ _ H)
    as [(k & e1 & log1 & E1 & E2)|(x & _ & [=])].
  destruct (between_preamble_reset _ _ _ _ _ _ _ E1)
    as (-> & new1 & -> & W1 & R1).
  assert (Hc : Cover.commits Cover.quiet Between.mvp
                 (Cover.n_converted_after env)
                 ('(copes, varcopes) <- Between.stat_files ;;
                  Between.assemble (Cover.n_converted_after env)
                                   copes varcopes)).
  { apply commits_bind with (I := Spec.on Between.mvp Spec.kept)
                            (R := fun _ => True).
    - unfold Between.stat_files. quiet_part.
    - intros [copes varcopes]. apply between_assemble_commits. }
  destruct (Hc _ _ _ _ _ _ E2) as (pre & x & -> & P2 & HX).
  destruct (quiet_no_output_file _ P2) as [W2 R2].
  exists (new1 ++ pre), x. rewrite <- !app_assoc.
  split; [reflexivity|]. split; [exact HX|].
  rewrite forallb_app, existsb_app, W1, W2, R1, R2.
  split; [reflexivity | apply orb_false_r].
Qed.

Lemma between_extraction_writes_what_it_stores_witness :
  exists pre x,
    snd (Between.glm2mvp true (Ex2.second_run Ex.between_env)
                         Ex.between_entity [])
    = [] ++ pre ++ [PickleDump 2; H5Create 2 x; Print] /\
    Mvp.X (Between.mvp
             (snd (fst (Between.glm2mvp true (Ex2.second_run Ex.between_env)
                                        Ex.between_entity []))))
    = Some x /\
    forallb Cover.no_output_file pre = true /\
    existsb Cover.is_rmtree pre = Cover.stale (Ex2.second_run Ex.between_env).
Proof.
  apply (between_extraction_writes_what_it_stores
           (Ex2.second_run Ex.between_env) true Ex.between_entity _ [] _).
  vm_compute. reflexivity.
Defined.

(* ================================================================== *)
(** * Further properties: what an extraction leaves on the entity *)
(* ================================================================== *)

(** X13.  The between-run extraction appends to the two index vectors and
    never resets them: after an extraction that went through with the
    pairs of volumes [vols], [contrast_id] and [voxel_idx] are what they
    were before the call followed by one block per pair, so on an entity
    that was used before they are longer than the [X] of this call; the
    header and the affine are those of the cope of the last pair. *)
Theorem between_index_vectors_accumulate (env : Env) (flag : bool)
        (e e1 e2 : Between.t) (log log1 log2 : list call) (k : nat)
        (copes varcopes : list path) (vols : list (volume * volume))
        (sel : list bool) (cl : list string) :
  Between.preamble flag env e log = (Ok k, e1, log1) ->
  Between.stat_files env e1 log1 = (Ok (copes, varcopes), e2, log2) ->
  Mvp.mask_index (Between.mvp e2) = Some sel ->
  Fsl2mvp.contrast_labels (Between.base e2) = Some cl ->
  length vols = length cl ->
  vols <> [] ->
  Forall2 (Spec.pair_loads env (Mvp.beta2tstat (Between.mvp e)) sel)
          (combine copes varcopes) vols ->
  exists e' log' x last,
    Between.glm2mvp flag env e log = (Ok tt, e', log') /\
    Mvp.X (Between.mvp e') = Some (Vec x) /\
    Between.contrast_id e'
    = Between.contrast_id e
      ++ Spec.contrast_blocks 0 (length vols) (Np.count_true sel) /\
    Between.voxel_idx e'
    = Between.voxel_idx e
      ++ concat (repeat (Spec.true_positions sel) (length vols)) /\
    length (Between.contrast_id e')
    = length (Between.contrast_id e) + length x /\
    length (Between.voxel_idx e')
    = length (Between.voxel_idx e) + length x /\
    Spec.last_cope None vols = Some last /\
    Mvp.nifti_header (Between.mvp e') = Some (vheader last) /\
    Mvp.affine (Between.mvp e') = Some (vaffine last).
Proof.
  intros H1 H2 Hsel Hcl Hn Hne Hload.
  destruct (between_prefix_facts _ _ _ _ _ _ _ _ _ _ _ H1 H2)
    as (F1 & F2 & F3 & _ & _ & (sel' & Hsel' & Hnf)).
  assert (sel' = sel) by congruence. subst sel'.
  destruct (between_assemble_spec env sel _ k copes varcopes vols cl e2 log2
              Hsel Hnf F3 Hcl Hload Hne (Nat.eq_le_incl _ _ Hn))
    as (log' & last & Hlast & Hrun).
  rewrite (between_glm2mvp_unfold _ _ _ _ _ _ _ _ _ _ _ H1 H2), Hrun.
  pose proof (blocks_length _ _ _ _ _ Hload) as Hblocks.
  assert (Hx : length
                 (Np.nan_to_zero
                    (concat
                       (map (Spec.block (Mvp.beta2tstat (Between.mvp e)) sel)
                            vols)
                     ++ Np.zeros (Np.count_true sel
                                  * (length cl - length vols))))
               = length vols * Np.count_true sel).
  { rewrite nan_to_zero_length, length_app.
    rewrite (concat_length_blocks (Np.count_true sel) _ Hblocks), length_map.
    unfold Np.zeros. rewrite repeat_length, Hn. nia. }
  do 4 eexists. split; [reflexivity|].
  unfold Spec.between_assembled. unfold Between.mvp in *. simpl.
  rewrite F1, F2.
  repeat split; auto.
  - rewrite length_app, contrast_blocks_length. lia.
  - rewrite length_app, repeat_blocks_length, true_positions_length. lia.
Qed.

Lemma between_index_vectors_accumulate_witness :
  exists e' log' x last,
    Between.glm2mvp true Ex.between_env Ex2.between_done [] = (Ok tt, e', log') /\
    Mvp.X (Between.mvp e') = Some (Vec x) /\
    Between.contrast_id e'
    = Between.contrast_id Ex2.between_done
      ++ Spec.contrast_blocks 0 2 (Np.count_true Ex.between_sel) /\
    Between.voxel_idx e'
    = Between.voxel_idx Ex2.between_done
      ++ concat (repeat (Spec.true_positions Ex.between_sel) 2) /\
    length (Between.contrast_id e')
    = length (Between.contrast_id Ex2.between_done) + length x /\
    length (Between.voxel_idx e')
    = length (Between.voxel_idx Ex2.between_done) + length x /\
    Spec.last_cope None [(Ex.cope8a, Ex.var8a); (Ex.cope8b, Ex.var8b)]
    = Some last /\
    Mvp.nifti_header (Between.mvp e') = Some (vheader last) /\
    Mvp.affine (Between.mvp e') = Some (vaffine last).
Proof.
  eapply (between_index_vectors_accumulate Ex.between_env true
            Ex2.between_done _ _ [] _ _ _
            ["cope1.nii.gz"; "cope2.nii.gz"]%string
            ["varcope1.nii.gz"; "varcope2.nii.gz"]%string
            [(Ex.cope8a, Ex.var8a); (Ex.cope8b, Ex.var8b)]
            Ex.between_sel ["task"; "rest"]%string).
  - vm_compute. reflexivity.
  - vm_compute. reflexivity.
  - reflexivity.
  - reflexivity.
  - reflexivity.
  - discriminate.
  - repeat constructor; simpl; try reflexivity; try discriminate.
Defined.

Lemma within_on_mvp_frame {A} (m : M Env Mvp.t call A) (env : Env)
      (s s' : Within.t) (t t' : list call) (r : result A) :
  Within.on_mvp m env s t = (r, s', t') ->
  s' = Within.set_mvp (Within.mvp s') s.
Proof.
  unfold Within.on_mvp, zoom.
  destruct (m env (Within.mvp s) t) as [[r0 b] t0].
  intros [= _ <- _]. now rewrite within_mvp_set_mvp.
Qed.

(** X14.  The within-run extraction takes the header and the affine from
    the last cope it loaded, and leaves the labels alone: after an
    extraction that went through, [nifti_header] and [affine] are those
    of the volume of the last retained cope, and the labels, their codes
    in [y] and the class names are what the first part of the call had
    stored. *)
Theorem within_geometry_of_last_cope (env : Env) (flag : bool)
        (e e1 e2 e3 : Within.t) (log log1 log2 log3 : list call) (k : nat)
        (copes varcopes : list path) (vols : list (volume * volume))
        (sel : list bool) (cl : list string) :
  Within.preamble flag env e log = (Ok k, e1, log1) ->
  Within.stat_files env e1 log1 = (Ok (copes, varcopes), e2, log2) ->
  Fsl2mvp.contrast_labels (Within.base e2) = Some cl ->
  length copes = length cl ->
  Within.on_mvp (Fsl2mvp.peek copes) env e2 log2 = (Ok tt, e3, log3) ->
  Mvp.mask_index (Within.mvp e3) = Some sel ->
  Spec.trials_load env (Mvp.beta2tstat (Within.mvp e)) sel copes varcopes vols ->
  vols <> [] ->
  exists e' log' last,
    Within.glm2mvp flag env e log = (Ok tt, e', log') /\
    Spec.last_volume None (map fst vols) = Some last /\
    Mvp.nifti_header (Within.mvp e') = Some (vheader last) /\
    Mvp.affine (Within.mvp e') = Some (vaffine last) /\
    Fsl2mvp.contrast_labels (Within.base e') = Some cl /\
    Mvp.y (Within.mvp e') = Mvp.y (Within.mvp e3) /\
    Within.class_names e' = Within.class_names e1 /\
    Within.n_trials e' = Within.n_trials e1.
Proof.
  intros H1 H2 Hcl Hlen Hpeek Hsel Hload Hne.
  destruct (within_preamble_facts _ _ _ _ _ _ _ H1) as (A1 & A2).
  pose proof (within_stat_files_facts _ _ _ _ _ _ _ H2) as ->.
  destruct (within_peek_facts _ _ _ _ _ _ Hpeek) as (B0 & B1 & B2).
  assert (Hnf : Mvp.n_features (Within.mvp e3) = Some (Np.count_true sel)).
  { destruct (Mvp.mask_path (Within.mvp e)).
    - destruct A2 as [A2 (sel' & A3 & A4)].
      destruct (Mvp.mask_path (Within.mvp e1)); [|congruence].
      rewrite B2 in *. congruence.
    - rewrite A2 in B2. destruct B2 as (sel' & B2 & B3). congruence. }
  assert (Hb : Mvp.beta2tstat (Within.mvp e3) = Mvp.beta2tstat (Within.mvp e))
    by congruence.
  destruct (within_fill_spec env sel _ k copes varcopes vols e1 e3 log2 log3
              Hpeek Hsel Hnf Hb Hload Hne) as (log' & last & Hlast & Hrun).
  rewrite (within_glm2mvp_unfold _ _ _ _ _ _ _ _ _ _ _ H1 H2).
  assert (Hasm : Within.assemble k copes varcopes env e1 log2
                 = Within.fill k copes varcopes env e1 log2).
  { unfold Within.assemble, Within.contrast_labels.
    rewrite bind_assoc, bind_get, Hcl. simpl some_or. rewrite bind_ret.
    now rewrite Hlen, Nat.eqb_refl. }
  rewrite Hasm, Hrun.
  do 2 eexists. exists last. split; [reflexivity|].
  rewrite within_mvp_set_mvp.
  split; [exact Hlast|].
  rewrite (within_on_mvp_frame _ _ _ _ _ _ _ Hpeek).
  destruct e1 as [[m lbl ri] a b c d f g].
  repeat split; auto.
Qed.

Lemma within_geometry_of_last_cope_witness :
  exists e' log' last,
    Within.glm2mvp true Ex.within_env Ex.within_entity [] = (Ok tt, e', log') /\
    Spec.last_volume None (map fst Ex2.within_vols) = Some last /\
    Mvp.nifti_header (Within.mvp e') = Some (vheader last) /\
    Mvp.affine (Within.mvp e') = Some (vaffine last) /\
    Fsl2mvp.contrast_labels (Within.base e') = Some Ex.abc_labels /\
    Mvp.y (Within.mvp e')
    = Mvp.y (Within.mvp
               (snd (fst (Within.preamble true Ex.within_env
                                          Ex.within_entity [])))) /\
    Within.class_names e'
    = Within.class_names
        (snd (fst (Within.preamble true Ex.within_env Ex.within_entity []))) /\
    Within.n_trials e'
    = Within.n_trials
        (snd (fst (Within.preamble true Ex.within_env Ex.within_entity []))).
Proof.
  eapply (within_geometry_of_last_cope Ex.within_env true
            Ex.within_entity
            (snd (fst (Within.preamble true Ex.within_env Ex.within_entity [])))
            _
            (snd (fst (Within.preamble true Ex.within_env Ex.within_entity [])))
            [] _ _ _ _
            Ex2.within_copes Ex2.within_varcopes Ex2.within_vols
            (repeat true 10) Ex.abc_labels).
  - vm_compute. reflexivity.
  - vm_compute. reflexivity.
  - reflexivity.
  - reflexivity.
  - vm_compute. reflexivity.
  - vm_compute. reflexivity.
  - split; [|intros _]; repeat constructor.
  - discriminate.
Defined.



Lemma beta2tstat_divides_and_zeroes_nan_witness :
  (exists e' log' rows,
     Within.glm2mvp true Ex.within_env Ex.within_entity [] = (Ok tt, e', log') /\
     Mvp.X (Within.mvp e')
     = Some (Mat (length Ex.abc_labels) (Np.count_true (repeat true 10)) rows) /\
     rows = map (Spec.tstat_block Float64 (repeat true 10)) Ex2.within_vols /\
     Forall (Forall (fun x => f64_isnan x = false)) rows) /\
  (exists e' log' x,
     Between.glm2mvp true Ex.between_env Ex.between_entity []
     = (Ok tt, e', log') /\
     Mvp.X (Between.mvp e') = Some (Vec x) /\
     Forall (fun v => f64_isnan v = false) x /\
     forall i, i < length [(Ex.cope8a, Ex.var8a); (Ex.cope8b, Ex.var8b)] ->
       Spec.slice x (i * Np.count_true Ex.between_sel)
                  (Np.count_true Ex.between_sel)
       = let v := nth i [(Ex.cope8a, Ex.var8a); (Ex.cope8b, Ex.var8b)]
                      (Spec.no_volume, Spec.no_volume) in
         Spec.tstat_block (Spec.between_dtype v) Ex.between_sel v).
Proof.
  split.
  - eapply (proj1 beta2tstat_divides_and_zeroes_nan Ex.within_env true
              Ex.within_entity _ _ _ [] _ _ _ _
              Ex2.within_copes Ex2.within_varcopes Ex2.within_vols
              (repeat true 10) Ex.abc_labels).
    + reflexivity.
    + vm_compute. reflexivity.
    + vm_compute. reflexivity.
    + reflexivity.
    + reflexivity.
    + vm_compute. reflexivity.
    + vm_compute. reflexivity.
    + split; [|intros _]; repeat constructor.
    + discriminate.
  - eapply (proj1 (proj2 beta2tstat_divides_and_zeroes_nan)
              Ex.between_env true Ex.between_entity _ _ [] _ _ _
              ["cope1.nii.gz"; "cope2.nii.gz"]%string
              ["varcope1.nii.gz"; "varcope2.nii.gz"]%string
              [(Ex.cope8a, Ex.var8a); (Ex.cope8b, Ex.var8b)]
              Ex.between_sel ["task"; "rest"]%string).
    + reflexivity.
    + vm_compute. reflexivity.
    + vm_compute. reflexivity.
    + reflexivity.
    + reflexivity.
    + simpl. lia.
    + discriminate.
    + repeat constructor; simpl; try reflexivity; try discriminate.
Defined.

Lemma between_no_pair_raises_witness :
  exists e' log',
    Between.glm2mvp true Ex.no_copes_env Ex.between_entity []
    = (Raise UnboundLocalError, e', log').
Proof.
  eapply (between_no_pair_raises Ex.no_copes_env true
            Ex.between_entity _ _ [] _ _ _ [] []).
  - vm_compute. reflexivity.
  - vm_compute. reflexivity.
  - reflexivity.
Defined.

Lemma within_peek_masked (env : Env) (copes : list path) (s : Within.t)
      (t : list call) (p : path) :
  Mvp.mask_path (Within.mvp s) = Some p ->
  Within.on_mvp (Fsl2mvp.peek copes) env s t = (Ok tt, s, t).
Proof.
  intros Hp. unfold Within.on_mvp, zoom, Fsl2mvp.peek.
  rewrite bind_get, Hp. unfold ret. now rewrite within_set_mvp_same.
Qed.

Lemma within_peek_nothing (env : Env) (s : Within.t) (t : list call) :
  Mvp.mask_path (Within.mvp s) = None ->
  Within.on_mvp (Fsl2mvp.peek []) env s t = (Raise IndexError, s, t).
Proof.
  intros Hp. unfold Within.on_mvp, zoom, Fsl2mvp.peek.
  rewrite bind_get, Hp. simpl nth_error. unfold some_or.
  rewrite bind_raise_now. now rewrite within_set_mvp_same.
Qed.

Lemma within_no_geometry (env : Env) (s : Within.t) (t : list call) :
  Within.on_mvp (Fsl2mvp.keep_geometry None) env s t
  = (Raise UnboundLocalError, s, t).
Proof.
  unfold Within.on_mvp, zoom, Fsl2mvp.keep_geometry, some_or.
  rewrite bind_raise_now. now rewrite within_set_mvp_same.
Qed.

(** X18.  With no cope retained and no label, the within-run [glm2mvp]
    does not return either: with a mask it allocates an empty matrix and
    then reads, at within.py:166, a [cope_img] that no iteration has
    bound; without a mask it fails earlier, at the peek of within.py:153,
    on [copes[0]].  In both cases [X] stays what it was. *)
Theorem within_no_cope_raises (env : Env) (flag : bool)
        (e e1 e2 : Within.t) (log log1 log2 : list call) (k : nat)
        (varcopes : list path) :
  Within.preamble flag env e log = (Ok k, e1, log1) ->
  Within.stat_files env e1 log1 = (Ok ([], varcopes), e2, log2) ->
  Fsl2mvp.contrast_labels (Within.base e2) = Some [] ->
  exists e' log',
    Within.glm2mvp flag env e log
    = (Raise (match Mvp.mask_path (Within.mvp e) with
              | Some _ => UnboundLocalError
              | None => IndexError
              end), e', log') /\
    Mvp.X (Within.mvp e') = Mvp.X (Within.mvp e).
Proof.
  intros H1 H2 Hcl.
  destruct (within_preamble_facts _ _ _ _ _ _ _ H1) as (A1 & A2).
  pose proof (within_stat_files_facts _ _ _ _ _ _ _ H2) as ->.
  destruct (respects_run _ _ _ _ _ _ _ _ _ _
              (within_preamble_respects flag) H1) as (_ & (HX & _) & _).
  rewrite (within_glm2mvp_unfold _ _ _ _ _ _ _ _ _ _ _ H1 H2).
  unfold Within.assemble, Within.contrast_labels.
  rewrite bind_assoc, bind_get, Hcl. simpl some_or. rewrite bind_ret.
  change (negb (length (@nil path) =? length (@nil string))) with false.
  cbv iota. unfold Within.fill. cbv zeta.
  destruct (Mvp.mask_path (Within.mvp e)) as [p|].
  - destruct A2 as [Hp (sel & Hsel & Hnf)].
    destruct (Mvp.mask_path (Within.mvp e1)) as [p'|] eqn:Hp'; [|congruence].
    rewrite (bind_ok _ _ _ _ _ _ _ _
               (within_peek_masked env [] e1 log2 p' Hp')).
    erewrite bind_ok by (apply within_attr_ok; exact Hnf).
    rewrite bind_emit. cbn [Within.load_copes]. rewrite bind_ret.
    rewrite (bind_raise _ _ _ _ _ _ _ _
               (within_no_geometry env e1 _)).
    do 2 eexists. split; [reflexivity | exact HX].
  - rewrite (bind_raise _ _ _ _ _ _ _ _
               (within_peek_nothing env e1 log2 A2)).
    do 2 eexists. split; [reflexivity | exact HX].
Qed.

Lemma within_no_cope_raises_witness :
  exists e' log',
    Within.glm2mvp true Ex2.empty_env Ex.within_entity []
    = (Raise (match Mvp.mask_path (Within.mvp Ex.within_entity) with
              | Some _ => UnboundLocalError
              | None => IndexError
              end), e', log') /\
    Mvp.X (Within.mvp e') = Mvp.X (Within.mvp Ex.within_entity).
Proof.
  eapply (within_no_cope_raises Ex2.empty_env true
            Ex.within_entity _ _ [] _ _ _ []).
  - vm_compute. reflexivity.
  - vm_compute. reflexivity.
  - reflexivity.
Defined.

(* ================================================================== *)
(** * posixpath *)
(* ================================================================== *)

Section Strings.
Variable c : ascii.

Lemma append_assoc (a b d : string) :
  String.append (String.append a b) d = String.append a (String.append b d).
Proof. induction a as [|x a IH]; simpl; [reflexivity | now rewrite IH]. Qed.

Lemma append_nil_r (a : string) : String.append a EmptyString = a.
Proof. induction a as [|x a IH]; simpl; [reflexivity | now rewrite IH]. Qed.

Lemma contains_app (a b : string) :
  Posixpath.contains c (String.append a b)
  = Posixpath.contains c a || Posixpath.contains c b.
Proof.
  induction a as [|x a IH]; simpl; [reflexivity|].
  now rewrite IH, orb_assoc.
Qed.

Lemma after_last_app_sep (a n : string) :
  Posixpath.contains c n = false ->
  Posixpath.after_last c (String.append a (String c n)) = n.
Proof.
  intros Hn. induction a as [|x a IH]; simpl.
  - now rewrite Hn, Ascii.eqb_refl.
  - rewrite contains_app. simpl. rewrite Ascii.eqb_refl, orb_true_r.
    simpl. exact IH.
Qed.

Lemma after_last_none (n : string) :
  Posixpath.contains c n = false -> Posixpath.after_last c n = n.
Proof.
  destruct n as [|x n]; simpl; [reflexivity|].
  intros [H1 H2]%orb_false_iff. now rewrite H1, H2.
Qed.

Lemma after_last_free (s : string) :
  Posixpath.contains c (Posixpath.after_last c s) = false.
Proof.
  induction s as [|x s IH]; simpl; [reflexivity|].
  destruct (Posixpath.contains c s) eqn:E; [exact IH|].
  destruct (Ascii.eqb x c) eqn:Ex; [exact E|].
  simpl. now rewrite Ex, E.
Qed.

Lemma after_last_keeps_free (d : ascii) (s : string) :
  Posixpath.contains d s = false ->
  Posixpath.contains d (Posixpath.after_last c s) = false.
Proof.
  induction s as [|x s IH]; simpl; [reflexivity|].
  intros [H1 H2]%orb_false_iff.
  destruct (Posixpath.contains c s); [auto|].
  destruct (Ascii.eqb x c); [exact H2|].
  simpl. now rewrite H1, H2.
Qed.

Lemma before_first_free (s : string) :
  Posixpath.contains c (Posixpath.before_first c s) = false.
Proof.
  induction s as [|x s IH]; simpl; [reflexivity|].
  destruct (Ascii.eqb x c) eqn:Ex; simpl; [reflexivity|].
  now rewrite Ex, IH.
Qed.

Lemma before_first_keeps_free (d : ascii) (s : string) :
  Posixpath.contains d s = false ->
  Posixpath.contains d (Posixpath.before_first c s) = false.
Proof.
  induction s as [|x s IH]; simpl; [reflexivity|].
  intros [H1 H2]%orb_false_iff.
  destruct (Ascii.eqb x c); simpl; [reflexivity|].
  now rewrite H1, IH.
Qed.

Lemma before_first_app_sep (a b : string) :
  Posixpath.contains c a = false ->
  Posixpath.before_first c (String.append a (String c b)) = a.
Proof.
  induction a as [|x a IH]; simpl.
  - now rewrite Ascii.eqb_refl.
  - intros [H1 H2]%orb_false_iff. now rewrite H1, IH.
Qed.

Lemma upto_last_app_sep (a n : string) :
  Posixpath.contains c n = false ->
  Posixpath.upto_last c (String.append a (String c n))
  = String.append a (String c EmptyString).
Proof.
  intros Hn. induction a as [|x a IH]; simpl.
  - now rewrite Hn, Ascii.eqb_refl.
  - rewrite contains_app. simpl. rewrite Ascii.eqb_refl, orb_true_r.
    simpl. now rewrite IH.
Qed.

Lemma upto_last_none (n : string) :
  Posixpath.contains c n = false -> Posixpath.upto_last c n = EmptyString.
Proof.
  destruct n as [|x n]; simpl; [reflexivity|].
  intros [H1 H2]%orb_false_iff. now rewrite H1, H2.
Qed.

Lemma endswith_inv (s : string) :
  Posixpath.endswith c s = true ->
  exists a, s = String.append a (String c EmptyString).
Proof.
  induction s as [|x s IH]; simpl; [discriminate|].
  destruct s as [|y s].
  - intros ->%Ascii.eqb_eq. now exists EmptyString.
  - intros H. destruct (IH H) as [a Ha]. exists (String x a).
    simpl. now rewrite <- Ha.
Qed.

Lemma rstrip_app_sep (d : string) :
  Posixpath.endswith c d = false ->
  Posixpath.rstrip c (String.append d (String c EmptyString)) = d.
Proof.
  induction d as [|x d IH]; intros H.
  - simpl. now rewrite Ascii.eqb_refl.
  - destruct d as [|y d].
    + simpl in *. now rewrite Ascii.eqb_refl, H.
    + change (Posixpath.endswith c (String y d) = false) in H.
      specialize (IH H).
      change (Posixpath.rstrip c
                (String.append (String x (String y d)) (String c EmptyString)))
        with (match Posixpath.rstrip c
                      (String.append (String y d) (String c EmptyString)) with
              | EmptyString => if Ascii.eqb x c then EmptyString
                               else String x EmptyString
              | String a r => String x (String a r)
              end).
      now rewrite IH.
Qed.

Lemma all_are_app (a b : string) :
  Posixpath.all_are c (String.append a b)
  = Posixpath.all_are c a && Posixpath.all_are c b.
Proof.
  induction a as [|x a IH]; simpl; [reflexivity|].
  now rewrite IH, andb_assoc.
Qed.

Lemma all_are_endswith (d : string) :
  Posixpath.all_are c d = true -> d <> EmptyString ->
  Posixpath.endswith c d = true.
Proof.
  induction d as [|x d IH]; intros H Hne; [congruence|].
  simpl in H. apply andb_true_iff in H as [H1 H2].
  destruct d as [|y d]; [exact H1|].
  change (Posixpath.endswith c (String y d) = true).
  apply IH; [exact H2 | discriminate].
Qed.

Lemma free_not_startswith (n : string) :
  Posixpath.contains c n = false -> Posixpath.startswith c n = false.
Proof.
  destruct n as [|x n]; simpl; [reflexivity|].
  now intros [H1 _]%orb_false_iff.
Qed.

Lemma free_not_endswith (n : string) :
  Posixpath.contains c n = false -> Posixpath.endswith c n = false.
Proof.
  induction n as [|x n IH]; [reflexivity|].
  simpl. intros [H1 H2]%orb_false_iff.
  destruct n as [|y n]; [exact H1 | now apply IH].
Qed.

Lemma endswith_app (a n : string) :
  n <> EmptyString ->
  Posixpath.endswith c (String.append a n) = Posixpath.endswith c n.
Proof.
  intros Hn. induction a as [|x a IH]; [reflexivity|].
  simpl String.append.
  destruct (String.append a n) as [|y r] eqn:E.
  - destruct a; [simpl in E; congruence | discriminate].
  - exact IH.
Qed.

Lemma rstrip_settled (s : string) :
  Posixpath.endswith c (Posixpath.rstrip c s) = false.
Proof.
  induction s as [|x s IH]; simpl; [reflexivity|].
  destruct (Posixpath.rstrip c s) as [|y r] eqn:E.
  - destruct (Ascii.eqb x c) eqn:Ex; simpl; auto.
  - exact IH.
Qed.
End Strings.

Lemma basename_join (d n : string) :
  Posixpath.contains Posixpath.sep n = false ->
  Posixpath.basename (Posixpath.join d n) = n.
Proof.
  intros Hn. unfold Posixpath.basename, Posixpath.join.
  rewrite (free_not_startswith _ _ Hn).
  destruct d as [|x d]; cbn [Posixpath.is_empty orb].
  - simpl. now apply after_last_none.
  - destruct (Posixpath.endswith Posixpath.sep (String x d)) eqn:E.
    + destruct (endswith_inv _ _ E) as [a ->].
      rewrite append_assoc. simpl. now apply after_last_app_sep.
    + now apply after_last_app_sep.
Qed.

Lemma dirname_join (d n : string) :
  Posixpath.contains Posixpath.sep n = false ->
  Cover.settled d ->
  Posixpath.dirname (Posixpath.join d n) = d.
Proof.
  intros Hn Hd. unfold Posixpath.dirname, Posixpath.join.
  rewrite (free_not_startswith _ _ Hn).
  destruct d as [|x d]; cbn [Posixpath.is_empty orb].
  - simpl String.append. now rewrite (upto_last_none _ _ Hn).
  - destruct (Posixpath.endswith Posixpath.sep (String x d)) eqn:E.
    + destruct Hd as [Hall|Hend]; [|congruence].
      destruct (endswith_inv _ _ E) as [a Ha]. rewrite Ha in *.
      rewrite append_assoc. simpl String.append.
      rewrite (upto_last_app_sep _ _ _ Hn), Hall.
      now rewrite andb_false_r.
    + rewrite (upto_last_app_sep _ _ _ Hn).
      rewrite (rstrip_app_sep _ _ E).
      destruct (Posixpath.all_are Posixpath.sep
                  (String.append (String x d)
                     (String Posixpath.sep EmptyString))) eqn:Hall.
      * rewrite all_are_app in Hall. apply andb_true_iff in Hall as [Hall _].
        rewrite (all_are_endswith _ _ Hall) in E by discriminate.
        discriminate.
      * reflexivity.
Qed.

Lemma dirname_settled (p : string) : Cover.settled (Posixpath.dirname p).
Proof.
  unfold Posixpath.dirname, Cover.settled.
  destruct (Posixpath.upto_last Posixpath.sep p) as [|x h] eqn:E.
  - left. reflexivity.
  - cbn [Posixpath.is_empty negb andb].
    destruct (Posixpath.all_are Posixpath.sep (String x h)) eqn:Hall;
      cbn [negb].
    + left. exact Hall.
    + right. apply rstrip_settled.
Qed.

Lemma join_suffix (suffix d n : string) :
  Cover.has_suffix suffix n -> Cover.has_suffix suffix (Posixpath.join d n).
Proof.
  intros [front ->]. unfold Posixpath.join.
  destruct (Posixpath.startswith _ _); [now exists front|].
  destruct (_ || _).
  - exists (String.append d front). now rewrite append_assoc.
  - exists (String.append d (String Posixpath.sep front)).
    now rewrite append_assoc.
Qed.

Lemma free_not_all (c : ascii) (n : string) :
  Posixpath.contains c n = false -> n <> EmptyString ->
  Posixpath.all_are c n = false.
Proof.
  destruct n as [|x n]; [congruence|]. simpl.
  intros [Hx _]%orb_false_iff _. now rewrite Hx.
Qed.

Lemma join_not_endswith (d n : string) :
  Posixpath.contains Posixpath.sep n = false -> n <> EmptyString ->
  Posixpath.endswith Posixpath.sep (Posixpath.join d n) = false.
Proof.
  intros Hn Hne. unfold Posixpath.join.
  rewrite (free_not_startswith _ _ Hn).
  destruct (_ || _).
  - rewrite endswith_app by exact Hne. now apply free_not_endswith.
  - rewrite endswith_app by discriminate.
    destruct n as [|x n]; [congruence|].
    change (Posixpath.endswith Posixpath.sep (String x n) = false).
    now apply free_not_endswith.
Qed.

Lemma join_not_all (d n : string) :
  Posixpath.contains Posixpath.sep n = false -> n <> EmptyString ->
  Posixpath.all_are Posixpath.sep (Posixpath.join d n) = false.
Proof.
  intros Hn Hne. unfold Posixpath.join.
  rewrite (free_not_startswith _ _ Hn).
  destruct (_ || _); rewrite all_are_app; simpl;
    rewrite (free_not_all _ _ Hn Hne); now rewrite ?andb_false_r.
Qed.

Lemma join_settled (d n : string) :
  Posixpath.contains Posixpath.sep n = false -> n <> EmptyString ->
  Cover.settled (Posixpath.join d n).
Proof. intros Hn Hne. right. now apply join_not_endswith. Qed.

(* ================================================================== *)
(** * Further properties: convert2epi *)
(* ================================================================== *)

(** X19.  The name of the file [convert2epi] asks FLIRT to write: it
    always ends with ".nii.gz"; when no [out_name] is given, its last
    component is the last component of [f] cut at its first dot,
    followed by "_epi.nii.gz", whatever [out_dir] is; when an
    [out_name] without a slash is given, its last component is
    [out_name] followed by ".nii.gz" (also when [out_name] already ends
    with that extension); and the path returned is that file. *)
Theorem convert2epi_output_name (w : Convert2epi.world) (f reg_dir : string)
        (out_dir out_name : option string) (interpolation : string) :
  exists i rest,
    snd (Convert2epi.convert2epi w f reg_dir out_dir out_name interpolation)
    = Convert2epi.Run i :: rest /\
    Cover.has_suffix ".nii.gz"
      (Convert2epi.out_file (Convert2epi.inputs_of i)) /\
    (out_name = None ->
     Posixpath.basename (Convert2epi.out_file (Convert2epi.inputs_of i))
     = String.append (Posixpath.before_first "."%char (Posixpath.basename f))
                     "_epi.nii.gz") /\
    (forall n, out_name = Some n ->
       Posixpath.contains Posixpath.sep n = false ->
       Posixpath.basename (Convert2epi.out_file (Convert2epi.inputs_of i))
       = String.append n ".nii.gz") /\
    (forall p,
       fst (Convert2epi.convert2epi w f reg_dir out_dir out_name interpolation)
       = Convert2epi.Returned p ->
       p = Convert2epi.out_file (Convert2epi.inputs_of i)).
Proof.
  assert (Hstem : Posixpath.contains Posixpath.sep
                    (String.append
                       (Posixpath.before_first "."%char (Posixpath.basename f))
                       "_epi.nii.gz") = false).
  { rewrite contains_app, orb_false_iff. split; [|reflexivity].
    apply before_first_keeps_free, after_last_free. }
  assert (Hgiven : forall n, Posixpath.contains Posixpath.sep n = false ->
                     Posixpath.contains Posixpath.sep
                       (String.append n ".nii.gz") = false).
  { intros n Hn. rewrite contains_app, Hn. reflexivity. }
  assert (Hs1 : Cover.has_suffix ".nii.gz"
                  (String.append
                     (Posixpath.before_first "."%char (Posixpath.basename f))
                     "_epi.nii.gz")).
  { exists (String.append
              (Posixpath.before_first "."%char (Posixpath.basename f)) "_epi").
    now rewrite append_assoc. }
  assert (Hs2 : forall n, Cover.has_suffix ".nii.gz"
                            (String.append n ".nii.gz"))
    by (intros n; now exists n).
  unfold Convert2epi.convert2epi. cbv zeta.
  destruct (Convert2epi.run_ok w _); [destruct (Convert2epi.remove_ok w _)|];
    (eexists; eexists; split; [reflexivity|]);
    cbn [Convert2epi.inputs_of Convert2epi.out_file fst];
    (split; [destruct out_dir, out_name; apply join_suffix; auto|]);
    (split; [intros ->; destruct out_dir; now apply basename_join|]);
    (split; [intros n -> Hn; destruct out_dir; apply basename_join; auto|]);
    intros p Hp; now inversion Hp.
Qed.

(** X20.  Where [convert2epi] writes: with [out_dir] left out, or given
    as a path that is all slashes or does not end with a slash, and
    [out_name] left out or given without a slash, the file FLIRT writes
    and the temporary matrix file "tmp_flirt" are both in that directory
    ([out_dir], or the directory of [f]); the file removed afterwards is
    that matrix file and no other, it is removed only after FLIRT ran,
    and a path is returned only after it was removed. *)
Theorem convert2epi_writes_in_out_dir (w : Convert2epi.world)
        (f reg_dir : string) (out_dir out_name : option string)
        (interpolation : string) :
  (forall d, out_dir = Some d -> Cover.settled d) ->
  (forall n, out_name = Some n ->
             Posixpath.contains Posixpath.sep n = false) ->
  exists i rest,
    Convert2epi.convert2epi w f reg_dir out_dir out_name interpolation
    = (fst (Convert2epi.convert2epi w f reg_dir out_dir out_name
                                    interpolation),
       Convert2epi.Run i :: rest) /\
    Posixpath.dirname (Convert2epi.out_file (Convert2epi.inputs_of i))
    = match out_dir with Some d => d | None => Posixpath.dirname f end /\
    Posixpath.dirname (Convert2epi.out_matrix_file (Convert2epi.inputs_of i))
    = match out_dir with Some d => d | None => Posixpath.dirname f end /\
    Posixpath.basename (Convert2epi.out_matrix_file (Convert2epi.inputs_of i))
    = "tmp_flirt"%string /\
    (rest = [] \/
     rest = [Convert2epi.Remove
               (Convert2epi.out_matrix_file (Convert2epi.inputs_of i))]) /\
    (rest <> [] -> Convert2epi.run_ok w i = true) /\
    (forall p,
       fst (Convert2epi.convert2epi w f reg_dir out_dir out_name interpolation)
       = Convert2epi.Returned p ->
       rest <> [] /\
       Convert2epi.remove_ok w
         (Convert2epi.out_matrix_file (Convert2epi.inputs_of i)) = true).
Proof.
  intros Hdir Hname.
  set (dir := match out_dir with
              | Some d => d
              | None => Posixpath.dirname f
              end).
  assert (Hset : Cover.settled dir).
  { subst dir. destruct out_dir as [d|]; [now apply Hdir|].
    apply dirname_settled. }
  set (name := match out_name with
               | None =>
                   String.append
                     (Posixpath.before_first "."%char (Posixpath.basename f))
                     "_epi.nii.gz"
               | Some n => String.append n ".nii.gz"
               end).
  assert (Hfree : Posixpath.contains Posixpath.sep name = false).
  { subst name. destruct out_name as [n|].
    - rewrite contains_app, (Hname n eq_refl). reflexivity.
    - rewrite contains_app, orb_false_iff. split; [|reflexivity].
      apply before_first_keeps_free, after_last_free. }
  assert (Hout : match out_dir with
                 | None =>
                     match out_name with
                     | None =>
                         Posixpath.join (Posixpath.dirname f)
                           (String.append
                              (Posixpath.before_first "."%char
                                 (Posixpath.basename f)) "_epi.nii.gz")
                     | Some n =>
                         Posixpath.join (Posixpath.dirname f)
                                        (String.append n ".nii.gz")
                     end
                 | Some d => Posixpath.join d name
                 end = Posixpath.join dir name).
  { subst dir name. destruct out_dir, out_name; reflexivity. }
  unfold Convert2epi.convert2epi. cbv zeta. fold name. rewrite Hout.
  rewrite (dirname_join dir name Hfree Hset).
  destruct (Convert2epi.run_ok w _) eqn:Hrun;
    [destruct (Convert2epi.remove_ok w _) eqn:Hrm|];
    (eexists; eexists; split; [reflexivity|]);
    cbn [Convert2epi.inputs_of Convert2epi.out_file
         Convert2epi.out_matrix_file fst];
    repeat split;
    try (apply dirname_join; [first [reflexivity | assumption] | assumption]);
    try (apply basename_join; reflexivity);
    try (right; reflexivity); try (left; reflexivity);
    try discriminate; try assumption; try congruence.
Qed.

Lemma convert2epi_writes_in_out_dir_witness :
  exists i rest,
    Convert2epi.convert2epi Ex2.fine "/data/sub1/run1.feat/mask.nii.gz"
                            "/data/sub1/run1.feat/reg" None None "trilinear"
    = (fst (Convert2epi.convert2epi Ex2.fine
              "/data/sub1/run1.feat/mask.nii.gz"
              "/data/sub1/run1.feat/reg" None None "trilinear"),
       Convert2epi.Run i :: rest) /\
    Posixpath.dirname (Convert2epi.out_file (Convert2epi.inputs_of i))
    = Posixpath.dirname "/data/sub1/run1.feat/mask.nii.gz" /\
    Posixpath.dirname (Convert2epi.out_matrix_file (Convert2epi.inputs_of i))
    = Posixpath.dirname "/data/sub1/run1.feat/mask.nii.gz" /\
    Posixpath.basename (Convert2epi.out_matrix_file (Convert2epi.inputs_of i))
    = "tmp_flirt"%string /\
    (rest = [] \/
     rest = [Convert2epi.Remove
               (Convert2epi.out_matrix_file (Convert2epi.inputs_of i))]) /\
    (rest <> [] -> Convert2epi.run_ok Ex2.fine i = true) /\
    (forall p,
       fst (Convert2epi.convert2epi Ex2.fine
              "/data/sub1/run1.feat/mask.nii.gz"
              "/data/sub1/run1.feat/reg" None None "trilinear")
       = Convert2epi.Returned p ->
       rest <> [] /\
       Convert2epi.remove_ok Ex2.fine
         (Convert2epi.out_matrix_file (Convert2epi.inputs_of i)) = true).
Proof.
  apply (convert2epi_writes_in_out_dir Ex2.fine
           "/data/sub1/run1.feat/mask.nii.gz" "/data/sub1/run1.feat/reg"
           None None "trilinear").
  - discriminate.
  - discriminate.
Defined.

(** X21.  The [interpolation] argument never reaches FLIRT's inputs:
    convert2epi.py:67 sets it as the attribute [interp] of the interface
    object, not of its [inputs], so two calls that differ only in
    [interpolation] (in whatever world) run the interface with the same
    inputs: the file [f], the reference and the matrix of [reg_dir],
    the same output and matrix files, [apply_xfm] on. *)
Theorem convert2epi_interpolation_is_no_input (w w' : Convert2epi.world)
        (f reg_dir : string) (out_dir out_name : option string)
        (a b : string) :
  exists i j rest rest',
    snd (Convert2epi.convert2epi w f reg_dir out_dir out_name a)
    = Convert2epi.Run i :: rest /\
    snd (Convert2epi.convert2epi w' f reg_dir out_dir out_name b)
    = Convert2epi.Run j :: rest' /\
    Convert2epi.inputs_of i = Convert2epi.inputs_of j /\
    Convert2epi.interp i = a /\ Convert2epi.interp j = b /\
    Convert2epi.in_file (Convert2epi.inputs_of i) = f /\
    Convert2epi.reference (Convert2epi.inputs_of i)
    = Posixpath.join reg_dir "example_func.nii.gz" /\
    Convert2epi.in_matrix_file (Convert2epi.inputs_of i)
    = Posixpath.join reg_dir "standard2example_func.mat" /\
    Convert2epi.apply_xfm (Convert2epi.inputs_of i) = true.
Proof.
  unfold Convert2epi.convert2epi. cbv zeta.
  destruct (Convert2epi.run_ok w _); [destruct (Convert2epi.remove_ok w _)|];
    (destruct (Convert2epi.run_ok w' _);
     [destruct (Convert2epi.remove_ok w' _)|]);
    do 4 eexists; repeat split; reflexivity.
Qed.

(* ================================================================== *)
(** * Further properties: Mvp.__init__ *)
(* ================================================================== *)

(** X22.  What [Mvp.__init__] derives from its paths: when the directory
    is not there it raises (the OSError of mvp.py:62) before any
    attribute but [directory] is set; otherwise [sub_name] and
    [mask_name] are single path components (no slash), [run_name] holds
    no slash, no dot and no underscore, [mask_name] is 'WholeBrain'
    when no mask is given, and the attributes the methods read are
    those given, with everything about the data still [None]. *)
Theorem mvp_init_names (exists_ : string -> bool) (directory : string)
        (mask_threshold : f64) (beta2tstat : bool) (ref_space : string)
        (mask_path : option path) :
  (exists_ directory = false <->
   MvpInit.init exists_ directory mask_threshold beta2tstat ref_space
                mask_path = None) /\
  (forall n m,
     MvpInit.init exists_ directory mask_threshold beta2tstat ref_space
                  mask_path = Some (n, m) ->
     MvpInit.directory n = directory /\
     Posixpath.contains Posixpath.sep (MvpInit.sub_name n) = false /\
     Posixpath.contains Posixpath.sep (MvpInit.run_name n) = false /\
     Posixpath.contains "."%char (MvpInit.run_name n) = false /\
     Posixpath.contains "_"%char (MvpInit.run_name n) = false /\
     Posixpath.contains Posixpath.sep (MvpInit.mask_name n) = false /\
     (mask_path = None -> MvpInit.mask_name n = "WholeBrain"%string) /\
     Mvp.ref_space m = ref_space /\ Mvp.beta2tstat m = beta2tstat /\
     Mvp.mask_path m = mask_path /\ Mvp.mask_threshold m = mask_threshold /\
     Mvp.n_features m = None /\ Mvp.mask_index m = None /\
     Mvp.mask_shape m = None /\ Mvp.X m = None /\ Mvp.y m = None).
Proof.
  unfold MvpInit.init. destruct (exists_ directory); simpl negb; cbv iota.
  - split; [split; discriminate|].
    intros n m [= <- <-]. cbn [MvpInit.directory MvpInit.sub_name
                               MvpInit.run_name MvpInit.mask_name].
    split; [reflexivity|].
    split; [apply after_last_free|].
    split; [apply after_last_keeps_free, before_first_keeps_free,
            after_last_free|].
    split; [apply after_last_keeps_free, before_first_free|].
    split; [apply after_last_free|].
    split; [destruct mask_path; [apply after_last_free | reflexivity]|].
    split; [now intros ->|].
    repeat split.
  - split; [split; reflexivity|]. discriminate.
Qed.

(** X23.  The names of a feat directory come back: for a directory
    [root/sub/prefix_run.ext] (joined with [op.join]) where [sub],
    [prefix], [run] and [ext] hold no slash, [sub] is not empty,
    [prefix] and [run] hold no dot and [run] no underscore,
    [Mvp.__init__] sets [sub_name] to [sub] and [run_name] to [run]. *)
Theorem mvp_init_names_of_feat_directory (exists_ : string -> bool)
        (root sub prefix run ext : string)
        (mask_threshold : f64) (beta2tstat : bool) (ref_space : string)
        (mask_path : option path) :
  let file := String.append prefix
                (String "_" (String.append run (String "." ext))) in
  let directory := Posixpath.join (Posixpath.join root sub) file in
  exists_ directory = true ->
  sub <> EmptyString ->
  Posixpath.contains Posixpath.sep sub = false ->
  Posixpath.contains Posixpath.sep file = false ->
  Posixpath.contains "."%char prefix = false ->
  Posixpath.contains "."%char run = false ->
  Posixpath.contains "_"%char run = false ->
  exists n m,
    MvpInit.init exists_ directory mask_threshold beta2tstat ref_space
                 mask_path = Some (n, m) /\
    MvpInit.sub_name n = sub /\
    MvpInit.run_name n = run.
Proof.
  intros file directory Hex Hsub Hsubfree Hfile Hprefix Hrun Hrun_.
  unfold MvpInit.init. rewrite Hex. simpl negb. cbv iota.
  do 2 eexists. split; [reflexivity|].
  cbn [MvpInit.sub_name MvpInit.run_name]. subst directory.
  rewrite (dirname_join _ _ Hfile (join_settled root sub Hsubfree Hsub)).
  rewrite (basename_join _ _ Hsubfree), (basename_join _ _ Hfile).
  split; [reflexivity|]. subst file.
  replace (String.append prefix
             (String "_" (String.append run (String "." ext))))
    with (String.append (String.append prefix (String "_" run))
                        (String "." ext))
    by (rewrite append_assoc; reflexivity).
  rewrite before_first_app_sep.
  - now apply after_last_app_sep.
  - rewrite contains_app, Hprefix. simpl. now rewrite Hrun.
Qed.

Lemma mvp_init_names_of_feat_directory_witness :
  exists n m,
    MvpInit.init (fun _ => true)
      (Posixpath.join (Posixpath.join "/data" "sub001")
         (String.append "wm"
            (String "_" (String.append "run1" (String "." "feat")))))
      f64_zero true "epi" None = Some (n, m) /\
    MvpInit.sub_name n = "sub001"%string /\
    MvpInit.run_name n = "run1"%string.
Proof.
  apply (mvp_init_names_of_feat_directory (fun _ => true)
           "/data" "sub001" "wm" "run1" "feat" f64_zero true "epi" None).
  - reflexivity.
  - discriminate.
  - reflexivity.
  - reflexivity.
  - reflexivity.
  - reflexivity.
  - reflexivity.
Defined.

(** X24.  A trailing slash shifts the names: for a directory given as
    [parent/name/] ([name] a non-empty path component), [op.basename]
    of the directory is empty, so [run_name] is the empty string, and
    [sub_name] is [name], the name of the run directory itself, not
    that of the directory above it. *)
Theorem mvp_init_trailing_slash (exists_ : string -> bool)
        (parent name : string)
        (mask_threshold : f64) (beta2tstat : bool) (ref_space : string)
        (mask_path : option path) :
  let directory :=
    String.append (Posixpath.join parent name)
                  (String Posixpath.sep EmptyString) in
  exists_ directory = true ->
  name <> EmptyString ->
  Posixpath.contains Posixpath.sep name = false ->
  exists n m,
    MvpInit.init exists_ directory mask_threshold beta2tstat ref_space
                 mask_path = Some (n, m) /\
    MvpInit.run_name n = EmptyString /\
    MvpInit.sub_name n = name.
Proof.
  intros directory Hex Hne Hfree.
  unfold MvpInit.init. rewrite Hex. simpl negb. cbv iota.
  do 2 eexists. split; [reflexivity|].
  cbn [MvpInit.sub_name MvpInit.run_name]. subst directory.
  assert (Hbase : Posixpath.basename
                    (String.append (Posixpath.join parent name)
                                   (String Posixpath.sep EmptyString))
                  = EmptyString).
  { unfold Posixpath.basename. now apply after_last_app_sep. }
  rewrite Hbase. split; [reflexivity|].
  assert (Hdir : Posixpath.dirname
                   (String.append (Posixpath.join parent name)
                                  (String Posixpath.sep EmptyString))
                 = Posixpath.join parent name).
  { pose proof (join_not_endswith parent name Hfree Hne) as Hend.
    unfold Posixpath.dirname.
    rewrite (upto_last_app_sep _ _ EmptyString eq_refl).
    rewrite (rstrip_app_sep _ _ Hend).
    rewrite all_are_app, (join_not_all parent name Hfree Hne).
    destruct (Posixpath.join parent name); reflexivity. }
  rewrite Hdir. now apply basename_join.
Qed.

Lemma mvp_init_trailing_slash_witness :
  exists n m,
    MvpInit.init (fun _ => true)
      (String.append (Posixpath.join "/data/sub001" "wm_run1.feat")
                     (String Posixpath.sep EmptyString))
      f64_zero true "epi" None = Some (n, m) /\
    MvpInit.run_name n = EmptyString /\
    MvpInit.sub_name n = "wm_run1.feat"%string.
Proof.
  apply (mvp_init_trailing_slash (fun _ => true)
           "/data/sub001" "wm_run1.feat" f64_zero true "epi" None).
  - reflexivity.
  - discriminate.
  - reflexivity.
Defined.

(* ================================================================== *)
(** * Further properties: the statistic files *)
(* ================================================================== *)

(** X25.  The split after the transformation to MNI space, the
    transformation giving one file per file it was given, in order:
    the copes and varcopes that come back are the two halves of the
    transformed list; they are the transformed copes and the
    transformed varcopes when there are as many varcopes as copes; the
    first half has as many entries as there were copes only when the
    number of varcopes is that of the copes or one more, so with any
    other numbers a file changes lists. *)
Theorem to_mni_split {St} (env : Env) (f : path -> path)
        (copes varcopes : list path) (s : St) (log : list call) :
  (forall ps, env_convert2mni env ps = map f ps) ->
  exists c v,
    Fsl2mvp.to_mni copes varcopes env s log
    = (Ok (c, v), s, log ++ [Convert2mni (copes ++ varcopes)]) /\
    c ++ v = map f copes ++ map f varcopes /\
    length c = (length copes + length varcopes) / 2 /\
    (length copes = length varcopes ->
     c = map f copes /\ v = map f varcopes) /\
    (length c = length copes <->
     length varcopes = length copes \/ length varcopes = S (length copes)).
Proof.
  intros Hf. unfold Fsl2mvp.to_mni.
  rewrite bind_ask, bind_emit. cbv zeta. unfold ret.
  rewrite Hf, length_map, length_app.
  set (n := length copes). set (m := length varcopes).
  assert (Hdiv : 2 * ((n + m) / 2) <= n + m /\ n + m < 2 * ((n + m) / 2) + 2).
  { pose proof (Nat.div_mod_eq (n + m) 2) as H1.
    pose proof (Nat.mod_upper_bound (n + m) 2) as H2. lia. }
  do 2 eexists. split; [reflexivity|].
  split; [now rewrite firstn_skipn, map_app|].
  split; [rewrite length_firstn, length_map, length_app; fold n m; lia|].
  split.
  - intros Hnm. assert (Hhalf : (n + m) / 2 = n) by lia.
    rewrite Hhalf, map_app. unfold n.
    rewrite <- (length_map f copes).
    rewrite firstn_app, Nat.sub_diag, firstn_all, firstn_O, app_nil_r.
    rewrite skipn_app, Nat.sub_diag, skipn_all, skipn_O. auto.
  - rewrite length_firstn, length_map, length_app. fold n m. lia.
Qed.

Lemma to_mni_split_witness :
  exists c v,
    Fsl2mvp.to_mni Ex2.two_copes Ex2.two_varcopes Ex.between_env tt []
    = (Ok (c, v), tt,
       [] ++ [Convert2mni (Ex2.two_copes ++ Ex2.two_varcopes)]) /\
    c ++ v = map (fun p => p) Ex2.two_copes
             ++ map (fun p => p) Ex2.two_varcopes /\
    length c = (length Ex2.two_copes + length Ex2.two_varcopes) / 2 /\
    (length Ex2.two_copes = length Ex2.two_varcopes ->
     c = map (fun p => p) Ex2.two_copes /\
     v = map (fun p => p) Ex2.two_varcopes) /\
    (length c = length Ex2.two_copes <->
     length Ex2.two_varcopes = length Ex2.two_copes \/
     length Ex2.two_varcopes = S (length Ex2.two_copes)).
Proof.
  apply (to_mni_split Ex.between_env (fun p => p)
           Ex2.two_copes Ex2.two_varcopes tt []).
  intros ps. simpl. now rewrite map_id.
Defined.

Lemma stats_directory_run (env : Env) (m : Mvp.t) (t : list call) :
  Fsl2mvp.stats_directory env m t
  = if String.eqb (Mvp.ref_space m) "epi" then (Ok (Stats, false), m, t)
    else if String.eqb (Mvp.ref_space m) "mni" then
      (Ok (if env_isdir env RegStandard then (RegStandard, false)
           else (Stats, true)), m, t ++ [Isdir RegStandard])
    else (Raise (ValueError InvalidRefSpace), m, t).
Proof.
  unfold Fsl2mvp.stats_directory. rewrite bind_get.
  destruct (String.eqb_spec (Mvp.ref_space m) "epi") as [Hepi|Hepi].
  - rewrite Hepi. reflexivity.
  - destruct (String.eqb (Mvp.ref_space m) "mni"); [|reflexivity].
    rewrite bind_ret, bind_emit, bind_ask.
    destruct (env_isdir env RegStandard); reflexivity.
Qed.

Lemma within_stats_directory_run (env : Env) (e : Within.t)
      (t : list call) :
  Within.on_mvp Fsl2mvp.stats_directory env e t
  = if String.eqb (Mvp.ref_space (Within.mvp e)) "epi"
    then (Ok (Stats, false), e, t)
    else if String.eqb (Mvp.ref_space (Within.mvp e)) "mni" then
      (Ok (if env_isdir env RegStandard then (RegStandard, false)
           else (Stats, true)), e, t ++ [Isdir RegStandard])
    else (Raise (ValueError InvalidRefSpace), e, t).
Proof.
  unfold Within.on_mvp, zoom. rewrite stats_directory_run.
  destruct (String.eqb _ "epi"); [|destruct (String.eqb _ "mni")];
    now rewrite within_set_mvp_same.
Qed.

Lemma between_stats_directory_run (env : Env) (e : Between.t)
      (t : list call) :
  Between.on_mvp Fsl2mvp.stats_directory env e t
  = if String.eqb (Mvp.ref_space (Between.mvp e)) "epi"
    then (Ok (Stats, false), e, t)
    else if String.eqb (Mvp.ref_space (Between.mvp e)) "mni" then
      (Ok (if env_isdir env RegStandard then (RegStandard, false)
           else (Stats, true)), e, t ++ [Isdir RegStandard])
    else (Raise (ValueError InvalidRefSpace), e, t).
Proof.
  unfold Between.on_mvp, zoom. rewrite stats_directory_run.
  destruct (String.eqb _ "epi"); [|destruct (String.eqb _ "mni")];
    now rewrite between_set_mvp_same.
Qed.

Lemma list_stats_run {St} (d : subdir) (env : Env) (s : St) (t : list call) :
  Fsl2mvp.list_stats d env s t
  = (Ok (sort_numbered_list env (env_glob env d Cope),
         sort_numbered_list env (env_glob env d Varcope)),
     s, t ++ [Glob d Cope; Glob d Varcope]).
Proof.
  unfold Fsl2mvp.list_stats. rewrite bind_ask, !bind_emit. unfold ret.
  now rewrite <- app_assoc.
Qed.

Lemma to_mni_run {St} (copes varcopes : list path) (env : Env) (s : St)
      (t : list call) :
  Fsl2mvp.to_mni copes varcopes env s t
  = (Ok (firstn (length (env_convert2mni env (copes ++ varcopes)) / 2)
                (env_convert2mni env (copes ++ varcopes)),
         skipn (length (env_convert2mni env (copes ++ varcopes)) / 2)
               (env_convert2mni env (copes ++ varcopes))),
     s, t ++ [Convert2mni (copes ++ varcopes)]).
Proof. reflexivity. Qed.

Lemma remove_excluded_log (copes varcopes : list path) (env : Env)
      (s : Fsl2mvp.t) (t : list call) :
  snd (Fsl2mvp.remove_excluded copes varcopes env s t) = t.
Proof.
  unfold Fsl2mvp.remove_excluded, bind, get, ask, some_or, lift, ret, raise.
  destruct (Fsl2mvp.remove_idx s); [|reflexivity].
  destruct (Py.pop_each copes _); [|reflexivity].
  destruct (Py.pop_each _ _); reflexivity.
Qed.

Lemma within_remove_excluded_log (copes varcopes : list path) (env : Env)
      (s : Within.t) (t : list call) :
  snd (Within.super (Fsl2mvp.remove_excluded copes varcopes) env s t) = t.
Proof.
  unfold Within.super, zoom.
  pose proof (remove_excluded_log copes varcopes env (Within.base s) t) as H.
  destruct (Fsl2mvp.remove_excluded copes varcopes env (Within.base s) t)
    as [[r b] t']. exact H.
Qed.

(** X26.  Where the within-run extraction takes its statistics from:
    whatever the outcome of within.py:112-143, the copes are listed in
    reg_standard exactly when MNI space is asked for and that directory
    is there, and in stats otherwise; the files are transformed to MNI
    space exactly when MNI space is asked for and reg_standard is not
    there; and whether reg_standard is there is only asked when MNI
    space is asked for. *)
Theorem within_stat_files_directory (env : Env) (e : Within.t)
        (log : list call) :
  exists new,
    snd (Within.stat_files env e log) = log ++ new /\
    existsb Cover.is_convert2mni new
    = Cover.needs_transform env (Within.mvp e) /\
    (forall d, In (Some d) (map Cover.lists_copes_of new) ->
       d = if String.eqb (Mvp.ref_space (Within.mvp e)) "mni"
              && env_isdir env RegStandard
           then RegStandard else Stats) /\
    (In (Isdir RegStandard) new ->
     Mvp.ref_space (Within.mvp e) = "mni"%string).
Proof.
  unfold Cover.needs_transform, Within.stat_files.
  pose proof (within_stats_directory_run env e log) as Hdir.
  destruct (String.eqb_spec (Mvp.ref_space (Within.mvp e)) "epi") as [Hepi|Hepi];
    [rewrite Hepi; simpl String.eqb
    |destruct (String.eqb_spec (Mvp.ref_space (Within.mvp e)) "mni")
       as [Hmni|Hmni];
     [destruct (env_isdir env RegStandard)|]];
    first [ rewrite (bind_ok _ _ _ _ _ _ _ _ Hdir)
          | rewrite (bind_raise _ _ _ _ _ _ _ _ Hdir) ];
    try (rewrite (bind_ok _ _ _ _ _ _ _ _ (list_stats_run _ _ _ _));
         cbv beta iota;
         try rewrite bind_ret;
         try (rewrite (bind_ok _ _ _ _ _ _ _ _ (to_mni_run _ _ _ _ _));
              cbv beta iota);
         rewrite within_remove_excluded_log);
    cbn [snd]; rewrite <- ?app_assoc;
    (eexists; split;
     [first [reflexivity | symmetry; apply app_nil_r]|]); simpl;
    repeat split;
    try (intros d Hd; repeat destruct Hd as [Hd|Hd];
         try discriminate; try contradiction; now inversion Hd);
    try (intros Hin; repeat destruct Hin as [Hin|Hin];
         try discriminate; try contradiction; assumption).
Qed.

(* ================================================================== *)
(** * Further properties: the mask *)
(* ================================================================== *)

Lemma load_mask_plain (env : Env) (e : Mvp.t) (t : list call)
      (p : path) (v : volume) :
  Mvp.mask_path e = Some p ->
  env_nib_load env p = Some v ->
  String.eqb (Mvp.ref_space e) "epi" && shape_eqb (vshape v) mni_shape = false ->
  Fsl2mvp.load_mask env e t
  = (Ok tt, Cover.thresholded v e, t ++ [NibLoad p]).
Proof.
  intros Hp Hv Hc.
  unfold Fsl2mvp.load_mask, Fsl2mvp.nib_load, Mvp.attr,
    bind, get, ask, emit, some_or, modify, ret.
  rewrite Hp, Hv, Hc. reflexivity.
Qed.

Lemma load_mask_transformed (env : Env) (e : Mvp.t) (t : list call)
      (p : path) (v0 v : volume) :
  Mvp.mask_path e = Some p ->
  env_nib_load env p = Some v0 ->
  String.eqb (Mvp.ref_space e) "epi" && shape_eqb (vshape v0) mni_shape = true ->
  env_nib_load env (env_convert2epi env p) = Some v ->
  Fsl2mvp.load_mask env e t
  = (Ok tt,
     Cover.thresholded v
       (Mvp.set_mask_path (Some (env_convert2epi env p)) e),
     t ++ [NibLoad p; Convert2epi p; NibLoad (env_convert2epi env p)]).
Proof.
  intros Hp Hv0 Hc Hv.
  unfold Fsl2mvp.load_mask, Fsl2mvp.nib_load, Mvp.attr,
    bind, get, ask, emit, some_or, modify, ret.
  rewrite Hp, Hv0, Hc. simpl. rewrite Hv. simpl.
  now rewrite <- !app_assoc.
Qed.

(** X27.  The transformation of the mask is done once: when native
    space is asked for and the mask has the geometry of the MNI
    template, the build loads it, transforms it, loads the result and
    replaces [mask_path] by the transformed file; when that file has
    another geometry, building the mask again on the same entity loads
    the transformed file only, transforms nothing and leaves the entity
    exactly as the first build left it. *)
Theorem load_mask_transforms_once (env : Env) (log log' : list call)
        (e : Mvp.t) (p : path) (v0 v : volume) :
  Mvp.mask_path e = Some p ->
  Mvp.ref_space e = "epi"%string ->
  env_nib_load env p = Some v0 ->
  vshape v0 = mni_shape ->
  env_nib_load env (env_convert2epi env p) = Some v ->
  vshape v <> mni_shape ->
  exists e1,
    Fsl2mvp.load_mask env e log
    = (Ok tt, e1,
       log ++ [NibLoad p; Convert2epi p; NibLoad (env_convert2epi env p)]) /\
    Mvp.mask_path e1 = Some (env_convert2epi env p) /\
    Mvp.mask_shape e1 = Some (vshape v) /\
    Fsl2mvp.load_mask env e1 log'
    = (Ok tt, e1, log' ++ [NibLoad (env_convert2epi env p)]).
Proof.
  intros Hp Hepi Hv0 Hshape Hv Hne.
  assert (Hmni : shape_eqb (vshape v0) mni_shape = true).
  { unfold shape_eqb. destruct (list_eq_dec _ _ _); congruence. }
  assert (Hnot : shape_eqb (vshape v) mni_shape = false).
  { unfold shape_eqb. destruct (list_eq_dec _ _ _); congruence. }
  eexists. split.
  - assert (Hc : String.eqb (Mvp.ref_space e) "epi"
                 && shape_eqb (vshape v0) mni_shape = true)
      by now rewrite Hepi, Hmni.
    exact (load_mask_transformed env e log p v0 v Hp Hv0 Hc Hv).
  - split; [reflexivity|]. split; [reflexivity|].
    rewrite (load_mask_plain env _ log' (env_convert2epi env p) v);
      [|reflexivity|exact Hv|].
    + destruct e; reflexivity.
    + rewrite Hnot. apply andb_false_r.
Qed.

Lemma load_mask_transforms_once_witness :
  exists e1,
    Fsl2mvp.load_mask Ex2.mni_mask_env Ex2.epi_entity []
    = (Ok tt, e1,
       [] ++ [NibLoad "mask.nii.gz"%string; Convert2epi "mask.nii.gz"%string;
              NibLoad (env_convert2epi Ex2.mni_mask_env
                                       "mask.nii.gz"%string)]) /\
    Mvp.mask_path e1
    = Some (env_convert2epi Ex2.mni_mask_env "mask.nii.gz"%string) /\
    Mvp.mask_shape e1 = Some (vshape Ex2.epi_mask) /\
    Fsl2mvp.load_mask Ex2.mni_mask_env e1 []
    = (Ok tt, e1,
       [] ++ [NibLoad (env_convert2epi Ex2.mni_mask_env
                                       "mask.nii.gz"%string)]).
Proof.
  apply (load_mask_transforms_once Ex2.mni_mask_env [] [] Ex2.epi_entity
           "mask.nii.gz"%string Ex2.mni_mask Ex2.epi_mask).
  - reflexivity.
  - reflexivity.
  - reflexivity.
  - reflexivity.
  - reflexivity.
  - discriminate.
Defined.

(* ================================================================== *)
(** * Further properties: the labels and the outcome of the between-run
      design *)
(* ================================================================== *)

Lemma load_mask_keeps_y (env : Env) (m m' : Mvp.t) (t t' : list call) :
  Fsl2mvp.load_mask env m t = (Ok tt, m', t') -> Mvp.y m' = Mvp.y m.
Proof.
  unfold Fsl2mvp.load_mask, Fsl2mvp.nib_load, Mvp.attr,
    bind, get, ask, emit, some_or, modify, ret, raise.
  intros H. split_runs; reflexivity.
Qed.

(** X28.  What the first part of the between-run extraction stores
    besides the mask: when it returns, the labels are there,
    [n_contrast] is their number and [contrast_names] the labels that
    occur, each once and in ascending order; with an outcome file, [y]
    is the number read from it, and without one [y] is left as it
    was. *)
Theorem between_preamble_metadata (env : Env) (flag : bool)
        (e e1 : Between.t) (log log1 : list call) (k : nat) :
  Between.preamble flag env e log = (Ok k, e1, log1) ->
  exists cl,
    Fsl2mvp.contrast_labels (Between.base e1) = Some cl /\
    Between.n_contrast e1 = Some (length cl) /\
    Between.contrast_names e1 = Some (Np.unique cl) /\
    Cover.ascending (Np.unique cl) /\
    (forall c, In c (Np.unique cl) <-> In c cl) /\
    Between.output_var_file e1 = Between.output_var_file e /\
    match Between.output_var_file e with
    | Some f => exists y, env_outcome env f = Ok y /\
                          Mvp.y (Between.mvp e1) = Some (YScalar y)
    | None => Mvp.y (Between.mvp e1) = Mvp.y (Between.mvp e)
    end.
Proof.
  unfold Between.preamble, Between.on_mvp, Between.super, zoom,
    Fsl2mvp.reset_mat_dir, Fsl2mvp._extract_labels,
    Between._add_outcome_var, Between._update_metadata,
    Between.contrast_labels, Between.on_mvp, zoom, lift,
    bind, get, ask, emit, some_or, modify, ret, raise.
  intros H. destruct e as [[m cl ri] ovf cid vid nc cn].
  split_runs;
    repeat match goal with u : unit |- _ => destruct u end;
    match goal with
    | E : Fsl2mvp.load_mask _ _ _ = _ |- _ =>
        apply load_mask_keeps_y in E
    end;
    unfold Between.mvp in *; simpl in *;
    eexists; (split; [reflexivity|]);
    (split; [reflexivity|]); (split; [reflexivity|]);
    (split; [apply unique_ascending|]);
    (split; [apply unique_in|]);
    (split; [reflexivity|]);
    first [ eexists; split; reflexivity | assumption ].
Qed.

Lemma between_preamble_metadata_witness :
  exists cl,
    Fsl2mvp.contrast_labels
      (Between.base
         (snd (fst (Between.preamble true Ex2.outcome_env
                                     Ex2.outcome_entity []))))
    = Some cl /\
    Between.n_contrast
      (snd (fst (Between.preamble true Ex2.outcome_env Ex2.outcome_entity [])))
    = Some (length cl) /\
    Between.contrast_names
      (snd (fst (Between.preamble true Ex2.outcome_env Ex2.outcome_entity [])))
    = Some (Np.unique cl) /\
    Cover.ascending (Np.unique cl) /\
    (forall c, In c (Np.unique cl) <-> In c cl) /\
    Between.output_var_file
      (snd (fst (Between.preamble true Ex2.outcome_env Ex2.outcome_entity [])))
    = Between.output_var_file Ex2.outcome_entity /\
    match Between.output_var_file Ex2.outcome_entity with
    | Some f =>
        exists y, env_outcome Ex2.outcome_env f = Ok y /\
                  Mvp.y (Between.mvp
                           (snd (fst (Between.preamble true Ex2.outcome_env
                                        Ex2.outcome_entity []))))
                  = Some (YScalar y)
    | None =>
        Mvp.y (Between.mvp
                 (snd (fst (Between.preamble true Ex2.outcome_env
                              Ex2.outcome_entity []))))
        = Mvp.y (Between.mvp Ex2.outcome_entity)
    end.
Proof.
  eapply (between_preamble_metadata Ex2.outcome_env true
            Ex2.outcome_entity _ [] _ _).
  vm_compute. reflexivity.
Defined.

(** X29.  Without the extraction of the labels, an entity that never
    had them cannot be extracted: with [extract_labels=False], the
    between-run [glm2mvp] on an entity whose [contrast_labels] is [None]
    and the within-run [glm2mvp] on an entity whose [remove_idx] is
    [None] never return, whatever the files are. *)
Theorem glm2mvp_needs_labels (env : Env) :
  (forall (e : Between.t) (log : list call),
     Fsl2mvp.contrast_labels (Between.base e) = None ->
     fst (fst (Between.glm2mvp false env e log)) <> Ok tt) /\
  (forall (e : Within.t) (log : list call),
     Fsl2mvp.remove_idx (Within.base e) = None ->
     fst (fst (Within.glm2mvp false env e log)) <> Ok tt).
Proof.
  split.
  - intros e log Hcl Hok.
    destruct (Between.glm2mvp false env e log) as [[r e'] log'] eqn:H.
    simpl in Hok. subst r. unfold Between.glm2mvp in H.
    destruct (bind_inv _ _ _ _ _ _ _ _ H)
      as [(k & e1 & log1 & E1 & _)|(x & _ & [=])].
    clear H. revert E1.
    unfold Between.preamble, Between.on_mvp, Between.super, zoom,
      Fsl2mvp.reset_mat_dir, Between._add_outcome_var,
      Between._update_metadata, Between.contrast_labels, Between.on_mvp,
      zoom, lift, bind, get, ask, emit, some_or, modify, ret, raise.
    destruct e as [[m cl ri] ovf cid vid nc cn]. simpl in Hcl. subst cl.
    intros E1. split_runs.
  - intros e log Hri Hok.
    destruct (Within.glm2mvp false env e log) as [[r e'] log'] eqn:H.
    simpl in Hok. subst r. unfold Within.glm2mvp in H.
    destruct (bind_inv _ _ _ _ _ _ _ _ H)
      as [(k & e1 & log1 & E1 & E2)|(x & _ & [=])].
    destruct (bind_inv _ _ _ _ _ _ _ _ E2)
      as [([copes varcopes] & e2 & log2 & E3 & _)|(x & _ & [=])].
    clear H E2. revert E1 E3.
    unfold Within.preamble, Within.stat_files, Within.on_mvp, Within.super,
      zoom, Fsl2mvp.reset_mat_dir, Fsl2mvp.stats_directory,
      Fsl2mvp.list_stats, Fsl2mvp.remove_excluded, Fsl2mvp.to_mni,
      lift, bind, get, ask, emit, some_or, modify, ret, raise.
    destruct e as [[m cl ri] a b c d f g]. simpl in Hri. subst ri.
    intros E1 E3.
    split_runs;
      unfold Within.mvp, Within.set_mvp, Within.set_base, Fsl2mvp.set_mvp in *;
      simpl in *; discriminate.
Qed.

(* ================================================================== *)
(** * Further properties: exclusion and transformation *)
(* ================================================================== *)

Lemma between_super_frame {A} (m : Fsl2mvp.Method A) (env : Env)
      (e : Between.t) (t t' : list call) (a : A) :
  m env (Between.base e) t = (Ok a, Between.base e, t') ->
  Between.super m env e t = (Ok a, e, t').
Proof.
  intros H. unfold Between.super, zoom. rewrite H.
  destruct e; reflexivity.
Qed.

(** X30.  The two designs order the exclusion and the transformation
    differently.  MNI space being asked for with no reg_standard
    directory: the within-run extraction hands every listed cope and
    varcope to the transformation, whatever [remove_idx] says
    (within.py:132-143 excludes afterwards); the between-run extraction
    excludes first (between.py:142-152) and hands over only the copes
    and varcopes that are left. *)
Theorem exclusion_and_transformation_order (env : Env)
        (w : Within.t) (b : Between.t) (log : list call) (idx : list nat) :
  let copes := sort_numbered_list env (env_glob env Stats Cope) in
  let varcopes := sort_numbered_list env (env_glob env Stats Varcope) in
  Mvp.ref_space (Within.mvp w) = "mni"%string ->
  Mvp.ref_space (Between.mvp b) = "mni"%string ->
  env_isdir env RegStandard = false ->
  Fsl2mvp.remove_idx (Between.base b) = Some idx ->
  NoDup idx ->
  (forall i, In i idx -> i < length copes) ->
  (forall i, In i idx -> i < length (sort_numbered_list env varcopes)) ->
  snd (Within.stat_files env w log)
  = log ++ [Isdir RegStandard; Glob Stats Cope; Glob Stats Varcope;
            Convert2mni (copes ++ varcopes)] /\
  exists rest,
    snd (Between.stat_files env b log)
    = log ++ [Isdir RegStandard; Glob Stats Cope; Glob Stats Varcope;
              Convert2mni
                (Cover.without idx copes
                 ++ Cover.without idx (sort_numbered_list env varcopes))]
          ++ rest.
Proof.
  intros copes varcopes Hw Hb Hdir Hidx Hnd Hc Hv. split.
  - unfold Within.stat_files.
    pose proof (within_stats_directory_run env w log) as Hrun.
    rewrite Hw, Hdir in Hrun. simpl String.eqb in Hrun. cbv iota in Hrun.
    rewrite (bind_ok _ _ _ _ _ _ _ _ Hrun).
    rewrite (bind_ok _ _ _ _ _ _ _ _ (list_stats_run _ _ _ _)).
    cbv beta iota.
    rewrite (bind_ok _ _ _ _ _ _ _ _ (to_mni_run _ _ _ _ _)).
    cbv beta iota. rewrite within_remove_excluded_log.
    now rewrite <- !app_assoc.
  - unfold Between.stat_files.
    pose proof (between_stats_directory_run env b log) as Hrun.
    rewrite Hb, Hdir in Hrun. simpl String.eqb in Hrun. cbv iota in Hrun.
    rewrite (bind_ok _ _ _ _ _ _ _ _ Hrun).
    rewrite (bind_ok _ _ _ _ _ _ _ _ (list_stats_run _ _ _ _)).
    cbv beta iota.
    rewrite (bind_ok _ _ _ _ _ _ _ _
               (between_super_frame _ _ _ _ _ _
                  (remove_excluded_ok env (Between.base b) _ copes varcopes
                     idx Hidx Hnd Hc Hv))).
    cbv beta iota.
    rewrite (bind_ok _ _ _ _ _ _ _ _ (to_mni_run _ _ _ _ _)).
    cbv beta iota.
    match goal with
    | |- context [bind ?m ?k env b ?t] =>
        destruct (m env b t) as [[r s] t'] eqn:Hpeek;
        assert (Hlog : exists rest, t' = t ++ rest)
    end.
    { assert (Hresp : Spec.respects (fun _ => true) (@Spec.any Between.t)
                        (fun _ => True)
                        (Between.on_mvp
                           (Fsl2mvp.peek
                              (firstn
                                 (length
                                    (env_convert2mni env
                                       (Cover.without idx copes
                                        ++ Cover.without idx
                                             (sort_numbered_list env
                                                varcopes))) / 2)
                                 (env_convert2mni env
                                    (Cover.without idx copes
                                     ++ Cover.without idx
                                          (sort_numbered_list env
                                             varcopes)))))))
        by (respects_unfold; respects_auto).
      destruct (respects_run _ _ _ _ _ _ _ _ _ _ Hresp Hpeek)
        as ((rest & -> & _) & _ & _).
      now exists rest. }
    destruct Hlog as [rest ->]. exists rest.
    unfold bind. rewrite Hpeek.
    destruct r; cbn [snd]; now rewrite <- !app_assoc.
Qed.

Lemma exclusion_and_transformation_order_witness :
  snd (Within.stat_files Ex2.native_env Ex2.mni_within [])
  = [] ++ [Isdir RegStandard; Glob Stats Cope; Glob Stats Varcope;
           Convert2mni
             (sort_numbered_list Ex2.native_env
                (env_glob Ex2.native_env Stats Cope)
              ++ sort_numbered_list Ex2.native_env
                   (env_glob Ex2.native_env Stats Varcope))] /\
  exists rest,
    snd (Between.stat_files Ex2.native_env Ex2.mni_between [])
    = [] ++ [Isdir RegStandard; Glob Stats Cope; Glob Stats Varcope;
             Convert2mni
               (Cover.without [0]
                  (sort_numbered_list Ex2.native_env
                     (env_glob Ex2.native_env Stats Cope))
                ++ Cover.without [0]
                     (sort_numbered_list Ex2.native_env
                        (sort_numbered_list Ex2.native_env
                           (env_glob Ex2.native_env Stats Varcope))))]
         ++ rest.
Proof.
  apply (exclusion_and_transformation_order Ex2.native_env
           Ex2.mni_within Ex2.mni_between [] [0]).
  - reflexivity.
  - reflexivity.
  - reflexivity.
  - reflexivity.
  - repeat constructor. simpl. tauto.
  - simpl. intros i [<-|[]]. lia.
  - simpl. intros i [<-|[]]. lia.
Defined.
